(** * Umple language server: a shallow embedding of [server.ts]

    The language server sits between an editor and the Umple compiler.
    This development embeds the parts of [server.ts] that its design
    document makes promises about: the sentinel demultiplexer of the
    UmpleSync socket protocol, the lexical context scanner behind keyword
    completion, the conversion of the compiler's JSON error records into
    editor diagnostics, the retrying socket bridge, the debounce timers,
    the per-version model cache, and the go-to-definition handler with its
    shadow workspace.  It also embeds the completion handler with its
    filters, the completion items built from the compiler's model, and the
    parts of the lookup tool [UmpleGoToDefJson] that print what the server
    reads.

    JavaScript strings are modelled by [string]; a character stands for the
    UTF-16 code unit of the same value, so the model covers the code units
    U+0000..U+00FF.  Process, socket and file-system calls are events
    answered by an environment ([Env]); the handlers are written in a small
    state-and-exception monad over the server's global variables. *)

From Stdlib Require Import String Ascii ZArith List Lia Bool DecimalString.
From stdpp Require Import gmap strings list.

Set Warnings "-register-all".

Local Open Scope string_scope.
Local Open Scope nat_scope.

(** ** JavaScript string primitives *)

Module JsString.

(** [s.indexOf(pattern, from)]; [None] is JavaScript's [-1]. *)
Definition indexOf (s pattern : string) (from : nat) : option nat :=
  String.index from pattern s.

(** [s.slice(from, to)] for indices [0 <= from], [0 <= to]. *)
Definition slice (s : string) (from to : nat) : string :=
  String.substring from (to - from) s.

(** [s.slice(from)]. *)
Definition sliceFrom (s : string) (from : nat) : string :=
  String.substring from (String.length s - from) s.

(** The characters that [trim], [\s] and the numeric-string grammar
    treat as white space (tab, LF, VT, FF, CR, space, no-break space). *)
Definition isWhiteSpace (c : ascii) : bool :=
  let n := nat_of_ascii c in
  ((9 <=? n) && (n <=? 13)) || (n =? 32) || (n =? 160).

Fixpoint trimStart (s : string) : string :=
  match s with
  | String c rest => if isWhiteSpace c then trimStart rest else s
  | EmptyString => s
  end.

(** Drops the trailing white space: a character is kept when it, or
    something after it, is not white space. *)
Fixpoint trimEnd (s : string) : string :=
  match s with
  | String c rest =>
      match trimEnd rest with
      | EmptyString => if isWhiteSpace c then "" else String c ""
      | kept => String c kept
      end
  | EmptyString => ""
  end.

(** [s.trim()]. *)
Definition trim (s : string) : string := trimEnd (trimStart s).

(** [s.search(/\S/)]; [None] is [-1]. *)
Fixpoint searchNonSpace (s : string) : option nat :=
  match s with
  | String c rest =>
      if isWhiteSpace c then option_map S (searchNonSpace rest) else Some 0
  | EmptyString => None
  end.

(** [s.lastIndexOf(c)] for a single character. *)
Fixpoint lastIndexOfChar (s : string) (c : ascii) : option nat :=
  match s with
  | String d rest =>
      match lastIndexOfChar rest c with
      | Some i => Some (S i)
      | None => if Ascii.eqb d c then Some 0 else None
      end
  | EmptyString => None
  end.

(** [s.split(/\r?\n/)]: [line] collects the current piece, most recent
    character first; a piece ends at LF, and a CR right before that LF
    belongs to the separator. *)
Fixpoint revString (acc : list ascii) : string :=
  match acc with
  | [] => ""
  | c :: acc' => revString acc' +:+ String c ""
  end.

Fixpoint splitLinesFrom (s : string) (line : list ascii) : list string :=
  match s with
  | EmptyString => [revString line]
  | String c rest =>
      if Ascii.eqb c "010" then
        let piece :=
          match line with
          | d :: line' => if Ascii.eqb d "013" then line' else line
          | [] => line
          end in
        revString piece :: splitLinesFrom rest []
      else splitLinesFrom rest (c :: line)
  end.

Definition splitLines (s : string) : list string := splitLinesFrom s [].

(** Literals: [dq] turns every apostrophe of its argument into a double
    quote, so that JSON text can be written down; [NL] is a line feed. *)
Fixpoint dq (s : string) : string :=
  match s with
  | String c rest => String (if Ascii.eqb c "'" then "034"%char else c) (dq rest)
  | EmptyString => ""
  end.

Definition NL : string := String "010" "".

End JsString.

(** ** JavaScript numbers

    A finite number is kept as the exact decimal [mantissa * 10^exponent]
    that its literal denotes, in a normal form without trailing zeros in
    the mantissa; the rounding to binary64 is not modelled. *)

Module JsNumber.

Inductive number :=
| NaN
| Infinity (negative : bool)
| Finite (mantissa exponent : Z).

Fixpoint stripZeros (fuel : nat) (m e : Z) : Z * Z :=
  match fuel with
  | O => (m, e)
  | S fuel' =>
      if (m mod 10 =? 0)%Z then stripZeros fuel' (m / 10)%Z (e + 1)%Z
      else (m, e)
  end.

Definition finite (m e : Z) : number :=
  if (m =? 0)%Z then Finite 0 0
  else
    let (m', e') := stripZeros (Z.to_nat (Z.log2 (Z.abs m))) m e in
    Finite m' e'.

Definition ofZ (z : Z) : number := finite z 0.
Definition ofNat (n : nat) : number := ofZ (Z.of_nat n).

(** [m * 10^e] written over the exponent [e0 <= e]. *)
Definition scaled (m e e0 : Z) : Z := (m * 10 ^ (e - e0))%Z.

(** [a - b]. *)
Definition sub (a b : number) : number :=
  match a, b with
  | NaN, _ | _, NaN => NaN
  | Infinity s, Infinity t => if Bool.eqb s t then NaN else Infinity s
  | Infinity s, Finite _ _ => Infinity s
  | Finite _ _, Infinity t => Infinity (negb t)
  | Finite m1 e1, Finite m2 e2 =>
      let e0 := Z.min e1 e2 in
      finite (scaled m1 e1 e0 - scaled m2 e2 e0) e0
  end.

(** [a > b]. *)
Definition gt (a b : number) : bool :=
  match a, b with
  | NaN, _ | _, NaN => false
  | Infinity s, Infinity t => negb s && t
  | Infinity s, Finite _ _ => negb s
  | Finite _ _, Infinity t => t
  | Finite m1 e1, Finite m2 e2 =>
      let e0 := Z.min e1 e2 in
      (scaled m2 e2 e0 <? scaled m1 e1 e0)%Z
  end.

(** [Math.max(a, b)]. *)
Definition Math_max (a b : number) : number :=
  match a, b with
  | NaN, _ | _, NaN => NaN
  | _, _ => if gt b a then b else a
  end.

(** The array index a number denotes, when it is a non-negative integer. *)
Definition asIndex (n : number) : option nat :=
  match n with
  | Finite m e =>
      if (0 <=? m)%Z && (0 <=? e)%Z then Some (Z.to_nat (m * 10 ^ e))
      else None
  | _ => None
  end.

Definition isDigit (c : ascii) : bool :=
  (48 <=? nat_of_ascii c) && (nat_of_ascii c <=? 57).

Definition digitValue (c : ascii) : Z := Z.of_nat (nat_of_ascii c - 48).

(** The leading decimal digits of [s]: their value, their number, and
    the rest of [s]. *)
Fixpoint digits (s : string) (value : Z) (count : nat) : Z * nat * string :=
  match s with
  | String c rest =>
      if isDigit c then digits rest (value * 10 + digitValue c)%Z (S count)
      else (value, count, s)
  | EmptyString => (value, count, s)
  end.

(** The digit of [c] in a radix up to 16. *)
Definition digitIn (radix : Z) (c : ascii) : option Z :=
  let n := nat_of_ascii c in
  let v :=
    if (48 <=? n) && (n <=? 57) then Some (Z.of_nat (n - 48))
    else if (97 <=? n) && (n <=? 102) then Some (Z.of_nat (n - 87))
    else if (65 <=? n) && (n <=? 70) then Some (Z.of_nat (n - 55))
    else None in
  match v with
  | Some d => if (d <? radix)%Z then Some d else None
  | None => None
  end.

Fixpoint radixDigits (radix : Z) (s : string) (value : Z) : option Z :=
  match s with
  | String c rest =>
      match digitIn radix c with
      | Some d => radixDigits radix rest (value * radix + d)%Z
      | None => None
      end
  | EmptyString => Some value
  end.

(** [ExponentPart] (optional) followed by the end of the literal. *)
Definition exponentPart (s : string) : option Z :=
  match s with
  | EmptyString => Some 0%Z
  | String c rest =>
      if Ascii.eqb c "e" || Ascii.eqb c "E" then
        let '(negative, rest) :=
          match rest with
          | String "-" r => (true, r)
          | String "+" r => (false, r)
          | _ => (false, rest)
          end in
        match digits rest 0 0 with
        | (_, O, _) => None
        | (v, S _, EmptyString) => Some (if negative then (- v)%Z else v)
        | (_, S _, String _ _) => None
        end
      else None
  end.

(** [StrUnsignedDecimalLiteral] without [Infinity]. *)
Definition unsignedDecimal (s : string) : option (Z * Z) :=
  let '(int, intCount, rest) := digits s 0 0 in
  let '(all, fracCount, hadDigits, rest) :=
    match rest with
    | String "." r =>
        let '(all, fracCount, r') := digits r int 0 in
        (all, fracCount, negb ((intCount =? 0) && (fracCount =? 0)), r')
    | _ => (int, 0, negb (intCount =? 0), rest)
    end in
  if hadDigits then
    match exponentPart rest with
    | Some e => Some (all, (e - Z.of_nat fracCount)%Z)
    | None => None
    end
  else None.

Definition strDecimalLiteral (s : string) : number :=
  let '(negative, body) :=
    match s with
    | String "-" r => (true, r)
    | String "+" r => (false, r)
    | _ => (false, s)
    end in
  if String.eqb body "Infinity" then Infinity negative
  else
    match unsignedDecimal body with
    | Some (m, e) => finite (if negative then (- m)%Z else m) e
    | None => NaN
    end.

(** [StringToNumber]: what [Number(s)] is for a string. *)
Definition StringToNumber (s : string) : number :=
  let t := JsString.trim s in
  match t with
  | EmptyString => Finite 0 0
  | String "0" (String x (String d rest)) =>
      let radix :=
        if Ascii.eqb x "x" || Ascii.eqb x "X" then Some 16%Z
        else if Ascii.eqb x "o" || Ascii.eqb x "O" then Some 8%Z
        else if Ascii.eqb x "b" || Ascii.eqb x "B" then Some 2%Z
        else None in
      match radix with
      | Some r =>
          match radixDigits r (String d rest) 0 with
          | Some v => finite v 0
          | None => NaN
          end
      | None => strDecimalLiteral t
      end
  | _ => strDecimalLiteral t
  end.

Definition decimalOfZ (z : Z) : string :=
  DecimalString.NilZero.string_of_uint (N.to_uint (Z.to_N z)).

Fixpoint zeros (n : nat) : string :=
  match n with O => "" | S n' => String "0" (zeros n') end.

(** [Number::toString] in radix 10. *)
Definition toString (x : number) : string :=
  match x with
  | NaN => "NaN"
  | Infinity negative => if negative then "-Infinity" else "Infinity"
  | Finite m e =>
      if (m =? 0)%Z then "0"
      else
        let sign := if (m <? 0)%Z then "-" else "" in
        let s := decimalOfZ (Z.abs m) in
        let k := Z.of_nat (String.length s) in
        let n := (e + k)%Z in
        sign +:+
        (if (k <=? n)%Z && (n <=? 21)%Z then
           s +:+ zeros (Z.to_nat (n - k))
         else if (0 <? n)%Z && (n <=? 21)%Z then
           String.substring 0 (Z.to_nat n) s +:+ "." +:+
           JsString.sliceFrom s (Z.to_nat n)
         else if (-6 <? n)%Z && (n <=? 0)%Z then
           "0." +:+ zeros (Z.to_nat (- n)) +:+ s
         else
           let e' := (n - 1)%Z in
           let esign := if (e' <? 0)%Z then "-" else "+" in
           (if (k =? 1)%Z then s
            else String.substring 0 1 s +:+ "." +:+ JsString.sliceFrom s 1)
           +:+ "e" +:+ esign +:+ decimalOfZ (Z.abs e'))
  end.

End JsNumber.

(** ** JSON values and [JSON.parse] *)

Module Json.
Import JsNumber.

Inductive json :=
| JNull
| JBool (b : bool)
| JNumber (n : number)
| JString (s : string)
| JArray (items : list json)
| JObject (members : list (string * json)).

(** The outcome of a parsing function: a value and the text after it, a
    syntax error, or too few steps allowed ([parseValue_fuel] shows that
    [JSON_parse] allows enough). *)
Inductive parsed (A : Type) :=
| Parsed (a : A) (rest : string)
| SyntaxError
| OutOfFuel.
Arguments Parsed {A} a rest.
Arguments SyntaxError {A}.
Arguments OutOfFuel {A}.

Definition QUOTE : ascii := "034".

Definition isJsonSpace (c : ascii) : bool :=
  let n := nat_of_ascii c in
  (n =? 9) || (n =? 10) || (n =? 13) || (n =? 32).

Fixpoint skipWs (s : string) : string :=
  match s with
  | String c rest => if isJsonSpace c then skipWs rest else s
  | EmptyString => s
  end.

Definition hex4 (a b c d : ascii) : option Z :=
  match digitIn 16 a, digitIn 16 b, digitIn 16 c, digitIn 16 d with
  | Some x, Some y, Some z, Some w =>
      Some (((x * 16 + y) * 16 + z) * 16 + w)%Z
  | _, _, _, _ => None
  end.

(** The characters of a string literal after its opening quote.  An
    escape [\uXXXX] above [00FF] names a code unit outside the modelled
    alphabet and is not accepted. *)
Fixpoint stringBody (s : string) (acc : list ascii)
    : option (string * string) :=
  match s with
  | EmptyString => None
  | String c rest =>
      if Ascii.eqb c QUOTE then Some (JsString.revString acc, rest)
      else if Ascii.eqb c "\" then
        match rest with
        | String e rest' =>
            if Ascii.eqb e QUOTE then stringBody rest' (QUOTE :: acc)
            else if Ascii.eqb e "\" then stringBody rest' ("\"%char :: acc)
            else if Ascii.eqb e "/" then stringBody rest' ("/"%char :: acc)
            else if Ascii.eqb e "b" then stringBody rest' ("008"%char :: acc)
            else if Ascii.eqb e "f" then stringBody rest' ("012"%char :: acc)
            else if Ascii.eqb e "n" then stringBody rest' ("010"%char :: acc)
            else if Ascii.eqb e "r" then stringBody rest' ("013"%char :: acc)
            else if Ascii.eqb e "t" then stringBody rest' ("009"%char :: acc)
            else if Ascii.eqb e "u" then
              match rest' with
              | String h1 (String h2 (String h3 (String h4 rest''))) =>
                  match hex4 h1 h2 h3 h4 with
                  | Some code =>
                      if (code <? 256)%Z
                      then stringBody rest''
                             (ascii_of_nat (Z.to_nat code) :: acc)
                      else None
                  | None => None
                  end
              | _ => None
              end
            else None
        | EmptyString => None
        end
      else if nat_of_ascii c <? 32 then None
      else stringBody rest (c :: acc)
  end.

(** A number literal: an optional minus sign, the integer part ([0], or
    digits that do not start with [0]), an optional fraction (a point and
    digits) and an optional exponent ([e] or [E], a sign, digits). *)
Definition numberLiteral (s : string) : option (number * string) :=
  let '(negative, body) :=
    match s with
    | String "-" r => (true, r)
    | _ => (false, s)
    end in
  let int :=
    match body with
    | String "0" r => Some (0%Z, r)
    | _ => match digits body 0 0 with
           | (_, O, _) => None
           | (v, S _, r) => Some (v, r)
           end
    end in
  match int with
  | None => None
  | Some (int, rest) =>
      let frac :=
        match rest with
        | String "." r =>
            match digits r int 0 with
            | (_, O, _) => None
            | (v, S n, r') => Some (v, S n, r')
            end
        | _ => Some (int, O, rest)
        end in
      match frac with
      | None => None
      | Some (all, fracCount, rest) =>
          let exp :=
            match rest with
            | String c r =>
                if Ascii.eqb c "e" || Ascii.eqb c "E" then
                  let '(eneg, r) :=
                    match r with
                    | String "-" r' => (true, r')
                    | String "+" r' => (false, r')
                    | _ => (false, r)
                    end in
                  match digits r 0 0 with
                  | (_, O, _) => None
                  | (v, S _, r') => Some (if eneg then (- v)%Z else v, r')
                  end
                else Some (0%Z, rest)
            | EmptyString => Some (0%Z, rest)
            end in
          match exp with
          | None => None
          | Some (e, rest) =>
              Some (finite (if negative then (- all)%Z else all)
                      (e - Z.of_nat fracCount), rest)
          end
      end
  end.

Definition literal (word : string) (v : json) (s : string) : parsed json :=
  if String.prefix word s
  then Parsed v (JsString.sliceFrom s (String.length word))
  else SyntaxError.

Fixpoint parseValue (fuel : nat) (s : string) : parsed json :=
  match fuel with
  | O => OutOfFuel
  | S fuel' =>
      match skipWs s with
      | EmptyString => SyntaxError
      | String c rest =>
          if Ascii.eqb c "{" then
            match skipWs rest with
            | String "}" r => Parsed (JObject []) r
            | r => parseMembers fuel' r []
            end
          else if Ascii.eqb c "[" then
            match skipWs rest with
            | String "]" r => Parsed (JArray []) r
            | r => parseElements fuel' r []
            end
          else if Ascii.eqb c QUOTE then
            match stringBody rest [] with
            | Some (str, r) => Parsed (JString str) r
            | None => SyntaxError
            end
          else if Ascii.eqb c "t" then literal "true" (JBool true) (String c rest)
          else if Ascii.eqb c "f" then literal "false" (JBool false) (String c rest)
          else if Ascii.eqb c "n" then literal "null" JNull (String c rest)
          else
            match numberLiteral (String c rest) with
            | Some (n, r) => Parsed (JNumber n) r
            | None => SyntaxError
            end
      end
  end
with parseElements (fuel : nat) (s : string) (acc : list json)
    : parsed json :=
  match fuel with
  | O => OutOfFuel
  | S fuel' =>
      match parseValue fuel' s with
      | Parsed v r =>
          match skipWs r with
          | String "," r' => parseElements fuel' r' (acc ++ [v])
          | String "]" r' => Parsed (JArray (acc ++ [v])) r'
          | _ => SyntaxError
          end
      | SyntaxError => SyntaxError
      | OutOfFuel => OutOfFuel
      end
  end
with parseMembers (fuel : nat) (s : string) (acc : list (string * json))
    : parsed json :=
  match fuel with
  | O => OutOfFuel
  | S fuel' =>
      match skipWs s with
      | String c r =>
          if Ascii.eqb c QUOTE then
            match stringBody r [] with
            | Some (key, r1) =>
                match skipWs r1 with
                | String ":" r2 =>
                    match parseValue fuel' r2 with
                    | Parsed v r3 =>
                        match skipWs r3 with
                        | String "," r4 =>
                            parseMembers fuel' r4 (acc ++ [(key, v)])
                        | String "}" r4 =>
                            Parsed (JObject (acc ++ [(key, v)])) r4
                        | _ => SyntaxError
                        end
                    | SyntaxError => SyntaxError
                    | OutOfFuel => OutOfFuel
                    end
                | _ => SyntaxError
                end
            | None => SyntaxError
            end
          else SyntaxError
      | EmptyString => SyntaxError
      end
  end.

(** [JSON.parse(text)]; [None] is the [SyntaxError] it throws. *)
Definition JSON_parse (text : string) : option json :=
  match parseValue (2 * String.length text + 1) text with
  | Parsed v rest =>
      match skipWs rest with
      | EmptyString => Some v
      | String _ _ => None
      end
  | SyntaxError => None
  | OutOfFuel => None
  end.

(** *** Reading parsed values *)

(** The own member [name] of an object; a later duplicate wins. *)
Fixpoint getOwn (members : list (string * json)) (name : string)
    : option json :=
  match members with
  | [] => None
  | (k, v) :: rest =>
      match getOwn rest name with
      | Some v' => Some v'
      | None => if String.eqb k name then Some v else None
      end
  end.

(** [v.name] for the member names the server reads ([results], [line],
    [severity], [errorCode], [message], [found], [file], [col]), none of
    which a prototype defines.  The outer [None] is the [TypeError] of
    reading a member of [null]; the inner [None] is [undefined]. *)
Definition member (v : json) (name : string) : option (option json) :=
  match v with
  | JNull => None
  | JObject members => Some (getOwn members name)
  | _ => Some None
  end.

(** [v ?? d] for a member that was read. *)
Definition nullish (v : option json) (d : json) : json :=
  match v with
  | None | Some JNull => d
  | Some x => x
  end.

(** [Boolean(v)]. *)
Definition ToBoolean (v : option json) : bool :=
  match v with
  | None | Some JNull => false
  | Some (JBool b) => b
  | Some (JNumber NaN) => false
  | Some (JNumber (Finite m _)) => negb (m =? 0)%Z
  | Some (JNumber (Infinity _)) => true
  | Some (JString s) => negb (String.eqb s "")
  | Some (JArray _) | Some (JObject _) => true
  end.

Fixpoint joinStrings (sep : string) (l : list string) : string :=
  match l with
  | [] => ""
  | [x] => x
  | x :: rest => x +:+ sep +:+ joinStrings sep rest
  end.

(** [String(v)]; [None] is a [TypeError].  An array is joined with
    commas, its [null] elements reading as empty; an object reads
    ["[object Object]"] unless a member of its own hides [toString]. *)
Fixpoint ToString (v : json) : option string :=
  match v with
  | JNull => Some "null"
  | JBool true => Some "true"
  | JBool false => Some "false"
  | JNumber n => Some (toString n)
  | JString s => Some s
  | JArray items =>
      let fix elements (l : list json) : option (list string) :=
        match l with
        | [] => Some []
        | x :: l' =>
            match (match x with JNull => Some "" | _ => ToString x end),
                  elements l' with
            | Some sx, Some sl => Some (sx :: sl)
            | _, _ => None
            end
        end in
      option_map (joinStrings ",") (elements items)
  | JObject members =>
      match getOwn members "toString" with
      | Some _ => None
      | None => Some "[object Object]"
      end
  end.

(** [Number(v)]; [None] is a [TypeError]. *)
Definition ToNumber (v : json) : option number :=
  match v with
  | JNull => Some (Finite 0 0)
  | JBool true => Some (Finite 1 0)
  | JBool false => Some (Finite 0 0)
  | JNumber n => Some n
  | JString s => Some (StringToNumber s)
  | JArray _ | JObject _ => option_map StringToNumber (ToString v)
  end.

End Json.

(** ** The sentinel demultiplexer ([splitUmpleSyncOutput]) *)

Module Demux.
Import JsString.

Record Output := { stdout : string; stderr : string }.

Definition OPEN : string := "ERROR!!".
Definition CLOSE : string := "!!ERROR".

(** The [while (index < raw.length)] loop.  Every iteration that does not
    [break] moves [index] forward, so [String.length raw] iterations are
    always enough ([splitLoop_total]); [None] only means that the given
    number of iterations was too small. *)
Fixpoint splitLoop (fuel : nat) (raw : string) (index : nat)
    (out err : string) : option Output :=
  if negb (index <? String.length raw) then
    Some {| stdout := out; stderr := err |}
  else
    match fuel with
    | O => None
    | S fuel' =>
        match indexOf raw OPEN index with
        | None =>
            Some {| stdout := out +:+ sliceFrom raw index; stderr := err |}
        | Some start =>
            let out' := out +:+ slice raw index start in
            match indexOf raw CLOSE (start + 7) with
            | None =>
                Some {| stdout := out';
                        stderr := err +:+ sliceFrom raw (start + 7) |}
            | Some end_ =>
                splitLoop fuel' raw (end_ + 7) out'
                  (err +:+ slice raw (start + 7) end_)
            end
        end
    end.

Definition splitUmpleSyncOutput (raw : string) : Output :=
  match splitLoop (String.length raw) raw 0 "" "" with
  | Some o => o
  | None => {| stdout := ""; stderr := "" |}
  end.

(** The scan states the loop passes through on input [raw]: the initial
    state, and the state after every completed marker pair. *)
Inductive Scanned (raw : string) : nat -> string -> string -> Prop :=
| Scanned_start : Scanned raw 0 "" ""
| Scanned_pair index out err start end_ :
    Scanned raw index out err ->
    index < String.length raw ->
    indexOf raw OPEN index = Some start ->
    indexOf raw CLOSE (start + 7) = Some end_ ->
    Scanned raw (end_ + 7) (out +:+ slice raw index start)
      (err +:+ slice raw (start + 7) end_).

End Demux.

(** ** Text documents ([vscode-languageserver-textdocument]) *)

Module TextDocuments.

Record Position := { line : nat; character : nat }.
Record Range := { range_start : Position; range_end : Position }.

Record TextDocument := {
  uri : string;
  languageId : string;
  version : Z;
  content : string
}.

Definition LF : ascii := "010"%char.
Definition CR : ascii := "013"%char.

Definition isEOL (c : ascii) : bool := Ascii.eqb c LF || Ascii.eqb c CR.

(** [computeLineOffsets]: the offset of the first character of every
    line; a line ends at [\n], [\r] or [\r\n].  [i] is the offset of the
    first character of [text]. *)
Fixpoint lineOffsetsFrom (text : string) (i : nat) : list nat :=
  match text with
  | EmptyString => []
  | String ch rest =>
      if Ascii.eqb ch CR then
        match rest with
        | String ch' rest' =>
            if Ascii.eqb ch' LF
            then (i + 2) :: lineOffsetsFrom rest' (i + 2)
            else (i + 1) :: lineOffsetsFrom rest (i + 1)
        | EmptyString => [i + 1]
        end
      else if Ascii.eqb ch LF then (i + 1) :: lineOffsetsFrom rest (i + 1)
      else lineOffsetsFrom rest (i + 1)
  end.

Definition getLineOffsets (d : TextDocument) : list nat :=
  0 :: lineOffsetsFrom (content d) 0.

(** [ensureBeforeEOL]: step back over the line terminator. *)
Fixpoint ensureBeforeEOL (text : string) (lineOffset : nat) (n : nat)
    : nat :=
  match n with
  | O => lineOffset
  | S n' =>
      match String.get (lineOffset + n') text with
      | Some c => if isEOL c then ensureBeforeEOL text lineOffset n'
                  else lineOffset + n
      | None => lineOffset + n
      end
  end.

Definition offsetAt (d : TextDocument) (p : Position) : nat :=
  let lineOffsets := getLineOffsets d in
  match nth_error lineOffsets (line p) with
  | None => String.length (content d)
  | Some lineOffset =>
      if character p =? 0 then lineOffset
      else
        let nextLineOffset :=
          match nth_error lineOffsets (S (line p)) with
          | Some o => o
          | None => String.length (content d)
          end in
        let offset := Nat.min (lineOffset + character p) nextLineOffset in
        ensureBeforeEOL (content d) lineOffset (offset - lineOffset)
  end.

(** [document.getText()] and [document.getText(range)]. *)
Definition getText (d : TextDocument) : string := content d.

Definition getTextRange (d : TextDocument) (r : Range) : string :=
  let s := offsetAt d (range_start r) in
  let e := offsetAt d (range_end r) in
  String.substring (Nat.min s e) (Nat.max s e - Nat.min s e) (content d).

End TextDocuments.

(** ** The context scanner ([detectContext]) *)

Module Context.
Import TextDocuments.

Inductive CompletionContext :=
| Top | Class | Statemachine | Association | Enum | Unknown.

(** What the [stack] array holds: a value of [keywordContext], the string
    ["block"], or - because [word in keywordContext] and
    [keywordContext[lastKeyword]] also see the members that every object
    literal inherits - one of the members of [Object.prototype]. *)
Inductive StackEntry :=
| SContext (c : CompletionContext)
| SBlock
| SInherited (member : string).

Definition ownKeywordContext (word : string) : option CompletionContext :=
  if String.eqb word "class" then Some Class
  else if String.eqb word "trait" then Some Class
  else if String.eqb word "interface" then Some Class
  else if String.eqb word "association" then Some Association
  else if String.eqb word "associationClass" then Some Class
  else if String.eqb word "statemachine" then Some Statemachine
  else if String.eqb word "enum" then Some Enum
  else if String.eqb word "mixset" then Some Top
  else if String.eqb word "filter" then Some Top
  else None.

Definition objectPrototypeMembers : list string :=
  [ "constructor"; "hasOwnProperty"; "isPrototypeOf";
    "propertyIsEnumerable"; "toLocaleString"; "toString"; "valueOf";
    "__defineGetter__"; "__defineSetter__"; "__lookupGetter__";
    "__lookupSetter__"; "__proto__" ].

(** [keywordContext[word]]; [None] is [undefined]. *)
Definition keywordContext (word : string) : option StackEntry :=
  match ownKeywordContext word with
  | Some c => Some (SContext c)
  | None =>
      if existsb (String.eqb word) objectPrototypeMembers
      then Some (SInherited word)
      else None
  end.

(** [word in keywordContext]. *)
Definition inKeywordContext (word : string) : bool :=
  match keywordContext word with Some _ => true | None => false end.

Record Scan := {
  stack : list StackEntry;
  lastKeyword : option string;
  inLineComment : bool;
  inBlockComment : bool;
  inString : bool
}.

Definition initial : Scan :=
  {| stack := []; lastKeyword := None; inLineComment := false;
     inBlockComment := false; inString := false |}.

Definition between (lo hi : nat) (c : ascii) : bool :=
  (lo <=? nat_of_ascii c) && (nat_of_ascii c <=? hi).

(** [/[A-Za-z_]/] and [/[A-Za-z0-9_]/]. *)
Definition isWordStart (c : ascii) : bool :=
  between 65 90 c || between 97 122 c || Ascii.eqb c "_".
Definition isWordChar (c : ascii) : bool :=
  isWordStart c || between 48 57 c.

Definition withMode (st : Scan) (lineC blockC str : bool) : Scan :=
  {| stack := stack st; lastKeyword := lastKeyword st;
     inLineComment := lineC; inBlockComment := blockC; inString := str |}.

(** [if (word in keywordContext) lastKeyword = word]. *)
Definition afterWord (word : string) (st : Scan) : Scan :=
  if inKeywordContext word then
    {| stack := stack st; lastKeyword := Some word;
       inLineComment := inLineComment st;
       inBlockComment := inBlockComment st; inString := inString st |}
  else st.

(** The branch for an opening brace. *)
Definition openBrace (st : Scan) : Scan :=
  let entry :=
    match lastKeyword st with
    | Some k => match keywordContext k with
                | Some e => e
                | None => SBlock
                end
    | None => SBlock
    end in
  {| stack := stack st ++ [entry]; lastKeyword := None;
     inLineComment := inLineComment st;
     inBlockComment := inBlockComment st; inString := inString st |}.

(** The branch for a closing brace; [removelast] of the empty stack is the
    empty stack, as the guard [stack.length > 0] has it. *)
Definition closeBrace (st : Scan) : Scan :=
  {| stack := removelast (stack st); lastKeyword := None;
     inLineComment := inLineComment st;
     inBlockComment := inBlockComment st; inString := inString st |}.

Definition nextIs (next : option ascii) (c : ascii) : bool :=
  match next with Some n => Ascii.eqb n c | None => false end.

(** The scanning loop; [text] is what is left from [text[i]] on, so
    [next] is the head of [rest], and [i += 1; continue] resumes at
    [skip].  The inner [word] loop is the [while] that collects an
    identifier. *)
Fixpoint scan (text : string) (st : Scan) {struct text} : Scan :=
  match text with
  | EmptyString => st
  | String ch rest =>
      let next :=
        match rest with String c _ => Some c | EmptyString => None end in
      let skip :=
        match rest with String _ r => r | EmptyString => rest end in
      if inLineComment st then
        if Ascii.eqb ch LF then scan rest (withMode st false false false)
        else scan rest st
      else if inBlockComment st then
        if Ascii.eqb ch "*" && nextIs next "/"
        then scan skip (withMode st false false false)
        else scan rest st
      else if inString st then
        if Ascii.eqb ch "\" then scan skip st
        else if Ascii.eqb ch "034" then
          scan rest (withMode st false false false)
        else scan rest st
      else if Ascii.eqb ch "/" && nextIs next "/" then
        scan skip (withMode st true false false)
      else if Ascii.eqb ch "/" && nextIs next "*" then
        scan skip (withMode st false true false)
      else if Ascii.eqb ch "034" then
        scan rest (withMode st false false true)
      else if isWordStart ch then
        (fix word (acc : string) (l : string) {struct l} : Scan :=
           match l with
           | String c l' =>
               if isWordChar c then word (acc +:+ String c "") l'
               else scan l (afterWord acc st)
           | EmptyString => afterWord acc st
           end) (String ch "") rest
      else if Ascii.eqb ch "{" then scan rest (openBrace st)
      else if Ascii.eqb ch "}" then scan rest (closeBrace st)
      else scan rest st
  end.

(** The identifier loop of [scan] on its own: [acc] is the word so far
    and [l] the text from [text[j]] on ([scan_unfold]). *)
Definition wordLoop (st : Scan) : string -> string -> Scan :=
  fix word (acc : string) (l : string) {struct l} : Scan :=
    match l with
    | String c l' =>
        if isWordChar c then word (acc +:+ String c "") l'
        else scan l (afterWord acc st)
    | EmptyString => afterWord acc st
    end.

Definition isRecognised (c : CompletionContext) : bool :=
  match c with
  | Statemachine | Association | Class | Enum => true
  | Top | Unknown => false
  end.

(** [for (let i = stack.length - 1; i >= 0; i -= 1)]: [n] is [i + 1]. *)
Fixpoint innermost (stack : list StackEntry) (n : nat)
    : CompletionContext :=
  match n with
  | O => Top
  | S i =>
      match nth_error stack i with
      | Some (SContext c) =>
          if isRecognised c then c else innermost stack i
      | _ => innermost stack i
      end
  end.

(** The final [for] loop on the stack a scan leaves. *)
Definition classify (final : Scan) : CompletionContext :=
  innermost (stack final) (List.length (stack final)).

(** [text.slice(text.length - 20000)] when the text is longer. *)
Definition window (text : string) : string :=
  if (20000 <? Z.of_nat (String.length text))%Z
  then JsString.sliceFrom text (String.length text - Z.to_nat 20000)
  else text.

(** The scan of the text before the cursor. *)
Definition detectContextOfText (text : string) : CompletionContext :=
  classify (scan (window text) initial).





(** Not inside a comment or a string literal. *)
Definition inCode (st : Scan) : bool :=
  negb (inLineComment st || inBlockComment st || inString st).

Definition detectContext (document : TextDocument) (line character : nat)
    : CompletionContext :=
  let range :=
    {| range_start := {| TextDocuments.line := 0; TextDocuments.character := 0 |};
       range_end := {| TextDocuments.line := line;
                       TextDocuments.character := character |} |} in
  detectContextOfText (getTextRange document range).

End Context.

(** ** Protocol values sent back to the editor *)

Module Lsp.
Import JsNumber.

Inductive DiagnosticSeverity := Error | Warning | Information | Hint.

Record Position := { line : number; character : number }.
Record Range := { range_start : Position; range_end : Position }.

Record Diagnostic := {
  severity : DiagnosticSeverity;
  range : Range;
  message : string;
  source : string
}.

Record Location := { location_uri : string; location_range : Range }.

Definition Position_create (line character : number) : Position :=
  {| line := line; character := character |}.
Definition Range_create (s e : Position) : Range :=
  {| range_start := s; range_end := e |}.
Definition Location_create (uri : string) (r : Range) : Location :=
  {| location_uri := uri; location_range := r |}.

End Lsp.

(** ** From the compiler's error records to diagnostics
       ([parseUmpleJsonDiagnostics]) *)

Module Diagnostics.
Import JsString JsNumber Json Lsp.

(** [extractJson]: from the first opening to the last closing brace. *)
Definition extractJson (text : string) : option string :=
  match indexOf text "{" 0, lastIndexOfChar text "}" with
  | Some start, Some end_ =>
      if end_ <=? start then None else Some (slice text start (end_ + 1))
  | _, _ => None
  end.

(** [lines[lineNumber] ?? ""]. *)
Definition lineAt (lines : list string) (lineNumber : number) : string :=
  match asIndex lineNumber with
  | Some i => nth i lines ""
  | None => ""
  end.

(** [Number(result.line ?? "1") - 1], clamped at [0]. *)
Definition lineNumberOf (line : option json) : option number :=
  n ← ToNumber (nullish line (JString "1"));
  Some (Math_max (sub n (ofZ 1)) (ofZ 0)).

(** [Number(result.severity ?? "3")]. *)
Definition severityValueOf (severity : option json) : option number :=
  ToNumber (nullish severity (JString "3")).

Definition severityOf (severityValue : number) : DiagnosticSeverity :=
  if gt severityValue (ofZ 2) then Warning else Error.

(** One element of [details] as [filter(Boolean)] and [join] treat it:
    dropped when falsy, else converted to a string behind [prefix]. *)
Definition detailOf (prefix : string) (v : option json)
    : option (list string) :=
  if ToBoolean v
  then option_map (fun text => [prefix +:+ text]) (ToString (nullish v JNull))
  else Some [].

Definition detailsOf (severity : DiagnosticSeverity)
    (errorCode message : option json) : option (list string) :=
  match detailOf (match severity with Warning => "W" | _ => "E" end)
          errorCode,
        detailOf "" message with
  | Some code, Some msg => Some (code ++ msg)%list
  | _, _ => None
  end.

(** The callback of [parsed.results.map]; [None] is a [TypeError]. *)
Definition toDiagnostic (lines : list string) (result : json)
    : option Diagnostic :=
  line ← member result "line";
  lineNumber ← lineNumberOf line;
  let lineText := lineAt lines lineNumber in
  let startChar :=
    match searchNonSpace lineText with
    | Some firstNonSpace => firstNonSpace
    | None => 0
    end in
  sev ← member result "severity";
  severityValue ← severityValueOf sev;
  let severity := severityOf severityValue in
  errorCode ← member result "errorCode";
  message ← member result "message";
  details ← detailsOf severity errorCode message;
  Some {| severity := severity;
          range :=
            Range_create
              (Position_create lineNumber (ofNat startChar))
              (Position_create lineNumber (ofNat (String.length lineText)));
          message := joinStrings ": " details;
          source := "umple" |}.

Fixpoint mapResults (lines : list string) (results : list json)
    : option (list Diagnostic) :=
  match results with
  | [] => Some []
  | r :: rest =>
      d ← toDiagnostic lines r;
      ds ← mapResults lines rest;
      Some (d :: ds)
  end.

(** The [results] array the error stream carries: [None] where the
    function returns the empty list before it reaches [map]. *)
Definition resultsOf (stderr : string) : option (list json) :=
  match trim stderr with
  | EmptyString => None
  | trimmed =>
      jsonText ← extractJson trimmed;
      parsed ← JSON_parse jsonText;
      match member parsed "results" with
      | Some (Some (JArray results)) => Some results
      | _ => None
      end
  end.

Definition parseUmpleJsonDiagnostics (stderr : string)
    (document : TextDocuments.TextDocument) : list Diagnostic :=
  match resultsOf stderr with
  | None => []
  | Some results =>
      let lines := splitLines (TextDocuments.getText document) in
      match mapResults lines results with
      | Some diagnostics => diagnostics
      | None => []
      end
  end.

End Diagnostics.

(** ** Node's [path] module, POSIX flavour *)

Module Path.
Import JsString.

Definition SEP : ascii := "/".

(** The pieces of [p] between separators; [piece] collects the current
    one, most recent character first. *)
Fixpoint splitFrom (p : string) (piece : list ascii) : list string :=
  match p with
  | EmptyString => [revString piece]
  | String c rest =>
      if Ascii.eqb c SEP then revString piece :: splitFrom rest []
      else splitFrom rest (c :: piece)
  end.

Definition segments (p : string) : list string := splitFrom p [].

(** [normalizeString]: empty and ["."] segments go, [".."] removes the
    segment before it; [acc] is the result so far, last segment first. *)
Fixpoint normalizeSegments (allowAboveRoot : bool) (segs acc : list string)
    : list string :=
  match segs with
  | [] => rev acc
  | seg :: rest =>
      if String.eqb seg "" || String.eqb seg "." then
        normalizeSegments allowAboveRoot rest acc
      else if String.eqb seg ".." then
        match acc with
        | last :: acc' =>
            if String.eqb last ".."
            then normalizeSegments allowAboveRoot rest (seg :: acc)
            else normalizeSegments allowAboveRoot rest acc'
        | [] =>
            if allowAboveRoot
            then normalizeSegments allowAboveRoot rest [seg]
            else normalizeSegments allowAboveRoot rest []
        end
      else normalizeSegments allowAboveRoot rest (seg :: acc)
  end.

Definition joinSegments (segs : list string) : string :=
  Json.joinStrings "/" segs.

(** [path.isAbsolute(p)]. *)
Definition isAbsolute (p : string) : bool :=
  match p with
  | String c _ => Ascii.eqb c SEP
  | EmptyString => false
  end.

Definition endsWithSep (p : string) : bool :=
  match String.get (String.length p - 1) p with
  | Some c => Ascii.eqb c SEP
  | None => false
  end.

(** [path.normalize(p)]. *)
Definition normalize (p : string) : string :=
  match p with
  | EmptyString => "."
  | _ =>
      let body :=
        joinSegments (normalizeSegments (negb (isAbsolute p)) (segments p) [])
      in
      match body with
      | EmptyString =>
          if isAbsolute p then "/" else if endsWithSep p then "./" else "."
      | _ =>
          let body := if endsWithSep p then body +:+ "/" else body in
          if isAbsolute p then "/" +:+ body else body
      end
  end.

(** [path.join(a, b)]. *)
Definition join (a b : string) : string :=
  match a, b with
  | EmptyString, EmptyString => "."
  | EmptyString, _ => normalize b
  | _, EmptyString => normalize a
  | _, _ => normalize (a +:+ "/" +:+ b)
  end.

(** The segments of [path.resolve(p)], which is absolute: a relative [p]
    is taken from the working directory [cwd]. *)
Definition resolveSegments (cwd p : string) : list string :=
  normalizeSegments false
    (if isAbsolute p then segments p else segments cwd ++ segments p) [].

Definition resolve (cwd p : string) : string :=
  "/" +:+ joinSegments (resolveSegments cwd p).

Fixpoint stripCommon (from to : list string) : list string * list string :=
  match from, to with
  | f :: from', t :: to' =>
      if String.eqb f t then stripCommon from' to' else (from, to)
  | _, _ => (from, to)
  end.

(** [path.relative(from, to)]. *)
Definition relative (cwd from to : string) : string :=
  if String.eqb from to then ""
  else
    let '(up, down) :=
      stripCommon (resolveSegments cwd from) (resolveSegments cwd to) in
    joinSegments (map (fun _ => "..") up ++ down).

(** The characters of [p], last first, with the trailing separators
    removed. *)
Fixpoint dropSeps (r : list ascii) : list ascii :=
  match r with
  | c :: r' => if Ascii.eqb c SEP then dropSeps r' else r
  | [] => []
  end.

Fixpoint takeSegment (r : list ascii) : list ascii :=
  match r with
  | c :: r' => if Ascii.eqb c SEP then [] else c :: takeSegment r'
  | [] => []
  end.

Fixpoint dropSegment (r : list ascii) : list ascii :=
  match r with
  | c :: r' => if Ascii.eqb c SEP then r else dropSegment r'
  | [] => []
  end.

Definition reversed (p : string) : list ascii :=
  rev (list_ascii_of_string p).

(** [path.basename(p)]. *)
Definition basename (p : string) : string :=
  revString (takeSegment (dropSeps (reversed p))).

(** [path.dirname(p)]: the text before the separator that precedes the
    last segment; the first character of [p] is never that separator. *)
Definition dirname (p : string) : string :=
  match p with
  | EmptyString => "."
  | String first rest =>
      match dropSegment (dropSeps (reversed rest)) with
      | _ :: [] => if Ascii.eqb first SEP then "//" else String first ""
      | _ :: before => String first (revString before)
      | [] => if Ascii.eqb first SEP then "/" else "."
      end
  end.

(** [path.delimiter]. *)
Definition delimiter : string := ":".

(** [s.startsWith("..")]. *)
Definition startsWithDotDot (s : string) : bool := String.prefix ".." s.

End Path.

(** ** The platform: what the server calls and what answers it *)

Module Platform.
Import Demux Lsp.

(** A thrown [Error]; [code] is the system error code, if any. *)
Record JsError := { code : option string; error_message : string }.

(** [String(error)]. *)
Definition errorToString (e : JsError) : string :=
  "Error: " +:+ error_message e.

Inductive Outcome (A : Type) :=
| Returned (a : A)
| Thrown (e : JsError).
Arguments Returned {A} a.
Arguments Thrown {A} e.

(** How one socket exchange with the UmpleSync service ends: the stream
    closes after sending [raw], an [error] event arrives, or the idle
    time-out passes. *)
Inductive SocketResult :=
| SocketEnd (raw : string)
| SocketError (e : JsError)
| SocketTimeout.

(** A directory entry as [readdir(dir, { withFileTypes: true })] lists it;
    a directory carries what listing it will answer in turn. *)
Inductive Dirent :=
| DirentFile (name : string)
| DirentOther (name : string)
| DirentDirectory (name : string) (listing : Listing)
with Listing :=
| Listed (entries : list Dirent)
| Unreadable (e : JsError).

(** Calls into the file system that answer nothing or throw. *)
Inductive FsOp :=
| Mkdir (path : string)
| Symlink (target path : string)
| CopyFile (src dest : string)
| Rm (path : string) (recursive : bool)
| WriteFile (path text : string).

(** Everything the server does to the outside, in the order it happens. *)
Inductive Event :=
| SendDiagnostics (uri : string) (diagnostics : list Diagnostic)
| ConsoleInfo (text : string)
| ConsoleWarn (text : string)
| ConsoleError (text : string)
| ShowWarningMessage (text : string)
| Connect (host : string) (port : Z) (commandLine : string)
| Spawn (command : string) (args : list string)
| Delay (ms : nat)
| ExecFile (command : string) (args : list string)
| ExistsSync (path : string)
| Mkdtemp (prefix : string)
| Readdir (dir : string)
| Fs (op : FsOp)
| SetTimeout (handle : nat) (uri : string) (ms : nat)
| ClearTimeout (handle : nat)
| TimerFired (handle : nat) (uri : string)
| UnhandledRejection (e : JsError).

(** The answers of the outside world.  A call is answered by its position
    in the sequence of events ([now]); a socket exchange by the number of
    exchanges before it. *)
Record Env := {
  socket : nat -> string -> SocketResult;
  execFile : nat -> list string -> Outcome string;
  existsSync : nat -> string -> bool;
  mkdtemp : nat -> string -> Outcome string;
  readdir : nat -> string -> Listing;
  fs : nat -> FsOp -> option JsError;
  tmpdir : string;
  cwd : string;
  pid : Z;
  dateNow : nat -> Z;
  fileURLToPath : string -> option string;
  pathToFileURL : string -> string
}.

End Platform.

(** ** The server's global variables and its monad *)

Module ServerState.
Import TextDocuments Platform.

Inductive CompletionItemKind :=
| KindClass | KindField | KindEnumMember | KindEvent | KindProperty
| KindKeyword.

Record CompletionItem := {
  label : string;
  kind : CompletionItemKind;
  detail : option string
}.

Record CacheEntry := {
  cache_version : Z;
  cache_items : list CompletionItem
}.

(** A JavaScript [Map] with string keys, in insertion order. *)
Definition JsMap (V : Type) : Type := list (string * V).

Fixpoint map_get {V} (m : JsMap V) (k : string) : option V :=
  match m with
  | [] => None
  | (k', v) :: rest => if String.eqb k' k then Some v else map_get rest k
  end.

(** [m.set(k, v)]: a present key keeps its place. *)
Fixpoint map_set {V} (m : JsMap V) (k : string) (v : V) : JsMap V :=
  match m with
  | [] => [(k, v)]
  | (k', v') :: rest =>
      if String.eqb k' k then (k, v) :: rest
      else (k', v') :: map_set rest k v
  end.

Fixpoint map_delete {V} (m : JsMap V) (k : string) : JsMap V :=
  match m with
  | [] => []
  | (k', v') :: rest =>
      if String.eqb k' k then rest else (k', v') :: map_delete rest k
  end.

Definition map_values {V} (m : JsMap V) : list V := map snd m.

(** What [onInitialize] fixes for the lifetime of the server. *)
Record Config := {
  workspaceRoots : list string;
  umpleSyncJarPath : option string;
  umpleSyncHost : string;
  umpleSyncPort : Z;
  umpleJarPath : option string;
  umpleGoToDefClasspath : option string
}.

(** The module-level variables of [server.ts], the timers the runtime
    holds for it ([timers]: handle to the document its callback closes
    over) and the events so far. *)
Record State := {
  config : Config;
  documents : JsMap TextDocument;
  pendingValidations : gmap string nat;
  modelCache : gmap string CacheEntry;
  jarWarningShown : bool;
  serverProcess : option nat;
  timers : gmap nat TextDocument;
  nextTimer : nat;
  trace : list Event
}.

Definition initialState (c : Config) : State :=
  {| config := c; documents := []; pendingValidations := ∅;
     modelCache := ∅; jarWarningShown := false; serverProcess := None;
     timers := ∅; nextTimer := 0; trace := [] |}.

Definition set_documents (d : JsMap TextDocument) (s : State) : State :=
  {| config := config s; documents := d;
     pendingValidations := pendingValidations s; modelCache := modelCache s;
     jarWarningShown := jarWarningShown s; serverProcess := serverProcess s;
     timers := timers s; nextTimer := nextTimer s; trace := trace s |}.

Definition set_pendingValidations (p : gmap string nat) (s : State) : State :=
  {| config := config s; documents := documents s;
     pendingValidations := p; modelCache := modelCache s;
     jarWarningShown := jarWarningShown s; serverProcess := serverProcess s;
     timers := timers s; nextTimer := nextTimer s; trace := trace s |}.

Definition set_modelCache (c : gmap string CacheEntry) (s : State) : State :=
  {| config := config s; documents := documents s;
     pendingValidations := pendingValidations s; modelCache := c;
     jarWarningShown := jarWarningShown s; serverProcess := serverProcess s;
     timers := timers s; nextTimer := nextTimer s; trace := trace s |}.

Definition set_jarWarningShown (b : bool) (s : State) : State :=
  {| config := config s; documents := documents s;
     pendingValidations := pendingValidations s; modelCache := modelCache s;
     jarWarningShown := b; serverProcess := serverProcess s;
     timers := timers s; nextTimer := nextTimer s; trace := trace s |}.

Definition set_serverProcess (p : option nat) (s : State) : State :=
  {| config := config s; documents := documents s;
     pendingValidations := pendingValidations s; modelCache := modelCache s;
     jarWarningShown := jarWarningShown s; serverProcess := p;
     timers := timers s; nextTimer := nextTimer s; trace := trace s |}.

Definition set_timers (t : gmap nat TextDocument) (n : nat) (s : State)
    : State :=
  {| config := config s; documents := documents s;
     pendingValidations := pendingValidations s; modelCache := modelCache s;
     jarWarningShown := jarWarningShown s; serverProcess := serverProcess s;
     timers := t; nextTimer := n; trace := trace s |}.

Definition set_trace (t : list Event) (s : State) : State :=
  {| config := config s; documents := documents s;
     pendingValidations := pendingValidations s; modelCache := modelCache s;
     jarWarningShown := jarWarningShown s; serverProcess := serverProcess s;
     timers := timers s; nextTimer := nextTimer s; trace := t |}.

(** The position of the next event. *)
Definition now (s : State) : nat := List.length (trace s).

Definition record (e : Event) (s : State) : State :=
  set_trace (trace s ++ [e]) s.

(** A computation of the server: it returns or throws, and changes the
    state. *)
Definition M (A : Type) : Type := State -> Outcome A * State.

Definition ret {A} (a : A) : M A := fun s => (Returned a, s).
Definition throw {A} (e : JsError) : M A := fun s => (Thrown e, s).

Definition bind {A B} (m : M A) (k : A -> M B) : M B :=
  fun s =>
    match m s with
    | (Returned a, s') => k a s'
    | (Thrown e, s') => (Thrown e, s')
    end.

(** [try { m } catch (e) { handler e }]. *)
Definition tryCatch {A} (m : M A) (handler : JsError -> M A) : M A :=
  fun s =>
    match m s with
    | (Returned a, s') => (Returned a, s')
    | (Thrown e, s') => handler e s'
    end.

(** [try { m } finally { final }]. *)
Definition tryFinally {A} (m : M A) (final : M unit) : M A :=
  fun s =>
    match m s with
    | (r, s') =>
        match final s' with
        | (Returned _, s'') => (r, s'')
        | (Thrown e, s'') => (Thrown e, s'')
        end
    end.

Definition emit (e : Event) : M unit := fun s => (Returned tt, record e s).
Definition get : M State := fun s => (Returned s, s).
Definition modify (f : State -> State) : M unit :=
  fun s => (Returned tt, f s).

Declare Scope server_scope.
Delimit Scope server_scope with server.
Notation "'let*' x ':=' m 'in' k" := (bind m (fun x => k))
  (at level 10, x name, m at level 100, k at level 200) : server_scope.
Notation "m '>>' k" := (bind m (fun _ => k))
  (at level 100, k at level 200, right associativity) : server_scope.

End ServerState.

(** ** The handlers of [server.ts] *)

Module Server.
Import JsString JsNumber Json Demux Diagnostics Platform ServerState.
Import TextDocuments.

Local Open Scope server_scope.

Section Handlers.

Variable env : Env.

(** [buildModelCompletions], from the compiler's model to completion
    items, is not unfolded here: no property below depends on which items
    a model yields. *)
Variable buildModelCompletions : json -> list CompletionItem.

(** *** Calls to the platform *)

Definition callFs (op : FsOp) : M unit :=
  fun s =>
    match fs env (now s) op with
    | None => (Returned tt, record (Fs op) s)
    | Some e => (Thrown e, record (Fs op) s)
    end.

Definition callExistsSync (path : string) : M bool :=
  fun s => (Returned (existsSync env (now s) path), record (ExistsSync path) s).

Definition callMkdtemp (prefix : string) : M string :=
  fun s => (mkdtemp env (now s) prefix, record (Mkdtemp prefix) s).

Definition callExecFile (command : string) (args : list string) : M string :=
  fun s => (execFile env (now s) args, record (ExecFile command args) s).

(** [delay(ms)]. *)
Definition delay (ms : nat) : M unit := emit (Delay ms).

(** The socket exchanges so far. *)
Definition isConnect (e : Event) : bool :=
  match e with Connect _ _ _ => true | _ => false end.

Definition exchanges (s : State) : nat :=
  List.length (List.filter isConnect (trace s)).

(** *** The bridge to the UmpleSync service *)

(** [connectAndSend]: one exchange on a fresh socket.  The promise
    resolves with the demultiplexed output when the stream ends, and
    rejects with the error of an [error] event; the idle time-out destroys
    the socket with an error that has no code. *)
Definition connectAndSend (commandLine : string) : M Output :=
  fun s =>
    let s' :=
      record (Connect (umpleSyncHost (config s)) (umpleSyncPort (config s))
                commandLine) s in
    match socket env (exchanges s) commandLine with
    | SocketEnd raw => (Returned (splitUmpleSyncOutput raw), s')
    | SocketError e => (Thrown e, s')
    | SocketTimeout =>
        (Thrown {| code := None;
                   error_message := "umplesync socket timeout" |}, s')
    end.

Definition isConnectionError (error : JsError) : bool :=
  match code error with
  | Some c =>
      String.eqb c "ECONNREFUSED" || String.eqb c "ECONNRESET"
      || String.eqb c "EPIPE"
  | None => false
  end.

(** [startUmpleSyncServer]: the promise is resolved with [true] right after
    [spawn] returns, whatever becomes of the child later. *)
Definition startUmpleSyncServer (jarPath : string) : M bool :=
  fun s =>
    match serverProcess s with
    | Some _ => (Returned true, s)
    | None =>
        let s' :=
          record (Spawn "java"
                    ["-jar"; jarPath; "-server";
                     decimalOfZ (umpleSyncPort (config s))]) s in
        (Returned true, set_serverProcess (Some (now s)) s')
    end.

(** The [for (let attempt = 0; attempt < 5; attempt += 1)] loop, with
    [attempts] iterations to go. *)
Fixpoint retry (attempts : nat) (commandLine : string) (error : JsError)
    : M Output :=
  match attempts with
  | O => throw error
  | S attempts' =>
      tryCatch (connectAndSend commandLine)
        (fun retryError =>
           if isConnectionError retryError
           then delay 150 >> retry attempts' commandLine error
           else throw retryError)
  end.

Definition sendUmpleSyncCommand (jarPath commandLine : string) : M Output :=
  tryCatch (connectAndSend commandLine)
    (fun error =>
       if isConnectionError error then
         let* started := startUmpleSyncServer jarPath in
         if started then retry 5 commandLine error else throw error
       else throw error).

(** *** Temporary files *)

(** A path as a condition: [null] and the empty string are falsy. *)
Definition truthyPath (p : option string) : option string :=
  match p with
  | Some EmptyString => None
  | _ => p
  end.

Definition getDocumentFilePath (document : TextDocument) : option string :=
  if String.prefix "file:" (uri document)
  then fileURLToPath env (uri document)
  else None.

Definition getDocumentDirectory (document : TextDocument) : option string :=
  match truthyPath (getDocumentFilePath document) with
  | Some docPath => Some (Path.dirname docPath)
  | None => None
  end.

(** A temporary file or directory and the [rm] call that is its
    [cleanup]. *)
Record TempFile := { filePath : string; cleanupOp : FsOp }.

Definition cleanup (t : TempFile) : M unit := callFs (cleanupOp t).

Definition writeTempUmpleFile (document : TextDocument) (label : string)
    : M TempFile :=
  match getDocumentDirectory document with
  | Some baseDir =>
      fun s =>
        let filePath :=
          Path.join baseDir
            (".umple-lsp-" +:+ label +:+ "-" +:+ decimalOfZ (pid env) +:+ "-"
             +:+ decimalOfZ (dateNow env (now s)) +:+ ".ump") in
        (Returned {| filePath := filePath; cleanupOp := Rm filePath false |},
         s)
  | None =>
      let* tempDir :=
        callMkdtemp (Path.join (tmpdir env) ("umple-lsp-" +:+ label +:+ "-")) in
      ret {| filePath := Path.join tempDir "document.ump";
             cleanupOp := Rm tempDir true |}
  end.

Definition endsWith (s suffix : string) : bool :=
  String.eqb (sliceFrom s (String.length s - String.length suffix)) suffix
  && (String.length suffix <=? String.length s).

(** The text as it is written to disk: it ends with two line feeds. *)
Definition normalizedText (document : TextDocument) : string :=
  let text := getText document in
  if endsWith text (NL +:+ NL) then text
  else if endsWith text NL then text +:+ NL
  else text +:+ NL +:+ NL.

(** *** Validation *)

Definition resolveJarPath : M (option string) :=
  let* s := get in
  let warnOnce (text : string) : M (option string) :=
    (if jarWarningShown s then ret tt
     else emit (ShowWarningMessage text)
          >> modify (set_jarWarningShown true))
    >> ret None in
  match truthyPath (umpleSyncJarPath (config s)) with
  | None =>
      warnOnce "UmpleSync jar path not set. Configure initializationOptions.umpleSyncJarPath or UMPLESYNC_JAR."
  | Some path =>
      let* found := callExistsSync path in
      if found then ret (Some path)
      else warnOnce ("UmpleSync jar not found at " +:+ path
                     +:+ ". Update the path or UMPLESYNC_JAR.")
  end.

Definition includes (s part : string) : bool :=
  match indexOf s part 0 with Some _ => true | None => false end.

Definition parseUmpleDiagnostics (stderr stdout : string)
    (document : TextDocument) : M (list Lsp.Diagnostic) :=
  let jsonDiagnostics := parseUmpleJsonDiagnostics stderr document in
  (match jsonDiagnostics with
   | [] => if includes stdout "Success"
           then emit (ConsoleInfo "Umple compile succeeded.")
           else ret tt
   | _ => ret tt
   end) >> ret jsonDiagnostics.

Definition runUmpleSyncAndParseDiagnostics (jarPath : string)
    (document : TextDocument) : M (list Lsp.Diagnostic) :=
  let* tempFileInfo := writeTempUmpleFile document "diag" in
  let tempFile := filePath tempFileInfo in
  callFs (WriteFile tempFile (normalizedText document)) >>
  tryFinally
    (let* out :=
       sendUmpleSyncCommand jarPath ("-generate nothing " +:+ tempFile) in
     parseUmpleDiagnostics (stderr out) (stdout out) document)
    (cleanup tempFileInfo).

Definition validateTextDocument (document : TextDocument) : M unit :=
  let* jarPath := resolveJarPath in
  match jarPath with
  | None => ret tt
  | Some jarPath =>
      let* diagnostics := runUmpleSyncAndParseDiagnostics jarPath document in
      emit (SendDiagnostics (uri document) diagnostics)
  end.

(** *** Debouncing *)

Definition clearTimeout (handle : nat) : M unit :=
  modify (fun s => set_timers (delete handle (timers s)) (nextTimer s) s)
  >> emit (ClearTimeout handle).

(** [setTimeout(callback, ms)] for the validation callback of [document]. *)
Definition setTimeout (document : TextDocument) (ms : nat) : M nat :=
  let* s := get in
  let handle := nextTimer s in
  modify (set_timers (<[handle := document]> (timers s)) (S handle))
  >> emit (SetTimeout handle (uri document) ms)
  >> ret handle.

Definition scheduleValidation (document : TextDocument) : M unit :=
  let* s := get in
  (match pendingValidations s !! uri document with
   | Some existing => clearTimeout existing
   | None => ret tt
   end) >>
  let* handle := setTimeout document 300 in
  modify (fun s =>
            set_pendingValidations
              (<[uri document := handle]> (pendingValidations s)) s).

(** The callback of the timer, called by the runtime when [handle] is
    due.  [void validateTextDocument(document)] drops the promise: when
    it rejects, nothing handles the rejection. *)
Definition timerFires (handle : nat) : M unit :=
  let* s := get in
  match timers s !! handle with
  | None => ret tt
  | Some document =>
      modify (fun s => set_timers (delete handle (timers s)) (nextTimer s) s)
      >> emit (TimerFired handle (uri document))
      >> modify (fun s =>
                   set_pendingValidations
                     (delete (uri document) (pendingValidations s)) s)
      >> tryCatch (validateTextDocument document)
           (fun e => emit (UnhandledRejection e))
  end.

(** *** The model cache *)

Definition syntaxError : JsError :=
  {| code := None; error_message := "SyntaxError: invalid JSON" |}.

Definition typeError : JsError :=
  {| code := None; error_message := "TypeError" |}.

(** [generateModelJson]; [None] is [null]. *)
Definition generateModelJson (document : TextDocument) : M (option json) :=
  let* jarPath := resolveJarPath in
  match jarPath with
  | None => ret None
  | Some jarPath =>
      let* tempFileInfo := writeTempUmpleFile document "model" in
      let tempFile := filePath tempFileInfo in
      callFs (WriteFile tempFile (normalizedText document)) >>
      tryFinally
        (let* out :=
           sendUmpleSyncCommand jarPath ("-generate JsonMixed " +:+ tempFile)
         in
         match extractJson (stdout out) with
         | None => ret None
         | Some jsonText =>
             match JSON_parse jsonText with
             | Some v => ret (Some v)
             | None => throw syntaxError
             end
         end)
        (cleanup tempFileInfo)
  end.

(** [if (modelJson)]: what [JSON.parse] returned, as a condition. *)
Definition truthyJson (v : option json) : option json :=
  match v with
  | Some x => if ToBoolean (Some x) then Some x else None
  | None => None
  end.

(** [cached && cached.version === document.version]. *)
Definition cachedItems (s : State) (document : TextDocument)
    : option (list CompletionItem) :=
  match modelCache s !! uri document with
  | Some cached =>
      if (cache_version cached =? version document)%Z
      then Some (cache_items cached)
      else None
  | None => None
  end.

(** [getModelCompletions] after a miss: build the items, logging a
    failure and falling back to none, and store them under the version of
    the document. *)
Definition rebuildModelCompletions (document : TextDocument)
    : M (list CompletionItem) :=
  let* items :=
    tryCatch
      (let* modelJson := generateModelJson document in
       match truthyJson modelJson with
       | Some m => ret (buildModelCompletions m)
       | None => ret []
       end)
      (fun error =>
         emit (ConsoleWarn ("Failed to build model completions: "
                            +:+ errorToString error))
         >> ret []) in
  modify (fun s =>
            set_modelCache
              (<[uri document :=
                   {| cache_version := version document;
                      cache_items := items |}]> (modelCache s)) s)
  >> ret items.

Definition getModelCompletions (document : TextDocument)
    : M (list CompletionItem) :=
  let* s := get in
  match cachedItems s document with
  | Some items => ret items
  | None => rebuildModelCompletions document
  end.

(** The part of the completion handler that consults the model:
    [documents.get(uri)], then [await getModelCompletions(document)].  The
    keyword and class-name items that the handler merges with the result
    do not touch the state. *)
Definition onCompletion_modelItems (uri : string)
    : M (option (list CompletionItem)) :=
  let* s := get in
  match map_get (documents s) uri with
  | None => ret None
  | Some document =>
      let* modelItems := getModelCompletions document in
      ret (Some modelItems)
  end.

(** *** The shadow workspace *)

Record ShadowWorkspace := {
  shadow_filePath : string;
  shadowRoot : string;
  workspaceRoot : string
}.

(** The [cleanup] of a shadow workspace: [rm(shadowRoot, { recursive:
    true, force: true })]. *)
Definition shadowCleanup (w : ShadowWorkspace) : M unit :=
  callFs (Rm (shadowRoot w) true).

Definition isPathInside (filePath root : string) : bool :=
  let relative := Path.relative (cwd env) root filePath in
  negb (Path.startsWithDotDot relative) && negb (Path.isAbsolute relative).

Fixpoint getWorkspaceRootForPath (roots : list string) (filePath : string)
    : option string :=
  match roots with
  | [] => None
  | root :: rest =>
      if isPathInside filePath root then Some root
      else getWorkspaceRootForPath rest filePath
  end.

Definition SKIP_DIRS : list string :=
  [".git"; "node_modules"; "out"; "dist"; "build"; ".vscode"; ".idea"].

(** The callback of [mirrorWorkspaceUmpleFiles] for one file. *)
Definition mirrorFile (workspaceRoot shadowRoot filePath : string) : M unit :=
  let relative := Path.relative (cwd env) workspaceRoot filePath in
  let target := Path.join shadowRoot relative in
  callFs (Mkdir (Path.dirname target)) >>
  tryCatch (callFs (Symlink filePath target))
    (fun error =>
       match code error with
       | Some c =>
           if String.eqb c "EEXIST" then ret tt
           else if String.eqb c "EPERM" || String.eqb c "EACCES"
           then callFs (CopyFile filePath target)
           else throw error
       | None => throw error
       end).

(** [walkUmpleFiles] below a directory whose listing is known; the
    listing of a sub-directory is asked for ([Readdir]) when the walk
    enters it. *)
Fixpoint walkListing (dir : string) (listing : Listing)
    (onFile : string -> M unit) {struct listing} : M unit :=
  match listing with
  | Unreadable e => throw e
  | Listed entries =>
      (fix each (entries : list Dirent) : M unit :=
         match entries with
         | [] => ret tt
         | DirentDirectory name sub :: rest =>
             if existsb (String.eqb name) SKIP_DIRS then each rest
             else
               emit (Readdir (Path.join dir name))
               >> walkListing (Path.join dir name) sub onFile
               >> each rest
         | DirentFile name :: rest =>
             if endsWith name ".ump"
             then onFile (Path.join dir name) >> each rest
             else each rest
         | DirentOther _ :: rest => each rest
         end) entries
  end.

Definition walkUmpleFiles (dir : string) (onFile : string -> M unit)
    : M unit :=
  let* s := get in
  emit (Readdir dir) >> walkListing dir (readdir env (now s) dir) onFile.

Definition mirrorWorkspaceUmpleFiles (workspaceRoot shadowRoot : string)
    : M unit :=
  walkUmpleFiles workspaceRoot (mirrorFile workspaceRoot shadowRoot).

(** The body of the loop of [overlayOpenDocuments] for one document. *)
Definition overlayDocument (workspaceRoot shadowRoot : string)
    (doc : TextDocument) : M unit :=
  match truthyPath (getDocumentFilePath doc) with
  | None => ret tt
  | Some docPath =>
      if isPathInside docPath workspaceRoot then
        let relative := Path.relative (cwd env) workspaceRoot docPath in
        let target := Path.join shadowRoot relative in
        callFs (Mkdir (Path.dirname target)) >>
        callFs (Rm target false) >>
        callFs (WriteFile target (normalizedText doc))
      else ret tt
  end.

Fixpoint forEach {A} (l : list A) (body : A -> M unit) : M unit :=
  match l with
  | [] => ret tt
  | x :: rest => body x >> forEach rest body
  end.

Definition overlayOpenDocuments (workspaceRoot shadowRoot : string)
    : M unit :=
  let* s := get in
  forEach (map_values (documents s)) (overlayDocument workspaceRoot shadowRoot).

(** [createShadowWorkspace]; [None] is [null]. *)
Definition createShadowWorkspace (document : TextDocument) (label : string)
    : M (option ShadowWorkspace) :=
  let* s := get in
  match truthyPath (getDocumentFilePath document) with
  | None => ret None
  | Some docPath =>
      match truthyPath
              (getWorkspaceRootForPath (workspaceRoots (config s)) docPath)
      with
      | None => ret None
      | Some workspaceRoot =>
          let* shadowRoot :=
            callMkdtemp
              (Path.join (tmpdir env) ("umple-shadow-" +:+ label +:+ "-")) in
          mirrorWorkspaceUmpleFiles workspaceRoot shadowRoot >>
          overlayOpenDocuments workspaceRoot shadowRoot >>
          let relative := Path.relative (cwd env) workspaceRoot docPath in
          ret (Some {| shadow_filePath := Path.join shadowRoot relative;
                       shadowRoot := shadowRoot;
                       workspaceRoot := workspaceRoot |})
      end
  end.

(** *** Go to definition *)

Definition resolveGoToDefSettings : M (option (string * string)) :=
  let* s := get in
  match truthyPath (umpleJarPath (config s)) with
  | None =>
      emit (ShowWarningMessage
              "Umple jar path not set. Configure initializationOptions.umpleJarPath.")
      >> ret None
  | Some jarPath =>
      match truthyPath (umpleGoToDefClasspath (config s)) with
      | None =>
          emit (ShowWarningMessage
                  "Go-to-definition classpath not set. Configure initializationOptions.umpleGoToDefClasspath.")
          >> ret None
      | Some classpath =>
          let* jarFound := callExistsSync jarPath in
          if jarFound then
            let* classpathFound := callExistsSync classpath in
            if classpathFound then ret (Some (jarPath, classpath))
            else
              emit (ShowWarningMessage
                      ("Go-to-definition classpath not found at "
                       +:+ classpath +:+ "."))
              >> ret None
          else
            emit (ShowWarningMessage
                    ("Umple jar not found at " +:+ jarPath +:+ "."))
            >> ret None
      end
  end.

(** [parseGoToDefOutput]: the parsed object when its [found] member is a
    boolean, else [null]. *)
Definition parseGoToDefOutput (stdout : string) : option json :=
  match trim stdout with
  | EmptyString => None
  | trimmed =>
      match JSON_parse trimmed with
      | Some parsed =>
          match member parsed "found" with
          | Some (Some (JBool _)) => Some parsed
          | _ => None
          end
      | None => None
      end
  end.

(** [def.file?.trim()]: the outer [None] is the [TypeError] of calling
    [trim] on a value that is not a string. *)
Definition rawFileOf (def : json) : option (option string) :=
  match member def "file" with
  | Some None | Some (Some JNull) => Some None
  | Some (Some (JString file)) => Some (Some (trim file))
  | _ => None
  end.

Definition nonEmpty (s : option string) : option string := truthyPath s.

(** [resolveDefinitionUri]; [rawFile] is [def.file?.trim()], and the
    optional roots are those of the shadow workspace. *)
Definition resolveDefinitionUri (rawFile : option string)
    (document : TextDocument) (tempFile : string)
    (shadowRoot workspaceRoot : option string) : string :=
  let docPath := getDocumentFilePath document in
  let docDir := option_map Path.dirname (truthyPath docPath) in
  let resolvedPath :=
    match nonEmpty rawFile with
    | None => docPath
    | Some rawFile =>
        if Path.isAbsolute rawFile then Some rawFile
        else
          match nonEmpty docDir with
          | Some docDir => Some (Path.join docDir rawFile)
          | None => Some rawFile
          end
    end in
  match nonEmpty resolvedPath with
  | None => uri document
  | Some resolvedPath =>
      if String.eqb resolvedPath tempFile
         || String.eqb (Path.basename resolvedPath) (Path.basename tempFile)
      then uri document
      else if match nonEmpty docPath with
              | Some docPath => String.eqb resolvedPath docPath
              | None => false
              end
      then uri document
      else
        match nonEmpty shadowRoot, nonEmpty workspaceRoot with
        | Some shadowRoot, Some workspaceRoot =>
            let relative := Path.relative (cwd env) shadowRoot resolvedPath in
            if negb (Path.startsWithDotDot relative)
               && negb (Path.isAbsolute relative)
            then pathToFileURL env (Path.join workspaceRoot relative)
            else pathToFileURL env resolvedPath
        | _, _ => pathToFileURL env resolvedPath
        end
  end.

(** [Math.max((v ?? 1) - 1, 0)]; [None] is a [TypeError]. *)
Definition zeroBased (v : option json) : option number :=
  match ToNumber (nullish v (JNumber (Finite 1 0))) with
  | Some n => Some (Math_max (sub n (Finite 1 0)) (Finite 0 0))
  | None => None
  end.

(** The part of the handler between [parseGoToDefOutput] and [return];
    [None] is a [TypeError]. *)
Definition locationsOf (stdout : string) (document : TextDocument)
    (tempFile : string) (shadowInfo : option ShadowWorkspace)
    : option (list Lsp.Location) :=
  match parseGoToDefOutput stdout with
  | None => Some []
  | Some def =>
      match member def "found" with
      | Some (Some (JBool true)) =>
          match rawFileOf def, member def "line", member def "col" with
          | Some rawFile, Some line, Some col =>
              let uri :=
                resolveDefinitionUri rawFile document tempFile
                  (option_map shadowRoot shadowInfo)
                  (option_map workspaceRoot shadowInfo) in
              match zeroBased line, zeroBased col with
              | Some defLine, Some defCol =>
                  Some [Lsp.Location_create uri
                          (Lsp.Range_create
                             (Lsp.Position_create defLine defCol)
                             (Lsp.Position_create defLine defCol))]
              | _, _ => None
              end
          | _, _, _ => None
          end
      | _ => Some []
      end
  end.

Definition onDefinition (uri : string) (line character : nat)
    : M (list Lsp.Location) :=
  let* s := get in
  match map_get (documents s) uri with
  | None => ret []
  | Some document =>
      let* settings := resolveGoToDefSettings in
      match settings with
      | None => ret []
      | Some (jarPath, classpath) =>
          let* shadowInfo := createShadowWorkspace document "def" in
          let* tempFileInfo :=
            match shadowInfo with
            | Some w =>
                ret {| filePath := shadow_filePath w;
                       cleanupOp := Rm (shadowRoot w) true |}
            | None => writeTempUmpleFile document "def"
            end in
          let tempFile := filePath tempFileInfo in
          (match shadowInfo with
           | Some _ => ret tt
           | None => callFs (WriteFile tempFile (normalizedText document))
           end) >>
          tryFinally
            (tryCatch
               (let classPath :=
                  Json.joinStrings Path.delimiter [jarPath; classpath] in
                let* stdout :=
                  callExecFile "java"
                    ["-cp"; classPath; "UmpleGoToDefJson"; tempFile;
                     decimalOfZ (Z.of_nat (line + 1));
                     decimalOfZ (Z.of_nat character)] in
                match locationsOf stdout document tempFile shadowInfo with
                | Some locations => ret locations
                | None => throw typeError
                end)
               (fun error =>
                  emit (ConsoleWarn ("Go to definition failed: "
                                     +:+ errorToString error))
                  >> ret []))
            (cleanup tempFileInfo)
      end
  end.

(** *** Document events and the event loop *)

Record ContentChange := {
  change_range : option Range;
  change_text : string
}.

(** [TextDocument.update]: each change replaces its range (the whole
    text when it has none). *)
Definition applyChange (document : TextDocument) (c : ContentChange)
    : TextDocument :=
  let text :=
    match change_range c with
    | None => change_text c
    | Some r =>
        let a := offsetAt document (range_start r) in
        let b := offsetAt document (range_end r) in
        String.substring 0 (Nat.min a b) (content document)
        +:+ change_text c
        +:+ sliceFrom (content document) (Nat.max a b)
    end in
  {| uri := uri document; languageId := languageId document;
     version := version document; content := text |}.

Definition TextDocument_update (document : TextDocument)
    (changes : list ContentChange) (version : Z) : TextDocument :=
  let updated := fold_left applyChange changes document in
  {| uri := uri updated; languageId := languageId updated;
     version := version; content := content updated |}.

Definition onDidOpenTextDocument (uri languageId : string) (version : Z)
    (text : string) : M unit :=
  let document :=
    {| uri := uri; languageId := languageId; version := version;
       content := text |} in
  modify (fun s => set_documents (map_set (documents s) uri document) s)
  >> scheduleValidation document.

Definition onDidChangeTextDocument (uri : string) (version : Z)
    (contentChanges : list ContentChange) : M unit :=
  let* s := get in
  match map_get (documents s) uri with
  | None => ret tt
  | Some document =>
      let updated := TextDocument_update document contentChanges version in
      modify (fun s => set_documents (map_set (documents s) uri updated) s)
      >> modify (fun s => set_modelCache (delete uri (modelCache s)) s)
      >> scheduleValidation updated
  end.

Definition onDidCloseTextDocument (uri : string) : M unit :=
  modify (fun s => set_documents (map_delete (documents s) uri) s)
  >> modify (fun s => set_modelCache (delete uri (modelCache s)) s)
  >> emit (SendDiagnostics uri []).

(** What the server reacts to: the editor's notifications and requests,
    and the runtime calling a timer that is due. *)
Inductive Input :=
| DidOpen (uri languageId : string) (version : Z) (text : string)
| DidChange (uri : string) (version : Z) (changes : list ContentChange)
| DidClose (uri : string)
| CompletionRequest (uri : string)
| DefinitionRequest (uri : string) (line character : nat)
| TimerDue (handle : nat).

(** One reaction, run to its end; what a request answers is dropped. *)
Definition step (s : State) (i : Input) : State :=
  match i with
  | DidOpen uri languageId version text =>
      snd (onDidOpenTextDocument uri languageId version text s)
  | DidChange uri version changes =>
      snd (onDidChangeTextDocument uri version changes s)
  | DidClose uri => snd (onDidCloseTextDocument uri s)
  | CompletionRequest uri => snd (onCompletion_modelItems uri s)
  | DefinitionRequest uri line character =>
      snd (onDefinition uri line character s)
  | TimerDue handle => snd (timerFires handle s)
  end.

Definition run (s : State) (inputs : list Input) : State :=
  fold_left step inputs s.

End Handlers.

End Server.

(** ** Sample configurations and environments *)

Module Samples.
Import JsString TextDocuments Platform ServerState.

Definition sampleConfig : Config :=
  {| workspaceRoots := ["/project"];
     umpleSyncJarPath := Some "/opt/umple/umplesync.jar";
     umpleSyncHost := "localhost";
     umpleSyncPort := 5555;
     umpleJarPath := Some "/opt/umple/umple.jar";
     umpleGoToDefClasspath := Some "/opt/umple/java-tools" |}.

Definition refused : JsError :=
  {| code := Some "ECONNREFUSED";
     error_message := "connect ECONNREFUSED 127.0.0.1:5555" |}.

Definition timedOut : JsError :=
  {| code := None; error_message := "umplesync socket timeout" |}.

Definition notPermitted : JsError :=
  {| code := Some "EACCES"; error_message := "EACCES: permission denied" |}.

(** A machine on which files exist, file-system calls succeed, the
    workspace holds [A.ump] and [sub/B.ump], and [file:] URIs are the path
    behind the prefix; the socket and the definition tool answer as
    given. *)
Definition machine (answer : nat -> SocketResult)
    (tool : Outcome string) (listing : Listing) : Env :=
  {| socket := fun n _ => answer n;
     execFile := fun _ _ => tool;
     existsSync := fun _ _ => true;
     mkdtemp := fun _ prefix => Returned (prefix +:+ "Ab3dE9");
     readdir := fun _ _ => listing;
     fs := fun _ _ => None;
     tmpdir := "/tmp";
     cwd := "/";
     pid := 4242;
     dateNow := fun _ => 1700000000000%Z;
     fileURLToPath :=
       fun u => if String.prefix "file://" u then Some (sliceFrom u 7)
                else None;
     pathToFileURL := fun p => "file://" +:+ p |}.

Definition projectListing : Listing :=
  Listed [DirentFile "A.ump"; DirentFile "notes.txt";
          DirentDirectory "node_modules" (Listed [DirentFile "x.ump"]);
          DirentDirectory "sub" (Listed [DirentFile "B.ump"])].

Definition toolSilent : Outcome string := Returned "".

(** The service never answers: every connection is refused. *)
Definition refusing : Env :=
  machine (fun _ => SocketError refused) toolSilent projectListing.

(** The service accepts the connection and then stays silent. *)
Definition stalling : Env :=
  machine (fun _ => SocketTimeout) toolSilent projectListing.

Definition noItems : Json.json -> list CompletionItem := fun _ => [].




Definition modelUri : string := "file:///project/A.ump".

Definition replaceAll (text : string) : Server.ContentChange :=
  {| Server.change_range := None; Server.change_text := text |}.

(** A buffer is opened and edited twice. *)
Definition threeEdits : list Server.Input :=
  [Server.DidOpen modelUri "umple" 1 "class A {}";
   Server.DidChange modelUri 2 [replaceAll "class A { x; }"];
   Server.DidChange modelUri 3 [replaceAll "class A { x; y; }"]].

Definition lastEdit : TextDocument :=
  {| uri := modelUri; languageId := "umple"; version := 3;
     content := "class A { x; y; }" |}.

Definition firstEdit : TextDocument :=
  {| uri := modelUri; languageId := "umple"; version := 1;
     content := "class A {}" |}.

(** The server after the buffer [A.ump] was opened. *)
Definition opened : State :=
  Server.run stalling noItems (initialState sampleConfig)
    [Server.DidOpen modelUri "umple" 1 "class A {}"].

(** A workspace whose root cannot be listed. *)
Definition locked : Env :=
  machine (fun _ => SocketTimeout) toolSilent (Unreadable notPermitted).

(** A workspace with a second [A.ump] below [sub], next to [B.ump]. *)
Definition nestedListing : Listing :=
  Listed [DirentFile "A.ump";
          DirentDirectory "sub"
            (Listed [DirentFile "A.ump"; DirentFile "B.ump"])].



Definition toolMissing : JsError :=
  {| code := Some "ENOENT"; error_message := "spawn java ENOENT" |}.

(** The lookup tool cannot be started. *)
Definition toolless : Env :=
  machine (fun _ => SocketTimeout) (Thrown toolMissing) nestedListing.


End Samples.

(** ** Sample buffers and replies *)

Module Examples.
Import JsString TextDocuments.

(** A buffer of four lines. *)
Definition classBuffer : TextDocument :=
  {| uri := "file:///project/model.ump"; languageId := "umple";
     version := 1;
     content := "class A {" +:+ NL +:+ "  name;" +:+ NL
                +:+ "    Integer x" +:+ NL +:+ "}" +:+ NL |}.

(** An error stream with one record for line 3. *)
Definition oneError : string :=
  dq "{'results':[{'line':'3','severity':'1','errorCode':'12','message':'bad'}]}".

(** An error stream whose second record is [null]. *)
Definition nullRecord : string :=
  dq "{'results':[{'line':'3','message':'bad'},null]}".

End Examples.

(** ** Completion: prefix, filters and the merged list *)

Module Completion.
Import JsString JsNumber Json TextDocuments Context Platform ServerState.
Import Server.

Local Open Scope server_scope.

(** [CompletionItemKind] as the protocol numbers the kinds the server
    uses. *)
Definition kindNumber (k : CompletionItemKind) : Z :=
  match k with
  | KindField => 5
  | KindClass => 7
  | KindProperty => 10
  | KindKeyword => 14
  | KindEnumMember => 20
  | KindEvent => 23
  end.

(** The key of [addCompletion] and [dedupeCompletions]:
    [`${item.kind ?? "text"}:${item.label}`]; every item the server
    builds has a kind. *)
Definition keyOf (item : CompletionItem) : string :=
  decimalOfZ (kindNumber (kind item)) +:+ ":" +:+ label item.

(** [dedupeCompletions]: the loop with its set [seen]. *)
Fixpoint dedupeLoop (seen : gset string) (items : list CompletionItem)
    : list CompletionItem :=
  match items with
  | [] => []
  | item :: rest =>
      let key := keyOf item in
      if bool_decide (key ∈ seen) then dedupeLoop seen rest
      else item :: dedupeLoop ({[key]} ∪ seen) rest
  end.

Definition dedupeCompletions (items : list CompletionItem)
    : list CompletionItem :=
  dedupeLoop ∅ items.

(** [String.prototype.toLowerCase] on the code units up to [00FF]: the
    letters [A-Z], and [00C0-00DE] without the multiplication sign, move
    up by 32. *)
Definition toLowerChar (c : ascii) : ascii :=
  let n := nat_of_ascii c in
  if between 65 90 c
     || (between 192 222 c && negb (n =? 215))
  then ascii_of_nat (n + 32)
  else c.

Fixpoint toLowerCase (s : string) : string :=
  match s with
  | String c rest => String (toLowerChar c) (toLowerCase rest)
  | EmptyString => ""
  end.

(** [s.startsWith(p)]. *)
Definition startsWith (s p : string) : bool := String.prefix p s.

(** [filterCompletions]. *)
Definition filterCompletions (items : list CompletionItem) (prefix : string)
    : list CompletionItem :=
  match prefix with
  | EmptyString => items
  | _ =>
      let lowerPrefix := toLowerCase prefix in
      List.filter
        (fun item => startsWith (toLowerCase (label item)) lowerPrefix)
        items
  end.

Fixpoint allWordChars (s : string) : bool :=
  match s with
  | String c rest => isWordChar c && allWordChars rest
  | EmptyString => true
  end.

(** [lineText.match(/[A-Za-z_][A-Za-z0-9_]*$/)]: the first position from
    which an identifier runs to the end of the text. *)
Fixpoint matchIdentifierAtEnd (s : string) : option string :=
  match s with
  | String c rest =>
      if isWordStart c && allWordChars rest then Some s
      else matchIdentifierAtEnd rest
  | EmptyString => None
  end.

(** The text of [line] before [character]. *)
Definition lineBefore (document : TextDocument) (line character : nat)
    : string :=
  getTextRange document
    {| range_start := {| TextDocuments.line := line;
                         TextDocuments.character := 0 |};
       range_end := {| TextDocuments.line := line;
                       TextDocuments.character := character |} |}.

(** [getCompletionPrefix]. *)
Definition getCompletionPrefix (document : TextDocument)
    (line character : nat) : string :=
  match matchIdentifierAtEnd (lineBefore document line character) with
  | Some m => m
  | None => ""
  end.

(** [Array.from(new Set(l))]: the first occurrences, in order. *)
Fixpoint uniqueLoop (seen : gset string) (l : list string) : list string :=
  match l with
  | [] => []
  | x :: rest =>
      if bool_decide (x ∈ seen) then uniqueLoop seen rest
      else x :: uniqueLoop ({[x]} ∪ seen) rest
  end.

Definition unique (l : list string) : list string := uniqueLoop ∅ l.

(** [buildKeywordCompletions]. *)
Definition buildKeywordCompletions (keywords : list string)
    : list CompletionItem :=
  map (fun label =>
         {| label := label; kind := KindKeyword; detail := None |})
    (unique keywords).

(** *** Class names in the open buffers *)

(** The longest prefix of [s] whose characters satisfy [p], and the
    rest. *)
Fixpoint span (p : ascii -> bool) (s : string) : string * string :=
  match s with
  | String c rest =>
      if p c then let (a, b) := span p rest in (String c a, b)
      else ("", s)
  | EmptyString => ("", "")
  end.

(** [\b]: exactly one of the characters before and at the position is a
    word character. *)
Definition wordBoundary (prev : option ascii) (s : string) : bool :=
  xorb (match prev with Some c => isWordChar c | None => false end)
       (match s with String c _ => isWordChar c | EmptyString => false end).

(** A match of the expression of [getClassNameCompletions] - a word
    boundary, [class] or [trait], white space, an identifier - that
    starts at the head of [s], the character before being [prev]: the
    identifier, and the length of the match. *)
Definition declarationAt (prev : option ascii) (s : string)
    : option (string * nat) :=
  if wordBoundary prev s
     && (String.prefix "class" s || String.prefix "trait" s)
  then
    let (spaces, identifier) := span isWhiteSpace (sliceFrom s 5) in
    match spaces, identifier with
    | String _ _, String c _ =>
        if isWordStart c then
          let (name, _) := span isWordChar identifier in
          Some (name, 5 + String.length spaces + String.length name)
        else None
    | _, _ => None
    end
  else None.

(** The [while ((match = regex.exec(text)) !== null)] loop: [s] is the
    text from the current position on, [prev] the character before it,
    and [skip] the number of characters still covered by the last
    match. *)
Fixpoint declarations (prev : option ascii) (skip : nat) (s : string)
    : list string :=
  match s with
  | EmptyString => []
  | String c rest =>
      match skip with
      | S k => declarations (Some c) k rest
      | O =>
          match declarationAt prev s with
          | Some (name, n) => name :: declarations (Some c) (n - 1) rest
          | None => declarations (Some c) 0 rest
          end
      end
  end.

(** The set [classNames], in the order of insertion. *)
Definition classNames (documents : JsMap TextDocument) : list string :=
  unique (flat_map (fun d => declarations None 0 (getText d))
            (map_values documents)).

(** [getClassNameCompletions]. *)
Definition getClassNameCompletions (documents : JsMap TextDocument)
    (prefix : string) : list CompletionItem :=
  filterCompletions
    (map (fun name =>
            {| label := name; kind := KindClass; detail := None |})
       (classNames documents))
    prefix.

(** *** Event names *)

(** A match of [/\s*\[|\s*\/\s*/] starts at the head of [s]: white
    space, then an opening bracket or a slash. *)
Definition stopsHere (s : string) : bool :=
  match trimStart s with
  | String c _ => Ascii.eqb c "[" || Ascii.eqb c "/"
  | EmptyString => false
  end.

(** [s.search(/\s*\[|\s*\/\s*/)]. *)
Fixpoint searchStop (s : string) : option nat :=
  match s with
  | String c rest =>
      if stopsHere s then Some 0 else option_map S (searchStop rest)
  | EmptyString => None
  end.

(** [extractEventName] of a label that is a string or [undefined];
    [None] is [null]. *)
Definition extractEventName (labelText : option string) : option string :=
  match labelText with
  | None | Some EmptyString => None
  | Some text =>
      match trim text with
      | EmptyString => None
      | trimmed =>
          match searchStop trimmed with
          | None => Some trimmed
          | Some stopIndex => Some (trim (slice trimmed 0 stopIndex))
          end
      end
  end.

(** *** The completion handler *)

(** The lists of [./keywords]. *)
Record Keywords := {
  topLevel : list string;
  classLevel : list string;
  attribute : list string;
  method : list string;
  statemachine : list string;
  constraints : list string;
  modelConstraints : list string;
  tracing : list string;
  testing : list string;
  misc : list string
}.

Section Handler.

Variable env : Env.
Variable buildModelCompletions : json -> list CompletionItem.
Variable KEYWORDS : Keywords.
Variable ALL_KEYWORDS : list string.

Definition KEYWORD_COMPLETIONS : list CompletionItem :=
  buildKeywordCompletions ALL_KEYWORDS.

(** [getKeywordsForContext]. *)
Definition getKeywordsForContext (context : CompletionContext)
    : list string :=
  match context with
  | Top =>
      topLevel KEYWORDS ++ testing KEYWORDS ++ tracing KEYWORDS
      ++ misc KEYWORDS
  | Class =>
      classLevel KEYWORDS ++ attribute KEYWORDS ++ method KEYWORDS
      ++ constraints KEYWORDS ++ modelConstraints KEYWORDS
      ++ tracing KEYWORDS ++ testing KEYWORDS
  | Statemachine => statemachine KEYWORDS ++ constraints KEYWORDS
  | Association => constraints KEYWORDS
  | Enum => []
  | Unknown => ALL_KEYWORDS
  end.

(** [connection.onCompletion]. *)
Definition onCompletion (uri : string) (line character : nat)
    : M (list CompletionItem) :=
  let* s := get in
  match map_get (documents s) uri with
  | None => ret KEYWORD_COMPLETIONS
  | Some document =>
      let context := detectContext document line character in
      let prefix := getCompletionPrefix document line character in
      let keywordItems :=
        filterCompletions
          (buildKeywordCompletions (getKeywordsForContext context)) prefix in
      let* modelItems :=
        getModelCompletions env buildModelCompletions document in
      let* s' := get in
      let classItems := getClassNameCompletions (documents s') prefix in
      ret (dedupeCompletions
             (keywordItems ++ filterCompletions modelItems prefix
              ++ classItems))
  end.

End Handler.

End Completion.

(** ** The lookup tool ([UmpleGoToDefJson.java]) *)

Module GoToDefTool.
Import JsString JsNumber Json.

(** [s.replace(target, replacement)] for a target of one character:
    every occurrence, from left to right. *)
Fixpoint replaceChar (target : ascii) (replacement : string) (s : string)
    : string :=
  match s with
  | String c rest =>
      if Ascii.eqb c target
      then replacement +:+ replaceChar target replacement rest
      else String c (replaceChar target replacement rest)
  | EmptyString => ""
  end.

(** [escapeJson]: the five replacements, one after the other. *)
Definition escapeJson (value : string) : string :=
  replaceChar "009" (String "\" "t")
    (replaceChar "013" (String "\" "r")
       (replaceChar "010" (String "\" "n")
          (replaceChar QUOTE (String "\" (String QUOTE ""))
             (replaceChar "\" (String "\" "\") value)))).

(** [unescapeJson]: a backslash that is not the last character stands,
    with the character after it, for one character. *)
Fixpoint unescapeJson (value : string) : string :=
  match value with
  | String c rest =>
      if negb (Ascii.eqb c "\") then String c (unescapeJson rest)
      else
        match rest with
        | EmptyString => String c ""
        | String next rest' =>
            String (if Ascii.eqb next "n" then "010"%char
                    else if Ascii.eqb next "r" then "013"%char
                    else if Ascii.eqb next "t" then "009"%char
                    else if Ascii.eqb next "\" then "\"%char
                    else if Ascii.eqb next QUOTE then QUOTE
                    else next)
              (unescapeJson rest')
        end
  | EmptyString => ""
  end.

(** [Integer.toString]. *)
Definition intToString (z : Z) : string :=
  if (z <? 0)%Z then "-" +:+ decimalOfZ (- z) else decimalOfZ z.

Record DefLocation := {
  kind : string;
  name : string;
  file : string;
  line : Z;
  col : Z
}.

(** [DefLocation.toJson]. *)
Definition toJson (d : DefLocation) : string :=
  "{" +:+ dq "'found':true,"
  +:+ dq "'kind':'" +:+ escapeJson (kind d) +:+ dq "',"
  +:+ dq "'name':'" +:+ escapeJson (name d) +:+ dq "',"
  +:+ dq "'file':'" +:+ escapeJson (file d) +:+ dq "',"
  +:+ dq "'line':" +:+ intToString (line d) +:+ ","
  +:+ dq "'col':" +:+ intToString (col d)
  +:+ "}".

(** Java's [int] addition. *)
Definition wrapInt (z : Z) : Z := ((z + 2 ^ 31) mod 2 ^ 32 - 2 ^ 31)%Z.

(** The loop of [lineColFromOffset], with [steps] characters to go. *)
Fixpoint lineColLoop (text : string) (steps : nat) (line col : Z) : Z * Z :=
  match steps, text with
  | S steps', String c rest =>
      if Ascii.eqb c "010"
      then lineColLoop rest steps' (wrapInt (line + 1)) 1
      else lineColLoop rest steps' line (wrapInt (col + 1))
  | _, _ => (line, col)
  end.

(** [lineColFromOffset]: the loop runs while [i < offset] and
    [i < text.length()]. *)
Definition lineColFromOffset (text : string) (offset : Z) : Z * Z :=
  lineColLoop text (Z.to_nat offset) 1 1.

End GoToDefTool.

(** ** Completion items from the model ([buildModelCompletions]) *)

Module ModelItems.
Import JsString JsNumber Json ServerState Completion.
Local Open Scope list_scope.

(** An item as [buildModelCompletions] builds it: the label is whatever
    value the model holds under the name. *)
Record ModelItem := {
  label : json;
  kind : CompletionItemKind;
  detail : string
}.

(** The array [items] and the set [seen]. *)
Definition Collected : Type := (list ModelItem * gset string)%type.

(** A statement of the function: it changes [items] and [seen], or throws
    a [TypeError] ([None]). *)
Definition Statement : Type := Collected -> option Collected.

Definition skip : Statement := fun c => Some c.

Definition andThen (a b : Statement) : Statement :=
  fun c => match a c with Some c' => b c' | None => None end.

(** What [for (const x of v ?? [])] iterates over: nothing for [null] and
    [undefined], the elements of an array, the characters of a string;
    other values are not iterable. *)
Definition iterated (v : option json) : option (list json) :=
  match v with
  | None | Some JNull => Some []
  | Some (JArray elements) => Some elements
  | Some (JString s) =>
      Some (map (fun c => JString (String c "")) (list_ascii_of_string s))
  | Some _ => None
  end.

Fixpoint forEach (l : list json) (body : json -> Statement) : Statement :=
  match l with
  | [] => skip
  | x :: rest => andThen (body x) (forEach rest body)
  end.

(** [for (const x of object.name ?? []) body]. *)
Definition forOf (object : json) (name : string) (body : json -> Statement)
    : Statement :=
  match member object name with
  | None => fun _ => None
  | Some v =>
      match iterated v with
      | None => fun _ => None
      | Some l => forEach l body
      end
  end.

(** [addCompletion]; the key converts the label to a string. *)
Definition addCompletion (item : ModelItem) : Statement :=
  fun c =>
    match ToString (label item) with
    | None => None
    | Some text =>
        let key := decimalOfZ (kindNumber (kind item)) +:+ ":" +:+ text in
        if bool_decide (key ∈ c.2) then Some c
        else Some (c.1 ++ [item], {[key]} ∪ c.2)
    end.

(** [v] as a condition, with its value when it holds. *)
Definition truthy (v : option json) : option json :=
  match v with
  | Some x => if ToBoolean (Some x) then Some x else None
  | None => None
  end.

(** [extractEventName(text)] for whatever the model holds: a value that
    holds as a condition and is not a string has no [trim]. *)
Definition eventNameOf (text : option json) : option (option string) :=
  match truthy text with
  | None => Some None
  | Some (JString s) => Some (extractEventName (Some s))
  | Some _ => None
  end.

(** [label?.attrs?.text?.text]. *)
Definition labelText (label : json) : option json :=
  match label with
  | JNull => None
  | _ =>
      match member label "attrs" with
      | Some (Some attrs) =>
          match member attrs "text" with
          | Some (Some text) =>
              match member text "text" with
              | Some v => v
              | None => None
              end
          | _ => None
          end
      | _ => None
      end
  end.

Definition attributeStatement (className : option json) (attr : json)
    : Statement :=
  match member attr "name" with
  | None => fun _ => None
  | Some name =>
      match truthy name with
      | None => skip
      | Some name =>
          let detail :=
            match option_map truthy (member attr "type") with
            | Some (Some type) =>
                option_map (fun t => t +:+ " attribute") (ToString type)
            | _ => Some "attribute"
            end in
          let detail :=
            match detail, className with
            | Some detail, Some className =>
                option_map (fun c => detail +:+ " in " +:+ c)
                  (ToString className)
            | detail, _ => detail
            end in
          match detail with
          | None => fun _ => None
          | Some detail =>
              addCompletion
                {| label := name; kind := KindField; detail := detail |}
          end
      end
  end.

Definition stateStatement (state : json) : Statement :=
  match member state "name" with
  | None => fun _ => None
  | Some name =>
      match truthy name with
      | None => skip
      | Some name =>
          addCompletion
            {| label := name; kind := KindEnumMember; detail := "state" |}
      end
  end.

Definition labelStatement (label : json) : Statement :=
  match eventNameOf (labelText label) with
  | None => fun _ => None
  | Some None | Some (Some EmptyString) => skip
  | Some (Some eventName) =>
      addCompletion
        {| label := JString eventName; kind := KindEvent;
           detail := "event" |}
  end.

Definition transitionStatement (transition : json) : Statement :=
  forOf transition "labels" labelStatement.

Definition stateMachineStatement (sm : json) : Statement :=
  andThen (forOf sm "states" stateStatement)
    (forOf sm "transitions" transitionStatement).

Definition classStatement (umpleClass : json) : Statement :=
  match member umpleClass "name" with
  | None => fun _ => None
  | Some name =>
      let className := truthy name in
      andThen
        (match className with
         | Some className =>
             addCompletion
               {| label := className; kind := KindClass;
                  detail := "class" |}
         | None => skip
         end)
        (andThen
           (forOf umpleClass "attributes" (attributeStatement className))
           (forOf umpleClass "stateMachines" stateMachineStatement))
  end.

(** [assoc.name ?? (assoc.classOneId && assoc.classTwoId ? ... :
    undefined)]; the outer [None] is a [TypeError]. *)
Definition associationName (assoc : json) : option (option json) :=
  match member assoc "name" with
  | None => None
  | Some (Some JNull) | Some None =>
      match option_map truthy (member assoc "classOneId"),
            option_map truthy (member assoc "classTwoId") with
      | Some (Some one), Some (Some two) =>
          match ToString one, ToString two with
          | Some a, Some b => Some (Some (JString (a +:+ "__" +:+ b)))
          | _, _ => None
          end
      | _, _ => Some None
      end
  | Some (Some name) => Some (Some name)
  end.

Definition associationStatement (assoc : json) : Statement :=
  match associationName assoc with
  | None => fun _ => None
  | Some name =>
      match truthy name with
      | None => skip
      | Some name =>
          addCompletion
            {| label := name; kind := KindProperty;
               detail := "association" |}
      end
  end.

(** [buildModelCompletions]; [None] is a [TypeError]. *)
Definition buildModelCompletions (modelJson : json)
    : option (list ModelItem) :=
  option_map fst
    (andThen (forOf modelJson "umpleClasses" classStatement)
       (forOf modelJson "umpleAssociations" associationStatement)
       ([], ∅)).

End ModelItems.

(** ** More sample machines *)

Module Replies.
Import JsString Platform Samples.

(** The service answers every command with one error record for
    line 3. *)
Definition complaining : Env :=
  machine (fun _ => SocketEnd ("ERROR!!" +:+ Examples.oneError +:+ "!!ERROR"))
    toolSilent projectListing.

End Replies.

(* ================================================================== *)
(** * Properties *)

(** ** Properties of the JSON reader *)

Module JsonFacts.
Import JsString JsNumber Json.

(** [skipWs] only drops characters. *)
Lemma skipWs_length s : String.length (skipWs s) <= String.length s.
Proof.
  induction s as [|c s IH]; simpl; [lia|].
  destruct (isJsonSpace c); simpl; lia.
Qed.

Lemma skipWs_cons s c r : skipWs s = String c r -> String.length r < String.length s.
Proof. intros H. pose proof (skipWs_length s) as Hl. rewrite H in Hl. simpl in Hl. lia. Qed.

Lemma digits_length s : forall v n v' n' r,
  digits s v n = (v', n', r) -> String.length r <= String.length s.
Proof.
  induction s as [|c s IH]; intros v n v' n' r H; simpl in H.
  - inversion H; subst. simpl. lia.
  - destruct (isDigit c).
    + apply IH in H. simpl. lia.
    + inversion H; subst. simpl. lia.
Qed.

Lemma stringBody_length : forall n s acc str r,
  String.length s <= n -> stringBody s acc = Some (str, r) -> String.length r <= String.length s.
Proof.
  induction n as [|n IH]; intros s acc str r Hn H.
  - destruct s; simpl in *; [discriminate|lia].
  - destruct s as [|c rest]; [discriminate|].
    simpl in Hn. cbn [stringBody] in H.
    destruct (Ascii.eqb c QUOTE).
    { inversion H; subst. simpl. lia. }
    destruct (Ascii.eqb c "\").
    + destruct rest as [|e rest']; [discriminate|]. simpl in Hn.
      repeat match type of H with
             | (if ?b then _ else _) = _ =>
                 destruct b;
                   [try (apply IH in H; [simpl; lia|lia])|]
             end; try discriminate.
      destruct rest' as [|h1 [|h2 [|h3 [|h4 rest'']]]]; try discriminate.
      destruct (hex4 h1 h2 h3 h4); [|discriminate].
      destruct (_ <? _)%Z; [|discriminate].
      simpl in Hn. apply IH in H; [simpl; lia|lia].
    + destruct (_ <? 32); [discriminate|].
      apply IH in H; [simpl; lia|lia].
Qed.


Lemma minus_length s negative body :
  match s with
  | String "-" r => (true, r)
  | _ => (false, s)
  end = (negative, body) -> String.length body <= String.length s.
Proof.
  destruct s as [|[[] [] [] [] [] [] [] []] r]; intros H; inversion H; subst;
    simpl; lia.
Qed.

Lemma sign_length s negative body :
  match s with
  | String "-" r => (true, r)
  | String "+" r => (false, r)
  | _ => (false, s)
  end = (negative, body) -> String.length body <= String.length s.
Proof.
  destruct s as [|[[] [] [] [] [] [] [] []] r]; intros H; inversion H; subst;
    simpl; lia.
Qed.


(** Closes a goal about the rest of a literal once [digits] is named. *)
Ltac by_digits H :=
  try discriminate;
  try (inversion H; subst; simpl in *; lia);
  match type of H with
  | context [digits ?a ?b ?c] =>
      let E := fresh "E" in
      destruct (digits a b c) as [[? [|?]] ?] eqn:E;
      apply digits_length in E;
      try discriminate; inversion H; subst; simpl in *; lia
  end.

Lemma intPart_length body int rest :
  match body with
  | String "0" r => Some (0%Z, r)
  | _ => match digits body 0 0 with
         | (_, O, _) => None
         | (v, S _, r) => Some (v, r)
         end
  end = Some (int, rest) -> String.length rest <= String.length body.
Proof.
  destruct body as [|[[] [] [] [] [] [] [] []] r]; intros H; by_digits H.
Qed.

Lemma fraction_length rest int all fracCount rest0 :
  match rest with
  | String "." r =>
      match digits r int 0 with
      | (_, O, _) => None
      | (v, S n, r') => Some (v, S n, r')
      end
  | _ => Some (int, O, rest)
  end = Some (all, fracCount, rest0) -> String.length rest0 <= String.length rest.
Proof.
  destruct rest as [|[[] [] [] [] [] [] [] []] r]; intros H; by_digits H.
Qed.

Lemma exponent_length rest0 e rest1 :
  match rest0 with
  | String c r =>
      if Ascii.eqb c "e" || Ascii.eqb c "E" then
        let '(eneg, r) :=
          match r with
          | String "-" r' => (true, r')
          | String "+" r' => (false, r')
          | _ => (false, r)
          end in
        match digits r 0 0 with
        | (_, O, _) => None
        | (v, S _, r') => Some (if eneg then (- v)%Z else v, r')
        end
      else Some (0%Z, rest0)
  | EmptyString => Some (0%Z, rest0)
  end = Some (e, rest1) -> String.length rest1 <= String.length rest0.
Proof.
  destruct rest0 as [|c r]; intros H; [by_digits H|].
  destruct (_ || _); [|by_digits H].
  destruct (match r with
            | String "-" r' => (true, r')
            | String "+" r' => (false, r')
            | _ => (false, r)
            end) as [eneg r0] eqn:Hsign.
  apply sign_length in Hsign.
  destruct (digits r0 0 0) as [[v [|k]] r'] eqn:E; [discriminate|].
  apply digits_length in E. inversion H; subst. simpl. lia.
Qed.

Lemma numberLiteral_length s n r :
  numberLiteral s = Some (n, r) -> String.length r <= String.length s.
Proof.
  unfold numberLiteral. intros H.
  destruct (match s with String "-" r => (true, r) | _ => (false, s) end)
    as [negative body] eqn:Hsign.
  apply minus_length in Hsign.
  match type of H with
  | match ?x with Some _ => _ | None => _ end = _ =>
      destruct x as [[int rest]|] eqn:Hint; [|discriminate]
  end.
  apply intPart_length in Hint.
  match type of H with
  | match ?x with Some _ => _ | None => _ end = _ =>
      destruct x as [[[all fracCount] rest0]|] eqn:Hfrac; [|discriminate]
  end.
  apply fraction_length in Hfrac.
  match type of H with
  | match ?x with Some _ => _ | None => _ end = _ =>
      destruct x as [[e rest1]|] eqn:Hexp; [|discriminate]
  end.
  apply exponent_length in Hexp.
  inversion H; subst. lia.
Qed.

Lemma substring_length s : forall n m, String.length (String.substring n m s) <= String.length s.
Proof.
  induction s as [|c s IH]; intros [|n] [|m]; simpl; try lia.
  - specialize (IH 0 m). lia.
  - specialize (IH n 0). lia.
  - specialize (IH n (S m)). lia.
Qed.

Lemma literal_length word v s v' r :
  literal word v s = Parsed v' r -> String.length r <= String.length s.
Proof.
  unfold literal. destruct (String.prefix word s); [|discriminate].
  intros H. inversion H; subst. apply substring_length.
Qed.

(** What the three parsing functions leave is no longer than what they
    were given. *)
Lemma parse_length fuel :
  (forall s v r, parseValue fuel s = Parsed v r -> String.length r <= String.length s)
  /\ (forall s acc v r,
         parseElements fuel s acc = Parsed v r -> String.length r <= String.length s)
  /\ (forall s acc v r,
         parseMembers fuel s acc = Parsed v r -> String.length r <= String.length s).
Proof.
  induction fuel as [|fuel (IHv & IHe & IHm)].
  - repeat split; intros; discriminate.
  - split; [|split].
    + intros s v r H. cbn [parseValue] in H.
      pose proof (skipWs_length s) as Hs.
      destruct (skipWs s) as [|c rest]; [discriminate|]. simpl in Hs.
      destruct (Ascii.eqb c "{").
      { pose proof (skipWs_length rest) as Hr.
        destruct (skipWs rest) as [|[[] [] [] [] [] [] [] []] r0] eqn:Hrest;
          try (apply IHm in H; simpl in *; lia).
        inversion H; subst. simpl in *. lia. }
      destruct (Ascii.eqb c "[").
      { pose proof (skipWs_length rest) as Hr.
        destruct (skipWs rest) as [|[[] [] [] [] [] [] [] []] r0] eqn:Hrest;
          try (apply IHe in H; simpl in *; lia).
        inversion H; subst. simpl in *. lia. }
      destruct (Ascii.eqb c QUOTE).
      { destruct (stringBody rest []) as [[str r0]|] eqn:Hb; [|discriminate].
        apply (stringBody_length (String.length rest)) in Hb; [|lia].
        inversion H; subst. lia. }
      destruct (Ascii.eqb c "t"); [apply literal_length in H; simpl in H; lia|].
      destruct (Ascii.eqb c "f"); [apply literal_length in H; simpl in H; lia|].
      destruct (Ascii.eqb c "n"); [apply literal_length in H; simpl in H; lia|].
      destruct (numberLiteral (String c rest)) as [[n r0]|] eqn:Hn;
        [|discriminate].
      apply numberLiteral_length in Hn. inversion H; subst. simpl in Hn. lia.
    + intros s acc v r H. cbn [parseElements] in H.
      destruct (parseValue fuel s) as [v0 r0| |] eqn:Hv; try discriminate.
      apply IHv in Hv. pose proof (skipWs_length r0) as Hr.
      destruct (skipWs r0) as [|[[] [] [] [] [] [] [] []] r1];
        try discriminate;
        first [apply IHe in H; simpl in *; lia
              |inversion H; subst; simpl in *; lia].
    + intros s acc v r H. cbn [parseMembers] in H.
      pose proof (skipWs_length s) as Hs.
      destruct (skipWs s) as [|c r0]; [discriminate|]. simpl in Hs.
      destruct (Ascii.eqb c QUOTE); [|discriminate].
      destruct (stringBody r0 []) as [[key r1]|] eqn:Hb; [|discriminate].
      apply (stringBody_length (String.length r0)) in Hb; [|lia].
      pose proof (skipWs_length r1) as Hr1.
      destruct (skipWs r1) as [|[[] [] [] [] [] [] [] []] r2];
        try discriminate.
      simpl in Hr1.
      destruct (parseValue fuel r2) as [v0 r3| |] eqn:Hv; try discriminate.
      apply IHv in Hv. pose proof (skipWs_length r3) as Hr3.
      destruct (skipWs r3) as [|[[] [] [] [] [] [] [] []] r4];
        try discriminate;
        first [apply IHm in H; simpl in *; lia
              |inversion H; subst; simpl in *; lia].
Qed.

(** Twice the length of the text, and one more, is fuel enough. *)
Lemma parse_fuel fuel :
  (forall s, 2 * String.length s + 1 <= fuel -> parseValue fuel s <> OutOfFuel)
  /\ (forall s acc,
         2 * String.length s + 2 <= fuel -> parseElements fuel s acc <> OutOfFuel)
  /\ (forall s acc,
         2 * String.length s + 2 <= fuel -> parseMembers fuel s acc <> OutOfFuel).
Proof.
  induction fuel as [|fuel (IHv & IHe & IHm)].
  - repeat split; intros; lia.
  - destruct (parse_length fuel) as (Lv & _ & _).
    split; [|split].
    + intros s Hf. cbn [parseValue].
      pose proof (skipWs_length s) as Hs.
      destruct (skipWs s) as [|c rest]; [discriminate|]. simpl in Hs.
      destruct (Ascii.eqb c "{").
      { pose proof (skipWs_length rest) as Hr.
        destruct (skipWs rest) as [|[[] [] [] [] [] [] [] []] r0] eqn:Hrest;
          try discriminate; apply IHm; simpl in *; lia. }
      destruct (Ascii.eqb c "[").
      { pose proof (skipWs_length rest) as Hr.
        destruct (skipWs rest) as [|[[] [] [] [] [] [] [] []] r0] eqn:Hrest;
          try discriminate; apply IHe; simpl in *; lia. }
      destruct (Ascii.eqb c QUOTE).
      { destruct (stringBody rest []) as [[str r0]|]; discriminate. }
      unfold literal.
      repeat match goal with
             | |- (if ?b then _ else _) <> _ => destruct b; try discriminate
             end.
      destruct (numberLiteral (String c rest)) as [[n r0]|]; discriminate.
    + intros s acc Hf. cbn [parseElements].
      specialize (IHv s ltac:(lia)).
      destruct (parseValue fuel s) as [v0 r0| |] eqn:Hv;
        [|discriminate|contradiction].
      apply Lv in Hv. pose proof (skipWs_length r0) as Hr.
      destruct (skipWs r0) as [|[[] [] [] [] [] [] [] []] r1];
        try discriminate; apply IHe; simpl in *; lia.
    + intros s acc Hf. cbn [parseMembers].
      pose proof (skipWs_length s) as Hs.
      destruct (skipWs s) as [|c r0]; [discriminate|]. simpl in Hs.
      destruct (Ascii.eqb c QUOTE); [|discriminate].
      destruct (stringBody r0 []) as [[key r1]|] eqn:Hb; [|discriminate].
      apply (stringBody_length (String.length r0)) in Hb; [|lia].
      pose proof (skipWs_length r1) as Hr1.
      destruct (skipWs r1) as [|[[] [] [] [] [] [] [] []] r2];
        try discriminate.
      simpl in Hr1.
      specialize (IHv r2 ltac:(lia)).
      destruct (parseValue fuel r2) as [v0 r3| |] eqn:Hv;
        [|discriminate|contradiction].
      apply Lv in Hv. pose proof (skipWs_length r3) as Hr3.
      destruct (skipWs r3) as [|[[] [] [] [] [] [] [] []] r4];
        try discriminate; apply IHm; simpl in *; lia.
Qed.

(** [JSON_parse] never runs out of steps: when it answers [None], the
    text is not JSON. *)
Lemma parseValue_fuel text :
  parseValue (2 * String.length text + 1) text <> OutOfFuel.
Proof. apply parse_fuel. lia. Qed.

End JsonFacts.

(** ** Properties of the demultiplexer *)

Module DemuxFacts.
Import JsString Demux.

Lemma index_ge (pattern s : string) :
  forall from m, String.index from pattern s = Some m -> from <= m.
Proof.
  induction s as [|c s IH]; intros from m H.
  - destruct from; simpl in H.
    + destruct pattern; inversion H; lia.
    + discriminate.
  - destruct from as [|from]; simpl in H.
    + lia.
    + destruct (String.index from pattern s) as [k|] eqn:E; [|discriminate].
      inversion H; subst. apply IH in E. lia.
Qed.

Lemma indexOf_ge s pattern from m :
  indexOf s pattern from = Some m -> from <= m.
Proof. apply index_ge. Qed.

(** One more iteration than needed changes nothing. *)
Lemma splitLoop_fuel_mono fuel raw :
  forall index out err o,
    splitLoop fuel raw index out err = Some o ->
    splitLoop (S fuel) raw index out err = Some o.
Proof.
  induction fuel as [|fuel IH]; intros index out err o H.
  - simpl in H. simpl.
    destruct (index <? String.length raw); simpl in *; [discriminate|exact H].
  - simpl in H.
    change (splitLoop (S (S fuel)) raw index out err) with
      (if negb (index <? String.length raw) then
         Some {| stdout := out; stderr := err |}
       else
         match indexOf raw OPEN index with
         | None =>
             Some {| stdout := out +:+ sliceFrom raw index; stderr := err |}
         | Some start =>
             match indexOf raw CLOSE (start + 7) with
             | None =>
                 Some {| stdout := out +:+ slice raw index start;
                         stderr := err +:+ sliceFrom raw (start + 7) |}
             | Some end_ =>
                 splitLoop (S fuel) raw (end_ + 7)
                   (out +:+ slice raw index start)
                   (err +:+ slice raw (start + 7) end_)
             end
         end).
    destruct (negb (index <? String.length raw)); [exact H|].
    destruct (indexOf raw OPEN index) as [start|]; [|exact H].
    destruct (indexOf raw CLOSE (start + 7)) as [end_|]; [|exact H].
    apply IH. exact H.
Qed.

(** The loop terminates: with [String.length raw - index] iterations left
    it always returns. *)
Lemma splitLoop_returns raw :
  forall fuel index out err,
    String.length raw - index <= fuel ->
    exists o, splitLoop fuel raw index out err = Some o.
Proof.
  induction fuel as [|fuel IH]; intros index out err Hfuel.
  - simpl. destruct (index <? String.length raw) eqn:E; simpl.
    + apply Nat.ltb_lt in E. lia.
    + eauto.
  - simpl. destruct (index <? String.length raw) eqn:E; simpl; [|eauto].
    apply Nat.ltb_lt in E.
    destruct (indexOf raw OPEN index) as [start|] eqn:Hs; [|eauto].
    destruct (indexOf raw CLOSE (start + 7)) as [end_|] eqn:He; [|eauto].
    apply IH. apply indexOf_ge in Hs. apply indexOf_ge in He. lia.
Qed.

Lemma splitLoop_total raw :
  exists o, splitLoop (String.length raw) raw 0 "" "" = Some o.
Proof. apply splitLoop_returns. lia. Qed.

Lemma splitLoop_enough raw fuel index out err o :
  splitLoop fuel raw index out err = Some o ->
  forall fuel', fuel <= fuel' -> splitLoop fuel' raw index out err = Some o.
Proof.
  intros H fuel' Hle. induction Hle as [|k _ IH]; [exact H|].
  apply splitLoop_fuel_mono. exact IH.
Qed.

(** The result of the function is the result of the loop from any state
    the scan passes through. *)
Lemma Scanned_result raw index out err :
  Scanned raw index out err ->
  splitLoop (String.length raw) raw index out err
  = Some (splitUmpleSyncOutput raw).
Proof.
  induction 1 as [|index out err start end_ Hsc IH Hlt Hs He].
  - unfold splitUmpleSyncOutput.
    destruct (splitLoop_total raw) as [o Ho]. rewrite Ho. reflexivity.
  - rewrite <- IH.
    destruct (splitLoop_returns raw (String.length raw) (end_ + 7)
                (out +:+ slice raw index start)
                (err +:+ slice raw (start + 7) end_)) as [o Ho]; [lia|].
    rewrite Ho. symmetry.
    destruct (String.length raw) as [|n] eqn:Hn; [lia|].
    simpl. rewrite Hn.
    assert (Hlt' : (index <? S n) = true) by (apply Nat.ltb_lt; lia).
    rewrite Hlt'. simpl. rewrite Hs, He.
    destruct (splitLoop_returns raw n (end_ + 7)
                (out +:+ slice raw index start)
                (err +:+ slice raw (start + 7) end_)) as [o' Ho'].
    { apply indexOf_ge in Hs. apply indexOf_ge in He. lia. }
    rewrite Ho'. f_equal.
    apply splitLoop_fuel_mono in Ho'. rewrite <- Hn in Ho'. congruence.
Qed.

End DemuxFacts.

(** ** Claim C2: the demultiplexer on the documented example, and a missing
       closing marker *)

Module C2.
Import JsString Demux DemuxFacts.

(** C2.  [splitUmpleSyncOutput] splits ["ok ERROR!!{'x':1}!!ERRORmore"]
    (with double quotes for the apostrophes) into stdout ["ok more"] and
    stderr ["{'x':1}"]; and whenever the scan of an input reaches an
    opening marker [ERROR!!] after which no closing marker [!!ERROR]
    follows, everything after that opening marker is appended to stderr
    and nothing of it reaches stdout. *)
Theorem split_example_and_missing_close :
  splitUmpleSyncOutput (dq "ok ERROR!!{'x':1}!!ERRORmore")
  = {| stdout := "ok more"; stderr := dq "{'x':1}" |}
  /\ forall raw index out err start,
       Scanned raw index out err ->
       index < String.length raw ->
       indexOf raw OPEN index = Some start ->
       indexOf raw CLOSE (start + 7) = None ->
       splitUmpleSyncOutput raw
       = {| stdout := out +:+ slice raw index start;
            stderr := err +:+ sliceFrom raw (start + 7) |}.
Proof.
  split; [reflexivity|].
  intros raw index out err start Hsc Hlt Hs He.
  apply Scanned_result in Hsc.
  destruct (String.length raw) as [|n] eqn:Hn; [lia|].
  simpl in Hsc. rewrite Hn in Hsc.
  assert (Hlt' : (index <? S n) = true) by (apply Nat.ltb_lt; lia).
  rewrite Hlt' in Hsc. simpl in Hsc. rewrite Hs, He in Hsc.
  congruence.
Qed.

(** Two inputs without a final closing marker: one whose first opening
    marker is never closed, and one where a complete pair comes first. *)
Lemma split_missing_close_witness :
  splitUmpleSyncOutput "out ERROR!!trailing content"
  = {| stdout := "out "; stderr := "trailing content" |}
  /\ Scanned "a ERROR!!b!!ERROR c ERROR!!tail" 17 "a " "b"
  /\ splitUmpleSyncOutput "a ERROR!!b!!ERROR c ERROR!!tail"
     = {| stdout := "a  c "; stderr := "btail" |}.
Proof.
  assert (H : Scanned "a ERROR!!b!!ERROR c ERROR!!tail" 17 "a " "b").
  { apply (Scanned_pair "a ERROR!!b!!ERROR c ERROR!!tail" 0 "" "" 2 10).
    - constructor.
    - simpl; lia.
    - reflexivity.
    - reflexivity. }
  split; [|split; [exact H|]].
  - apply (proj2 split_example_and_missing_close
             "out ERROR!!trailing content" 0 "" "" 4).
    + constructor.
    + simpl; lia.
    + reflexivity.
    + reflexivity.
  - apply (proj2 split_example_and_missing_close
             "a ERROR!!b!!ERROR c ERROR!!tail" 17 "a " "b" 20 H).
    + simpl; lia.
    + reflexivity.
    + reflexivity.
Defined.

End C2.

(** ** Claims C1 and C10: diagnostics from the compiler's error records *)

Module DiagnosticsFacts.
Import JsString JsNumber Json Lsp Diagnostics.

(** [searchNonSpace] finds the first character that is not white space. *)
Lemma searchNonSpace_first s :
  forall i, searchNonSpace s = Some i ->
    (exists c, String.get i s = Some c /\ isWhiteSpace c = false)
    /\ forall j c, j < i -> String.get j s = Some c -> isWhiteSpace c = true.
Proof.
  induction s as [|a s IH]; intros i H; simpl in H; [discriminate|].
  destruct (isWhiteSpace a) eqn:Ha.
  - destruct (searchNonSpace s) as [k|]; [|discriminate].
    inversion H; subst; clear H.
    destruct (IH k eq_refl) as [[c [Hc1 Hc2]] Hlt].
    split; [exists c; split; assumption|].
    intros [|j] c' Hj Hget; simpl in Hget.
    + inversion Hget; subst; exact Ha.
    + apply (Hlt j); [lia|exact Hget].
  - inversion H; subst; clear H. split.
    + exists a. split; [reflexivity|exact Ha].
    + intros j c Hj; lia.
Qed.

Lemma searchNonSpace_none s :
  searchNonSpace s = None ->
  forall j c, String.get j s = Some c -> isWhiteSpace c = true.
Proof.
  induction s as [|a s IH]; intros H j c Hget; simpl in *; [discriminate|].
  destruct (isWhiteSpace a) eqn:Ha; [|discriminate].
  destruct (searchNonSpace s) as [k|]; [discriminate|].
  destruct j as [|j]; [inversion Hget; subst; exact Ha|].
  apply (IH eq_refl j c Hget).
Qed.

(** What the callback computes, field by field. *)
Lemma toDiagnostic_Some lines result d :
  toDiagnostic lines result = Some d ->
  exists line lineNumber sev severityValue errorCode message details,
    member result "line" = Some line
    /\ lineNumberOf line = Some lineNumber
    /\ member result "severity" = Some sev
    /\ severityValueOf sev = Some severityValue
    /\ member result "errorCode" = Some errorCode
    /\ member result "message" = Some message
    /\ detailsOf (severityOf severityValue) errorCode message = Some details
    /\ d = {| severity := severityOf severityValue;
              range :=
                Range_create
                  (Position_create lineNumber
                     (ofNat (match searchNonSpace (lineAt lines lineNumber)
                             with Some i => i | None => 0 end)))
                  (Position_create lineNumber
                     (ofNat (String.length (lineAt lines lineNumber))));
              message := joinStrings ": " details;
              source := "umple" |}.
Proof.
  unfold toDiagnostic. intros H.
  apply bind_Some in H as (line & Hline & H).
  apply bind_Some in H as (lineNumber & Hnum & H).
  apply bind_Some in H as (sev & Hsev & H).
  apply bind_Some in H as (severityValue & Hval & H).
  apply bind_Some in H as (errorCode & Hcode & H).
  apply bind_Some in H as (message & Hmsg & H).
  apply bind_Some in H as (details & Hdet & H).
  inversion H; subst; clear H.
  exists line, lineNumber, sev, severityValue, errorCode, message, details.
  repeat split; assumption.
Qed.

Lemma extractJson_nonempty text j : extractJson text = Some j -> text <> "".
Proof. intros H ->. discriminate. Qed.

End DiagnosticsFacts.

Module C1.
Import JsString JsNumber Json Lsp Diagnostics DiagnosticsFacts.
Import TextDocuments.

Definition payload : string :=
  dq "{'results':[{'line':'3','severity':'1','errorCode':'12','message':'bad'}]}".

(** [s.search(/\S/)], with [0] for [-1]. *)
Definition firstNonSpace (s : string) : nat :=
  match searchNonSpace s with Some i => i | None => 0 end.

(** C1.  When the error stream carries the record
    [{line:'3', severity:'1', errorCode:'12', message:'bad'}] and the
    document has five lines, [parseUmpleJsonDiagnostics] returns exactly
    one diagnostic: severity Error, on line index 2, from the first
    character of that line that is not white space to the length of the
    line, with message ["E12: bad"].  In general the severity of a
    diagnostic is Warning when the numeric severity value of its record
    is above 2 and Error for every other value. *)
Theorem diagnostics_example_and_severity :
  (forall stderr document l0 l1 l2 l3 l4,
      extractJson (trim stderr) = Some payload ->
      splitLines (getText document) = [l0; l1; l2; l3; l4] ->
      parseUmpleJsonDiagnostics stderr document
      = [ {| severity := Error;
             range :=
               Range_create
                 (Position_create (Finite 2 0) (ofNat (firstNonSpace l2)))
                 (Position_create (Finite 2 0) (ofNat (String.length l2)));
             message := "E12: bad";
             source := "umple" |} ])
  /\ (forall lines result d,
         toDiagnostic lines result = Some d ->
         exists sev severityValue,
           member result "severity" = Some sev
           /\ severityValueOf sev = Some severityValue
           /\ severity d
              = if gt severityValue (Finite 2 0) then Warning else Error).
Proof.
  split.
  - intros stderr document l0 l1 l2 l3 l4 Hjson Hlines.
    unfold parseUmpleJsonDiagnostics, resultsOf.
    pose proof (extractJson_nonempty _ _ Hjson) as Hne.
    destruct (trim stderr) as [|c t] eqn:Ht; [congruence|].
    rewrite Hjson, Hlines. reflexivity.
  - intros lines result d H.
    apply toDiagnostic_Some in H
      as (line & lineNumber & sev & severityValue & errorCode & message
          & details & _ & _ & Hsev & Hval & _ & _ & _ & ->).
    exists sev, severityValue. repeat split; assumption.
Qed.

Definition sample : TextDocument :=
  {| uri := "file:///project/model.ump"; languageId := "umple";
     version := 1;
     content := "class A {" +:+ NL +:+ "  name;" +:+ NL
                +:+ "    Integer x" +:+ NL +:+ "}" +:+ NL |}.

(** The example on a concrete five-line document, and the severity rule
    on a record of severity 3. *)
Lemma diagnostics_witness :
  parseUmpleJsonDiagnostics ("noise " +:+ payload +:+ NL) sample
  = [ {| severity := Error;
         range := Range_create (Position_create (Finite 2 0) (Finite 4 0))
                               (Position_create (Finite 2 0) (Finite 13 0));
         message := "E12: bad";
         source := "umple" |} ]
  /\ exists d,
       toDiagnostic [] (JObject [("severity", JString "3")]) = Some d
       /\ severity d = Warning.
Proof.
  split.
  - apply (proj1 diagnostics_example_and_severity
             ("noise " +:+ payload +:+ NL) sample
             "class A {" "  name;" "    Integer x" "}" "");
      reflexivity.
  - eexists. split; [reflexivity|].
    destruct (proj2 diagnostics_example_and_severity []
                (JObject [("severity", JString "3")]) _ eq_refl)
      as (sev & v & Hsev & Hv & Hd).
    rewrite Hd. inversion Hsev; subst. inversion Hv; subst. reflexivity.
Defined.

End C1.

Module C10.
Import JsString JsNumber Json Lsp Diagnostics DiagnosticsFacts.



End C10.

(** ** Claim C5: the context scanner *)

Module ContextFacts.
Import JsString TextDocuments Context.

Lemma append_cons x (a b : string) :
  String x a +:+ b = String x (a +:+ b).
Proof. reflexivity. Qed.

Lemma append_nil (b : string) : "" +:+ b = b.
Proof. reflexivity. Qed.

Lemma append_assoc (a b c : string) : (a +:+ b) +:+ c = a +:+ (b +:+ c).
Proof.
  induction a as [|x a IH]; [reflexivity|].
  rewrite !append_cons. now rewrite IH.
Qed.

Lemma append_empty_r (a : string) : a +:+ "" = a.
Proof.
  induction a as [|x a IH]; [reflexivity|].
  rewrite append_cons. now rewrite IH.
Qed.

Lemma length_append (a b : string) :
  String.length (a +:+ b) = String.length a + String.length b.
Proof.
  induction a as [|x a IH]; [reflexivity|].
  rewrite append_cons. simpl. now rewrite IH.
Qed.

(** One iteration of the loop. *)
Lemma scan_unfold ch rest st :
  scan (String ch rest) st =
  let next :=
    match rest with String c _ => Some c | EmptyString => None end in
  let skip :=
    match rest with String _ r => r | EmptyString => rest end in
  if inLineComment st then
    if Ascii.eqb ch LF then scan rest (withMode st false false false)
    else scan rest st
  else if inBlockComment st then
    if Ascii.eqb ch "*" && nextIs next "/"
    then scan skip (withMode st false false false)
    else scan rest st
  else if inString st then
    if Ascii.eqb ch "\" then scan skip st
    else if Ascii.eqb ch "034" then
      scan rest (withMode st false false false)
    else scan rest st
  else if Ascii.eqb ch "/" && nextIs next "/" then
    scan skip (withMode st true false false)
  else if Ascii.eqb ch "/" && nextIs next "*" then
    scan skip (withMode st false true false)
  else if Ascii.eqb ch "034" then
    scan rest (withMode st false false true)
  else if isWordStart ch then wordLoop st (String ch "") rest
  else if Ascii.eqb ch "{" then scan rest (openBrace st)
  else if Ascii.eqb ch "}" then scan rest (closeBrace st)
  else scan rest st.
Proof. reflexivity. Qed.


Lemma wordLoop_nil st acc : wordLoop st acc "" = afterWord acc st.
Proof. reflexivity. Qed.



(** *** A brace appended to the text *)




(** *** Text without braces, comments or string literals *)







(** *** Braces met outside comments and string literals *)

Lemma inCode_flags st :
  inCode st = true ->
  inLineComment st = false /\ inBlockComment st = false
  /\ inString st = false.
Proof.
  unfold inCode. intros H. apply negb_true_iff in H.
  apply orb_false_iff in H as [H Hs]. apply orb_false_iff in H as [Hl Hb].
  auto.
Qed.



(** *** The final loop against the specification's reading *)




(** *** A closed scope followed by more text, and what the window of the
        scan can make of it *)








End ContextFacts.

Module C5.
Import JsString TextDocuments Context ContextFacts.





End C5.

(** ** Reasoning about handlers: what every step of a handler respects *)

Module Reasoning.
Import Platform ServerState Server.

(** Events other than starting the service and the timer calls. *)
Definition passive (e : Event) : bool :=
  match e with
  | Spawn _ _ | SetTimeout _ _ _ | ClearTimeout _ | TimerFired _ _ => false
  | _ => true
  end.

Section Runs.

Variable R : State -> State -> Prop.
Hypothesis R_refl : forall s, R s s.
Hypothesis R_trans : forall s1 s2 s3, R s1 s2 -> R s2 s3 -> R s1 s3.

(** Whatever [m] does, the state after it is related to the state before. *)
Definition Runs {A} (m : M A) : Prop := forall s, R s (snd (m s)).

Lemma Runs_ret {A} (a : A) : Runs (ret a).
Proof. intros s. apply R_refl. Qed.

Lemma Runs_throw {A} (e : JsError) : Runs (@throw A e).
Proof. intros s. apply R_refl. Qed.

Lemma Runs_get : Runs get.
Proof. intros s. apply R_refl. Qed.

Lemma Runs_bind {A B} (m : M A) (k : A -> M B) :
  Runs m -> (forall a, Runs (k a)) -> Runs (bind m k).
Proof.
  intros Hm Hk s. unfold bind. specialize (Hm s).
  destruct (m s) as [[a|e] s']; simpl in *; [|exact Hm].
  eapply R_trans; [exact Hm|apply Hk].
Qed.

Lemma Runs_tryCatch {A} (m : M A) (h : JsError -> M A) :
  Runs m -> (forall e, Runs (h e)) -> Runs (tryCatch m h).
Proof.
  intros Hm Hh s. unfold tryCatch. specialize (Hm s).
  destruct (m s) as [[a|e] s']; simpl in *; [exact Hm|].
  eapply R_trans; [exact Hm|apply Hh].
Qed.

Lemma Runs_tryFinally {A} (m : M A) (final : M unit) :
  Runs m -> Runs final -> Runs (tryFinally m final).
Proof.
  intros Hm Hf s. unfold tryFinally. specialize (Hm s).
  destruct (m s) as [r s']. specialize (Hf s'). simpl in *.
  destruct (final s') as [[u|e] s'']; simpl in *;
    eapply R_trans; eassumption.
Qed.

Lemma Runs_forEach {A} (l : list A) (body : A -> M unit) :
  (forall x, Runs (body x)) -> Runs (forEach l body).
Proof.
  intros Hb. induction l as [|x l IH]; simpl.
  - apply Runs_ret.
  - apply Runs_bind; [apply Hb|intros _; exact IH].
Qed.

Hypothesis R_passive : forall e s, passive e = true -> R s (record e s).
Hypothesis R_documents : forall d s, R s (set_documents d s).
Hypothesis R_modelCache : forall c s, R s (set_modelCache c s).
Hypothesis R_jarWarningShown : forall b s, R s (set_jarWarningShown b s).

Variable env : Env.
Variable buildModelCompletions : Json.json -> list CompletionItem.

Hypothesis R_start : forall jarPath, Runs (startUmpleSyncServer jarPath).
Hypothesis R_schedule : forall document, Runs (scheduleValidation document).

Lemma Runs_emit e : passive e = true -> Runs (emit e).
Proof. intros H s. now apply R_passive. Qed.

Lemma Runs_modify f : (forall s, R s (f s)) -> Runs (modify f).
Proof. intros H s. apply H. Qed.

Ltac runs_step :=
  match goal with
  | |- Runs (bind _ _) => apply Runs_bind; [|intros ?]
  | |- Runs (tryCatch _ _) => apply Runs_tryCatch; [|intros ?]
  | |- Runs (tryFinally _ _) => apply Runs_tryFinally
  | |- Runs (ret _) => apply Runs_ret
  | |- Runs (throw _) => apply Runs_throw
  | |- Runs get => apply Runs_get
  | |- Runs (emit _) => apply Runs_emit; reflexivity
  | |- Runs (forEach _ _) => apply Runs_forEach; intros ?
  | |- Runs (modify _) => apply Runs_modify; intros ?
  | |- Runs (match ?x with _ => _ end) => destruct x
  | |- R ?s (set_documents _ ?s) => apply R_documents
  | |- R ?s (set_modelCache _ ?s) => apply R_modelCache
  | |- R ?s (set_jarWarningShown _ ?s) => apply R_jarWarningShown
  end.

Ltac runs := repeat runs_step; eauto.

Lemma Runs_callFs op : Runs (callFs env op).
Proof.
  intros s. unfold callFs. destruct (fs env (now s) op); now apply R_passive.
Qed.

Lemma Runs_callExistsSync path : Runs (callExistsSync env path).
Proof. intros s. now apply R_passive. Qed.

Lemma Runs_callMkdtemp prefix : Runs (callMkdtemp env prefix).
Proof. intros s. now apply R_passive. Qed.

Lemma Runs_callExecFile command args : Runs (callExecFile env command args).
Proof. intros s. now apply R_passive. Qed.

Lemma Runs_delay ms : Runs (delay ms).
Proof. apply Runs_emit. reflexivity. Qed.

Lemma Runs_connectAndSend commandLine : Runs (connectAndSend env commandLine).
Proof.
  intros s. unfold connectAndSend.
  destruct (socket env (exchanges s) commandLine); now apply R_passive.
Qed.

Lemma Runs_retry n commandLine error : Runs (retry env n commandLine error).
Proof.
  induction n as [|n IH]; simpl; [apply Runs_throw|].
  apply Runs_tryCatch; [apply Runs_connectAndSend|].
  intros e. destruct (isConnectionError e); [|apply Runs_throw].
  apply Runs_bind; [apply Runs_delay|intros _; exact IH].
Qed.

Lemma Runs_sendUmpleSyncCommand jarPath commandLine :
  Runs (sendUmpleSyncCommand env jarPath commandLine).
Proof.
  unfold sendUmpleSyncCommand.
  apply Runs_tryCatch; [apply Runs_connectAndSend|].
  intros e. destruct (isConnectionError e); [|apply Runs_throw].
  apply Runs_bind; [apply R_start|].
  intros [|]; [apply Runs_retry|apply Runs_throw].
Qed.

Lemma Runs_cleanup t : Runs (cleanup env t).
Proof. apply Runs_callFs. Qed.

Lemma Runs_writeTempUmpleFile document label :
  Runs (writeTempUmpleFile env document label).
Proof.
  unfold writeTempUmpleFile.
  destruct (getDocumentDirectory env document) as [baseDir|].
  - intros s. apply R_refl.
  - runs. apply Runs_callMkdtemp.
Qed.

Lemma Runs_resolveJarPath : Runs (resolveJarPath env).
Proof. unfold resolveJarPath. runs. apply Runs_callExistsSync. Qed.

Lemma Runs_parseUmpleDiagnostics stderr stdout document :
  Runs (parseUmpleDiagnostics stderr stdout document).
Proof. unfold parseUmpleDiagnostics. runs. Qed.

Lemma Runs_runUmpleSyncAndParseDiagnostics jarPath document :
  Runs (runUmpleSyncAndParseDiagnostics env jarPath document).
Proof.
  unfold runUmpleSyncAndParseDiagnostics. runs.
  - apply Runs_writeTempUmpleFile.
  - apply Runs_callFs.
  - apply Runs_sendUmpleSyncCommand.
  - apply Runs_parseUmpleDiagnostics.
  - apply Runs_cleanup.
Qed.

Lemma Runs_validateTextDocument document :
  Runs (validateTextDocument env document).
Proof.
  unfold validateTextDocument. runs.
  - apply Runs_resolveJarPath.
  - apply Runs_runUmpleSyncAndParseDiagnostics.
Qed.

Lemma Runs_generateModelJson document : Runs (generateModelJson env document).
Proof.
  unfold generateModelJson. runs.
  - apply Runs_resolveJarPath.
  - apply Runs_writeTempUmpleFile.
  - apply Runs_callFs.
  - apply Runs_sendUmpleSyncCommand.
  - apply Runs_cleanup.
Qed.

Lemma Runs_rebuildModelCompletions document :
  Runs (rebuildModelCompletions env buildModelCompletions document).
Proof.
  unfold rebuildModelCompletions. runs; apply Runs_generateModelJson.
Qed.

Lemma Runs_getModelCompletions document :
  Runs (getModelCompletions env buildModelCompletions document).
Proof.
  unfold getModelCompletions. runs. apply Runs_rebuildModelCompletions.
Qed.

Lemma Runs_onCompletion_modelItems uri :
  Runs (onCompletion_modelItems env buildModelCompletions uri).
Proof.
  unfold onCompletion_modelItems. runs. apply Runs_getModelCompletions.
Qed.

Lemma Runs_mirrorFile workspaceRoot shadowRoot filePath :
  Runs (mirrorFile env workspaceRoot shadowRoot filePath).
Proof. unfold mirrorFile. runs; apply Runs_callFs. Qed.

Lemma Runs_walkListing onFile :
  (forall p, Runs (onFile p)) ->
  forall listing dir, Runs (walkListing dir listing onFile).
Proof.
  intros Hfile. fix IH 1. intros [entries|e] dir; cbn [walkListing].
  - revert entries. fix IHentries 1. intros [|entry rest].
    + apply Runs_ret.
    + destruct entry as [name|name|name sub]; cbn [walkListing].
      * destruct (endsWith name ".ump"); [|apply IHentries].
        apply Runs_bind; [apply Hfile|intros _; apply IHentries].
      * apply IHentries.
      * destruct (existsb (String.eqb name) SKIP_DIRS); [apply IHentries|].
        apply Runs_bind; [apply Runs_emit; reflexivity|intros _].
        apply Runs_bind; [apply IH|intros _; apply IHentries].
  - apply Runs_throw.
Qed.

Lemma Runs_createShadowWorkspace document label :
  Runs (createShadowWorkspace env document label).
Proof.
  unfold createShadowWorkspace, mirrorWorkspaceUmpleFiles, walkUmpleFiles,
    overlayOpenDocuments, overlayDocument.
  runs; try apply Runs_callFs; try apply Runs_callMkdtemp.
  apply Runs_walkListing. intros p. apply Runs_mirrorFile.
Qed.

Lemma Runs_resolveGoToDefSettings : Runs (resolveGoToDefSettings env).
Proof. unfold resolveGoToDefSettings. runs; apply Runs_callExistsSync. Qed.

Lemma Runs_onDefinition uri line character :
  Runs (onDefinition env uri line character).
Proof.
  unfold onDefinition. runs;
    try apply Runs_callFs; try apply Runs_cleanup;
    try apply Runs_callExecFile; try apply Runs_writeTempUmpleFile;
    try apply Runs_createShadowWorkspace;
    try apply Runs_resolveGoToDefSettings.
Qed.

Lemma Runs_onDidOpenTextDocument uri languageId version text :
  Runs (onDidOpenTextDocument uri languageId version text).
Proof. unfold onDidOpenTextDocument. runs. Qed.

Lemma Runs_onDidChangeTextDocument uri version changes :
  Runs (onDidChangeTextDocument uri version changes).
Proof. unfold onDidChangeTextDocument. runs. Qed.

Lemma Runs_onDidCloseTextDocument uri : Runs (onDidCloseTextDocument uri).
Proof. unfold onDidCloseTextDocument. runs. Qed.

(** Every reaction respects [R] when the timer callback does. *)
Lemma Runs_step :
  (forall handle, Runs (timerFires env handle)) ->
  forall s i, R s (step env buildModelCompletions s i).
Proof.
  intros Htimer s [uri languageId version text|uri version changes|uri|uri
                  |uri line character|handle]; simpl.
  - apply Runs_onDidOpenTextDocument.
  - apply Runs_onDidChangeTextDocument.
  - apply Runs_onDidCloseTextDocument.
  - apply Runs_onCompletion_modelItems.
  - apply Runs_onDefinition.
  - apply Htimer.
Qed.

Lemma Runs_run :
  (forall handle, Runs (timerFires env handle)) ->
  forall inputs s, R s (run env buildModelCompletions s inputs).
Proof.
  intros Htimer. induction inputs as [|i inputs IH]; intros s; simpl.
  - apply R_refl.
  - eapply R_trans; [apply Runs_step; exact Htimer|apply IH].
Qed.

End Runs.

End Reasoning.

(** ** Claim C7: the bridge's retry policy *)

Module BridgeFacts.
Import JsNumber Demux Platform ServerState Server Reasoning.
Local Open Scope list_scope.

Definition isSpawn (e : Event) : bool :=
  match e with Spawn _ _ => true | _ => false end.

(** How often the service process was started. *)
Definition spawns (events : list Event) : nat :=
  List.length (List.filter isSpawn events).

(** The process variable and the [Spawn] events agree: no process yet
    means no start yet, and there is never a second start. *)
Definition SpawnedOnce (s : State) : Prop :=
  (serverProcess s = None -> spawns (trace s) = 0)
  /\ spawns (trace s) <= 1.

Definition KeepsSpawnedOnce (s s' : State) : Prop :=
  SpawnedOnce s -> SpawnedOnce s'.

(** The event of one socket exchange. *)
Definition connectEvent (s : State) (commandLine : string) : Event :=
  Connect (umpleSyncHost (config s)) (umpleSyncPort (config s)) commandLine.

Definition spawnEvent (s : State) (jarPath : string) : Event :=
  Spawn "java"
    ["-jar"; jarPath; "-server"; decimalOfZ (umpleSyncPort (config s))].

(** The events of at most [n] retries: every exchange that is followed by
    another one is followed by the fixed delay first. *)
Inductive RetryEvents (c : Event) : nat -> list Event -> Prop :=
| Retry_exhausted : RetryEvents c 0 []
| Retry_settled n : RetryEvents c (S n) [c]
| Retry_failed n events :
    RetryEvents c n events ->
    RetryEvents c (S n) (c :: Delay 150 :: events).

(** The state after [n] exchanges that each failed and were followed by
    the delay. *)
Fixpoint failedRetries (n : nat) (c : Event) (s : State) : State :=
  match n with
  | O => s
  | S n' => failedRetries n' c (record (Delay 150) (record c s))
  end.

Lemma spawns_app events e :
  spawns (events ++ [e]) = spawns events + (if isSpawn e then 1 else 0).
Proof.
  unfold spawns. rewrite List.filter_app, length_app. simpl.
  destruct (isSpawn e); reflexivity.
Qed.

Lemma KeepsSpawnedOnce_refl s : KeepsSpawnedOnce s s.
Proof. intros H; exact H. Qed.

Lemma KeepsSpawnedOnce_trans s1 s2 s3 :
  KeepsSpawnedOnce s1 s2 -> KeepsSpawnedOnce s2 s3 -> KeepsSpawnedOnce s1 s3.
Proof. unfold KeepsSpawnedOnce. tauto. Qed.

Lemma SpawnedOnce_record e s :
  isSpawn e = false -> SpawnedOnce s -> SpawnedOnce (record e s).
Proof.
  intros He [H0 H1]. unfold SpawnedOnce, record. simpl.
  rewrite spawns_app, He, Nat.add_0_r. auto.
Qed.

Lemma KeepsSpawnedOnce_record e s :
  isSpawn e = false -> KeepsSpawnedOnce s (record e s).
Proof. intros He H. now apply SpawnedOnce_record. Qed.

Lemma passive_not_spawn e : passive e = true -> isSpawn e = false.
Proof. destruct e; simpl; congruence. Qed.

Lemma KeepsSpawnedOnce_start jarPath :
  Runs KeepsSpawnedOnce (startUmpleSyncServer jarPath).
Proof.
  intros s H. unfold startUmpleSyncServer.
  destruct (serverProcess s) as [p|] eqn:Hp; simpl; [exact H|].
  destruct H as [H0 _]. specialize (H0 Hp).
  unfold SpawnedOnce. simpl. rewrite spawns_app. simpl.
  rewrite H0. split; [discriminate|lia].
Qed.

Lemma KeepsSpawnedOnce_clearTimeout handle :
  Runs KeepsSpawnedOnce (clearTimeout handle).
Proof. intros s H. now apply (SpawnedOnce_record (ClearTimeout handle)). Qed.

Lemma KeepsSpawnedOnce_schedule document :
  Runs KeepsSpawnedOnce (scheduleValidation document).
Proof.
  intros s H. unfold scheduleValidation, bind, get. simpl.
  destruct (pendingValidations s !! TextDocuments.uri document) as [h|];
    simpl.
  - apply (SpawnedOnce_record (SetTimeout _ _ _)); [reflexivity|].
    now apply (SpawnedOnce_record (ClearTimeout h)).
  - now apply (SpawnedOnce_record (SetTimeout _ _ _)).
Qed.

Section Lifetime.

Variable env : Env.
Variable buildModelCompletions : Json.json -> list CompletionItem.

Lemma KeepsSpawnedOnce_passive e s :
  passive e = true -> KeepsSpawnedOnce s (record e s).
Proof. intros He. apply KeepsSpawnedOnce_record. now apply passive_not_spawn. Qed.

Lemma KeepsSpawnedOnce_validate document :
  Runs KeepsSpawnedOnce (validateTextDocument env document).
Proof.
  exact (Runs_validateTextDocument KeepsSpawnedOnce KeepsSpawnedOnce_refl
           KeepsSpawnedOnce_trans KeepsSpawnedOnce_passive
           (fun _ _ H => H) env KeepsSpawnedOnce_start document).
Qed.

Lemma KeepsSpawnedOnce_timerFires handle :
  Runs KeepsSpawnedOnce (timerFires env handle).
Proof.
  intros s H. unfold timerFires, bind, get. simpl.
  destruct (timers s !! handle) as [document|]; [|exact H]. simpl.
  unfold tryCatch.
  match goal with
  | |- context [validateTextDocument env document ?s0] =>
      pose proof (KeepsSpawnedOnce_validate document s0) as Hv;
      destruct (validateTextDocument env document s0) as [[u|e] s1]
  end; simpl in *.
  - apply Hv. now apply (SpawnedOnce_record (TimerFired _ _)).
  - apply SpawnedOnce_record; [reflexivity|].
    apply Hv. now apply (SpawnedOnce_record (TimerFired _ _)).
Qed.

(** The service process is started at most once, whatever the server is
    asked to do. *)
Lemma spawned_once_for_life config inputs :
  spawns (trace (run env buildModelCompletions (initialState config) inputs))
  <= 1.
Proof.
  assert (H : KeepsSpawnedOnce (initialState config)
                (run env buildModelCompletions (initialState config) inputs)).
  { exact (Runs_run KeepsSpawnedOnce KeepsSpawnedOnce_refl
             KeepsSpawnedOnce_trans KeepsSpawnedOnce_passive
             (fun _ _ H => H) (fun _ _ H => H) (fun _ _ H => H)
             env buildModelCompletions KeepsSpawnedOnce_start
             KeepsSpawnedOnce_schedule KeepsSpawnedOnce_timerFires
             inputs (initialState config)). }
  apply H. split; [reflexivity|]. unfold spawns. simpl. lia.
Qed.

(** *** One command *)

Lemma connectAndSend_state commandLine s :
  snd (connectAndSend env commandLine s) = record (connectEvent s commandLine) s.
Proof.
  unfold connectAndSend.
  destruct (socket env (exchanges s) commandLine); reflexivity.
Qed.

Lemma exchanges_connect s commandLine :
  exchanges (record (connectEvent s commandLine) s) = S (exchanges s).
Proof.
  unfold exchanges, record. simpl.
  rewrite List.filter_app, length_app. simpl. lia.
Qed.

Lemma exchanges_delay s ms : exchanges (record (Delay ms) s) = exchanges s.
Proof.
  unfold exchanges, record. simpl.
  rewrite List.filter_app, length_app. simpl. lia.
Qed.

Lemma retry_events n commandLine error :
  forall s,
    exists events,
      trace (snd (retry env n commandLine error s)) = trace s ++ events
      /\ RetryEvents (connectEvent s commandLine) n events.
Proof.
  induction n as [|n IH]; intros s; simpl.
  - exists []. rewrite app_nil_r. split; [reflexivity|constructor].
  - unfold tryCatch.
    pose proof (connectAndSend_state commandLine s) as Hstate.
    destruct (connectAndSend env commandLine s) as [[out|e] s1];
      simpl in Hstate; subst s1.
    + exists [connectEvent s commandLine]. split; [reflexivity|constructor].
    + destruct (isConnectionError e).
      * unfold bind, delay, emit.
        destruct (IH (record (Delay 150) (record (connectEvent s commandLine) s)))
          as (events & Htrace & Hevents).
        exists (connectEvent s commandLine :: Delay 150 :: events).
        split; [|now constructor].
        rewrite Htrace. simpl. rewrite <- !app_assoc. reflexivity.
      * exists [connectEvent s commandLine]. split; [reflexivity|constructor].
Qed.

Lemma retry_all_fail commandLine error n :
  forall s,
    (forall k, k < n ->
       exists e, socket env (exchanges s + k) commandLine = SocketError e
                 /\ isConnectionError e = true) ->
    retry env n commandLine error s
    = (Thrown error, failedRetries n (connectEvent s commandLine) s).
Proof.
  induction n as [|n IH]; intros s Hfail; [reflexivity|].
  simpl. unfold tryCatch, connectAndSend.
  destruct (Hfail 0) as (e & He & Hconn); [lia|].
  rewrite Nat.add_0_r in He. rewrite He, Hconn.
  unfold bind, delay, emit. fold (connectEvent s commandLine).
  rewrite IH; [reflexivity|].
  intros k Hk. rewrite exchanges_delay, exchanges_connect.
  destruct (Hfail (S k)) as (e' & He' & Hconn'); [lia|].
  exists e'. split; [|exact Hconn'].
  rewrite <- He'. f_equal. lia.
Qed.

End Lifetime.

End BridgeFacts.

Module C7.
Import JsNumber Demux Platform ServerState Server Reasoning BridgeFacts.
Local Open Scope list_scope.

(** C7.  [sendUmpleSyncCommand]: (1) when the first exchange fails with an
    error that is not of the connection class, that error is thrown at once
    and the exchange is the only event: no start of the service, no retry;
    (2) when it fails with ECONNREFUSED, ECONNRESET or EPIPE, the service
    is started only if no process is recorded yet, and the same command is
    retried at most five times, each retry that is followed by another one
    being followed by the delay of 150 ms first; (3) over the whole life of
    the server the service is started at most once; (4) when all five
    retries fail with connection errors too, the error of the first
    exchange is the one thrown. *)
Theorem bridge_retry_policy :
  (forall env jarPath commandLine s e s1,
      connectAndSend env commandLine s = (Thrown e, s1) ->
      isConnectionError e = false ->
      sendUmpleSyncCommand env jarPath commandLine s = (Thrown e, s1)
      /\ s1 = record (connectEvent s commandLine) s)
  /\ (forall env jarPath commandLine s e s1,
         connectAndSend env commandLine s = (Thrown e, s1) ->
         isConnectionError e = true ->
         let s2 := snd (startUmpleSyncServer jarPath s1) in
         sendUmpleSyncCommand env jarPath commandLine s
         = retry env 5 commandLine e s2
         /\ trace s2
            = trace s ++ connectEvent s commandLine
                         :: match serverProcess s with
                            | Some _ => []
                            | None => [spawnEvent s jarPath]
                            end
         /\ exists events,
              trace (snd (retry env 5 commandLine e s2)) = trace s2 ++ events
              /\ RetryEvents (connectEvent s commandLine) 5 events)
  /\ (forall env buildModelCompletions config inputs,
         spawns (trace (run env buildModelCompletions (initialState config)
                          inputs)) <= 1)
  /\ (forall env jarPath commandLine s e,
         socket env (exchanges s) commandLine = SocketError e ->
         isConnectionError e = true ->
         (forall k, 1 <= k <= 5 ->
            exists e', socket env (exchanges s + k) commandLine = SocketError e'
                       /\ isConnectionError e' = true) ->
         fst (sendUmpleSyncCommand env jarPath commandLine s) = Thrown e).
Proof.
  split; [|split; [|split]].
  - intros env jarPath commandLine s e s1 Hfirst Hconn.
    unfold sendUmpleSyncCommand, tryCatch. rewrite Hfirst, Hconn.
    split; [reflexivity|].
    pose proof (connectAndSend_state env commandLine s) as H.
    rewrite Hfirst in H. exact H.
  - intros env jarPath commandLine s e s1 Hfirst Hconn s2.
    pose proof (connectAndSend_state env commandLine s) as Hs1.
    rewrite Hfirst in Hs1. simpl in Hs1.
    split; [|split].
    + unfold sendUmpleSyncCommand, tryCatch. rewrite Hfirst, Hconn.
      unfold bind. subst s2. unfold startUmpleSyncServer.
      destruct (serverProcess s1); reflexivity.
    + subst s2 s1. unfold startUmpleSyncServer. simpl.
      destruct (serverProcess s); simpl; [reflexivity|].
      rewrite <- app_assoc. reflexivity.
    + destruct (retry_events env 5 commandLine e s2) as (events & Ht & Hev).
      exists events. split; [exact Ht|].
      replace (connectEvent s commandLine) with (connectEvent s2 commandLine);
        [exact Hev|].
      subst s2 s1. unfold startUmpleSyncServer, connectEvent. simpl.
      destruct (serverProcess s); reflexivity.
  - intros env build config inputs. apply spawned_once_for_life.
  - intros env jarPath commandLine s e Hfirst Hconn Hretries.
    unfold sendUmpleSyncCommand, tryCatch, connectAndSend.
    rewrite Hfirst, Hconn. unfold bind.
    fold (connectEvent s commandLine).
    set (s1 := record (connectEvent s commandLine) s).
    assert (Hex : forall s2, snd (startUmpleSyncServer jarPath s1) = s2 ->
                             exchanges s2 = S (exchanges s)).
    { intros s2 <-. unfold startUmpleSyncServer.
      destruct (serverProcess s1); simpl.
      - apply exchanges_connect.
      - unfold exchanges, record. simpl.
        rewrite !List.filter_app, !length_app. simpl. lia. }
    destruct (startUmpleSyncServer jarPath s1) as [[started|e0] s2] eqn:Hst.
    + assert (started = true) as ->.
      { unfold startUmpleSyncServer in Hst.
        destruct (serverProcess s1); inversion Hst; reflexivity. }
      rewrite retry_all_fail; [reflexivity|].
      intros k Hk. rewrite (Hex s2 eq_refl).
      destruct (Hretries (S k)) as (e' & He' & Hc'); [lia|].
      exists e'. split; [|exact Hc'].
      rewrite <- He'. f_equal. lia.
    + unfold startUmpleSyncServer in Hst.
      destruct (serverProcess s1); inversion Hst.
Qed.

(** A service that stays silent, and a service that refuses every
    connection, asked for the same command by a server that has just
    started. *)
Lemma bridge_retry_witness :
  sendUmpleSyncCommand Samples.stalling "/opt/umple/umplesync.jar"
    "-generate nothing /project/t.ump" (initialState Samples.sampleConfig)
  = (Thrown Samples.timedOut,
     record (Connect "localhost" 5555 "-generate nothing /project/t.ump")
       (initialState Samples.sampleConfig))
  /\ fst (sendUmpleSyncCommand Samples.refusing "/opt/umple/umplesync.jar"
            "-generate nothing /project/t.ump"
            (initialState Samples.sampleConfig))
     = Thrown Samples.refused
  /\ trace (snd (sendUmpleSyncCommand Samples.refusing
                   "/opt/umple/umplesync.jar"
                   "-generate nothing /project/t.ump"
                   (initialState Samples.sampleConfig)))
     = let c := Connect "localhost" 5555 "-generate nothing /project/t.ump" in
       [c; Spawn "java" ["-jar"; "/opt/umple/umplesync.jar"; "-server"; "5555"];
        c; Delay 150; c; Delay 150; c; Delay 150; c; Delay 150; c; Delay 150].
Proof.
  split; [|split].
  - apply (proj1 bridge_retry_policy Samples.stalling
             "/opt/umple/umplesync.jar" "-generate nothing /project/t.ump"
             (initialState Samples.sampleConfig) Samples.timedOut);
      reflexivity.
  - apply (proj2 (proj2 (proj2 bridge_retry_policy)) Samples.refusing
             "/opt/umple/umplesync.jar" "-generate nothing /project/t.ump"
             (initialState Samples.sampleConfig) Samples.refused);
      [reflexivity|reflexivity|].
    intros k _. exists Samples.refused. split; reflexivity.
  - reflexivity.
Defined.

End C7.

(** ** Claim C3: one debounce timer per buffer *)

Module DebounceFacts.
Import Platform ServerState Server Reasoning.
Import TextDocuments.
Local Open Scope list_scope.

(** The handle of the most recent [setTimeout] for the buffer [u]. *)
Definition scheduledBy (u : string) (last : option nat) (e : Event)
    : option nat :=
  match e with
  | SetTimeout h u' _ => if String.eqb u' u then Some h else last
  | _ => last
  end.

Definition lastScheduled (events : list Event) (u : string) : option nat :=
  fold_left (scheduledBy u) events None.

(** Every pending timer is the one its buffer's entry of
    [pendingValidations] names, and the one scheduled last for that
    buffer. *)
Definition PendingAreLatest (s : State) : Prop :=
  forall h d,
    timers s !! h = Some d ->
    pendingValidations s !! uri d = Some h
    /\ lastScheduled (trace s) (uri d) = Some h
    /\ h < nextTimer s.

(** Every timer that fired was, when it fired, the one scheduled last for
    its buffer. *)
Definition FiredAreLatest (events : list Event) : Prop :=
  forall pre post h u,
    events = pre ++ TimerFired h u :: post ->
    lastScheduled pre u = Some h.

Definition Debounced (s : State) : Prop :=
  PendingAreLatest s /\ FiredAreLatest (trace s).

Definition KeepsDebounced (s s' : State) : Prop :=
  Debounced s -> Debounced s'.

Definition isSetTimeout (e : Event) : bool :=
  match e with SetTimeout _ _ _ => true | _ => false end.

Definition isTimerFired (e : Event) : bool :=
  match e with TimerFired _ _ => true | _ => false end.

Lemma lastScheduled_snoc events e u :
  lastScheduled (events ++ [e]) u = scheduledBy u (lastScheduled events u) e.
Proof. unfold lastScheduled. now rewrite fold_left_app. Qed.

Lemma lastScheduled_other events e u :
  isSetTimeout e = false ->
  lastScheduled (events ++ [e]) u = lastScheduled events u.
Proof. intros He. rewrite lastScheduled_snoc. destruct e; try reflexivity; discriminate. Qed.

Lemma FiredAreLatest_snoc events e :
  isTimerFired e = false ->
  FiredAreLatest events -> FiredAreLatest (events ++ [e]).
Proof.
  intros He H pre post h u Heq.
  destruct post as [|x post _] using rev_ind.
  - apply app_inj_tail in Heq as [_ ->]. discriminate.
  - change (pre ++ TimerFired h u :: post ++ [x])
      with (pre ++ (TimerFired h u :: post) ++ [x]) in Heq.
    rewrite app_assoc in Heq. apply app_inj_tail in Heq as [-> _].
    eapply H. reflexivity.
Qed.

Lemma FiredAreLatest_fired events h u :
  lastScheduled events u = Some h ->
  FiredAreLatest events -> FiredAreLatest (events ++ [TimerFired h u]).
Proof.
  intros Hlast H pre post h' u' Heq.
  destruct post as [|x post _] using rev_ind.
  - apply app_inj_tail in Heq as [-> Hx]. inversion Hx; subst. exact Hlast.
  - change (pre ++ TimerFired h' u' :: post ++ [x])
      with (pre ++ (TimerFired h' u' :: post) ++ [x]) in Heq.
    rewrite app_assoc in Heq. apply app_inj_tail in Heq as [-> _].
    eapply H. reflexivity.
Qed.

Lemma KeepsDebounced_refl s : KeepsDebounced s s.
Proof. intros H; exact H. Qed.

Lemma KeepsDebounced_trans s1 s2 s3 :
  KeepsDebounced s1 s2 -> KeepsDebounced s2 s3 -> KeepsDebounced s1 s3.
Proof. unfold KeepsDebounced. tauto. Qed.

(** An event that is no timer call changes nothing for the timers. *)
Lemma Debounced_record e s :
  isSetTimeout e = false -> isTimerFired e = false ->
  Debounced s -> Debounced (record e s).
Proof.
  intros Hset Hfired [Hp Hf]. split.
  - intros h d Hh. destruct (Hp h d Hh) as (H1 & H2 & H3).
    unfold record; simpl. rewrite lastScheduled_other by exact Hset. auto.
  - unfold record; simpl. now apply FiredAreLatest_snoc.
Qed.

Lemma KeepsDebounced_passive e s :
  passive e = true -> KeepsDebounced s (record e s).
Proof.
  intros He. unfold KeepsDebounced.
  apply Debounced_record; destruct e; simpl in *; congruence.
Qed.

Lemma KeepsDebounced_start jarPath :
  Runs KeepsDebounced (startUmpleSyncServer jarPath).
Proof.
  intros s H. unfold startUmpleSyncServer.
  destruct (serverProcess s); simpl; [exact H|].
  now apply (Debounced_record (Spawn _ _)).
Qed.

(** What [scheduleValidation] does to the state. *)
Lemma scheduleValidation_state document s :
  let previous := pendingValidations s !! uri document in
  let s' := snd (scheduleValidation document s) in
  timers s'
  = <[nextTimer s := document]>
      (match previous with
       | Some h => delete h (timers s)
       | None => timers s
       end)
  /\ pendingValidations s'
     = <[uri document := nextTimer s]> (pendingValidations s)
  /\ nextTimer s' = S (nextTimer s)
  /\ trace s'
     = trace s
       ++ match previous with
          | Some h => [ClearTimeout h]
          | None => []
          end
       ++ [SetTimeout (nextTimer s) (uri document) 300].
Proof.
  unfold scheduleValidation, bind, get. simpl.
  destruct (pendingValidations s !! uri document) as [h|]; simpl.
  - repeat split. now rewrite <- app_assoc.
  - repeat split.
Qed.

Lemma KeepsDebounced_schedule document :
  Runs KeepsDebounced (scheduleValidation document).
Proof.
  intros s [Hp Hf].
  destruct (scheduleValidation_state document s) as (Ht & Hpv & Hn & Htr).
  set (s' := snd (scheduleValidation document s)) in *.
  set (u := uri document) in *. set (n := nextTimer s) in *.
  assert (Hother : forall h d,
             timers s' !! h = Some d -> h <> n ->
             timers s !! h = Some d /\ uri d <> u).
  { intros h d Hh Hne. rewrite Ht, lookup_insert_ne in Hh by congruence.
    destruct (pendingValidations s !! u) as [h0|] eqn:Hprev.
    - apply lookup_delete_Some in Hh as [Hne0 Hh]. split; [exact Hh|].
      intros Hu. destruct (Hp h d Hh) as (H1 & _). rewrite Hu in H1.
      congruence.
    - split; [exact Hh|]. intros Hu. destruct (Hp h d Hh) as (H1 & _).
      rewrite Hu in H1. congruence. }
  assert (Htrace : forall v,
             lastScheduled (trace s') v
             = if String.eqb u v then Some n else lastScheduled (trace s) v).
  { intros v. rewrite Htr, app_assoc, lastScheduled_snoc. simpl.
    destruct (String.eqb u v); [reflexivity|].
    destruct (pendingValidations s !! u);
      [apply lastScheduled_other; reflexivity|now rewrite app_nil_r]. }
  split.
  - intros h d Hh. destruct (decide (h = n)) as [->|Hne].
    + rewrite Ht, lookup_insert_eq in Hh. inversion Hh; subst d.
      rewrite Hpv, lookup_insert_eq, Htrace, String.eqb_refl, Hn. auto.
    + destruct (Hother h d Hh Hne) as [Hold Hu].
      destruct (Hp h d Hold) as (H1 & H2 & H3).
      rewrite Hpv, lookup_insert_ne, Htrace, Hn by congruence.
      apply String.eqb_neq in Hu. rewrite String.eqb_sym, Hu. auto.
  - rewrite Htr, app_assoc. apply FiredAreLatest_snoc; [reflexivity|].
    destruct (pendingValidations s !! u);
      [now apply FiredAreLatest_snoc|now rewrite app_nil_r].
Qed.

Section Timers.

Variable env : Env.
Variable buildModelCompletions : Json.json -> list CompletionItem.

Lemma KeepsDebounced_validate document :
  Runs KeepsDebounced (validateTextDocument env document).
Proof.
  exact (Runs_validateTextDocument KeepsDebounced KeepsDebounced_refl
           KeepsDebounced_trans KeepsDebounced_passive
           (fun _ _ H => H) env KeepsDebounced_start document).
Qed.

(** The bookkeeping of a timer that fires. *)
Lemma Debounced_fired s handle document :
  timers s !! handle = Some document ->
  Debounced s ->
  Debounced
    (set_pendingValidations
       (delete (uri document) (pendingValidations s))
       (record (TimerFired handle (uri document))
          (set_timers (delete handle (timers s)) (nextTimer s) s))).
Proof.
  intros Hh [Hp Hf]. destruct (Hp _ _ Hh) as (Hpend & Hlast & _). split.
  - intros h d Hd. simpl in Hd.
    apply lookup_delete_Some in Hd as [Hne Hd].
    destruct (Hp h d Hd) as (H1 & H2 & H3). simpl.
    assert (Hu : uri d <> uri document).
    { intros Hu. rewrite Hu in H1. congruence. }
    rewrite lookup_delete_ne, lastScheduled_other by (congruence || reflexivity).
    auto.
  - simpl. now apply FiredAreLatest_fired.
Qed.

Lemma KeepsDebounced_timerFires handle :
  Runs KeepsDebounced (timerFires env handle).
Proof.
  intros s H. unfold timerFires, bind, get. simpl.
  destruct (timers s !! handle) as [document|] eqn:Hh; [|exact H]. simpl.
  unfold tryCatch.
  match goal with
  | |- context [validateTextDocument env document ?s0] =>
      pose proof (KeepsDebounced_validate document s0) as Hv;
      destruct (validateTextDocument env document s0) as [[u|e] s1]
  end; simpl in *.
  - apply Hv. now apply Debounced_fired.
  - apply (Debounced_record (UnhandledRejection e)); [reflexivity..|].
    apply Hv. now apply Debounced_fired.
Qed.

Lemma Debounced_initial config : Debounced (initialState config).
Proof.
  split.
  - intros h d Hh. simpl in Hh. rewrite lookup_empty in Hh. discriminate.
  - intros pre post h u Heq. simpl in Heq. destruct pre; discriminate.
Qed.

Lemma Debounced_run config inputs :
  Debounced (run env buildModelCompletions (initialState config) inputs).
Proof.
  apply (Runs_run KeepsDebounced KeepsDebounced_refl KeepsDebounced_trans
           KeepsDebounced_passive
           (fun _ _ H => H) (fun _ _ H => H) (fun _ _ H => H)
           env buildModelCompletions KeepsDebounced_start
           KeepsDebounced_schedule KeepsDebounced_timerFires
           inputs (initialState config)).
  apply Debounced_initial.
Qed.

End Timers.

End DebounceFacts.

Module C3.
Import Platform ServerState Server Reasoning DebounceFacts.
Import TextDocuments.
Local Open Scope list_scope.

(** C3.  Whatever the server has been asked to do since it started - any
    sequence of open, change and close notifications and requests, with
    timers firing in between - (1) two pending timers are never for the
    same buffer; (2) a pending timer is the one that was scheduled last for
    its buffer, and [pendingValidations] holds its handle; (3) a timer that
    fired was, at that moment, the one scheduled last for its buffer; and
    (4) a call of [scheduleValidation] for a buffer with a pending timer
    first cancels that timer and then registers the new one. *)
Theorem one_timer_per_buffer :
  (forall env buildModelCompletions config inputs h1 h2 d1 d2,
      let s := run env buildModelCompletions (initialState config) inputs in
      timers s !! h1 = Some d1 -> timers s !! h2 = Some d2 ->
      uri d1 = uri d2 -> h1 = h2)
  /\ (forall env buildModelCompletions config inputs h d,
         let s := run env buildModelCompletions (initialState config) inputs in
         timers s !! h = Some d ->
         lastScheduled (trace s) (uri d) = Some h
         /\ pendingValidations s !! uri d = Some h)
  /\ (forall env buildModelCompletions config inputs pre post h u,
         trace (run env buildModelCompletions (initialState config) inputs)
         = pre ++ TimerFired h u :: post ->
         lastScheduled pre u = Some h)
  /\ (forall document s h,
         pendingValidations s !! uri document = Some h ->
         let s' := snd (scheduleValidation document s) in
         trace s'
         = trace s ++ [ClearTimeout h;
                       SetTimeout (nextTimer s) (uri document) 300]
         /\ timers s' = <[nextTimer s := document]> (delete h (timers s))
         /\ pendingValidations s'
            = <[uri document := nextTimer s]> (pendingValidations s)).
Proof.
  split; [|split; [|split]].
  - intros env build config inputs h1 h2 d1 d2 s H1 H2 Hu.
    destruct (Debounced_run env build config inputs) as [Hp _].
    destruct (Hp h1 d1 H1) as (P1 & _). destruct (Hp h2 d2 H2) as (P2 & _).
    rewrite Hu in P1. congruence.
  - intros env build config inputs h d s Hh.
    destruct (Debounced_run env build config inputs) as [Hp _].
    destruct (Hp h d Hh) as (P1 & P2 & _). auto.
  - intros env build config inputs pre post h u Heq.
    destruct (Debounced_run env build config inputs) as [_ Hf].
    eapply Hf. exact Heq.
  - intros document s h Hprev s'.
    destruct (scheduleValidation_state document s) as (Ht & Hpv & _ & Htr).
    rewrite Hprev in Ht, Htr. auto.
Qed.

(** Three edits of one buffer leave exactly the third timer pending, and
    when it fires it is the one scheduled last. *)
Lemma one_timer_witness :
  timers (run Samples.stalling Samples.noItems
            (initialState Samples.sampleConfig) Samples.threeEdits) !! 2
  = Some Samples.lastEdit
  /\ (lastScheduled
        (trace (run Samples.stalling Samples.noItems
                  (initialState Samples.sampleConfig) Samples.threeEdits))
        (uri Samples.lastEdit) = Some 2
      /\ pendingValidations
           (run Samples.stalling Samples.noItems
              (initialState Samples.sampleConfig) Samples.threeEdits)
         !! uri Samples.lastEdit = Some 2)
  /\ lastScheduled
       [SetTimeout 0 Samples.modelUri 300; ClearTimeout 0;
        SetTimeout 1 Samples.modelUri 300; ClearTimeout 1;
        SetTimeout 2 Samples.modelUri 300] Samples.modelUri = Some 2.
Proof.
  assert (Hpending :
            timers (run Samples.stalling Samples.noItems
                      (initialState Samples.sampleConfig) Samples.threeEdits)
            !! 2 = Some Samples.lastEdit) by (vm_compute; reflexivity).
  split; [exact Hpending|]. split.
  - exact (proj1 (proj2 one_timer_per_buffer) Samples.stalling Samples.noItems
             Samples.sampleConfig Samples.threeEdits 2 Samples.lastEdit
             Hpending).
  - refine (proj1 (proj2 (proj2 one_timer_per_buffer)) Samples.stalling
              Samples.noItems Samples.sampleConfig
              (Samples.threeEdits ++ [TimerDue 2])
              [SetTimeout 0 Samples.modelUri 300; ClearTimeout 0;
               SetTimeout 1 Samples.modelUri 300; ClearTimeout 1;
               SetTimeout 2 Samples.modelUri 300]
              [ExistsSync "/opt/umple/umplesync.jar";
               Fs (WriteFile "/project/.umple-lsp-diag-4242-1700000000000.ump"
                     ("class A { x; y; }" +:+ JsString.NL +:+ JsString.NL));
               Connect "localhost" 5555
                 "-generate nothing /project/.umple-lsp-diag-4242-1700000000000.ump";
               Fs (Rm "/project/.umple-lsp-diag-4242-1700000000000.ump" false);
               UnhandledRejection Samples.timedOut]
              2 Samples.modelUri _).
    vm_compute. reflexivity.
Defined.

End C3.

(** ** Claim C4: the model cache *)

Module CacheFacts.
Import Platform ServerState Server Reasoning.
Import TextDocuments.
Local Open Scope list_scope.


(** The open buffers stay as they are. *)
Definition KeepsDocuments (s s' : State) : Prop :=
  documents s' = documents s.







Lemma KeepsDocuments_refl s : KeepsDocuments s s.
Proof. reflexivity. Qed.

Lemma KeepsDocuments_trans s1 s2 s3 :
  KeepsDocuments s1 s2 -> KeepsDocuments s2 s3 -> KeepsDocuments s1 s3.
Proof. unfold KeepsDocuments. congruence. Qed.

Lemma KeepsDocuments_start jarPath :
  Runs KeepsDocuments (startUmpleSyncServer jarPath).
Proof.
  intros s. unfold startUmpleSyncServer.
  destruct (serverProcess s); reflexivity.
Qed.


Lemma map_get_set_ne {V} (m : JsMap V) k k' v :
  k <> k' -> map_get (map_set m k v) k' = map_get m k'.
Proof.
  intros Hne. induction m as [|[k0 v0] m IH]; simpl.
  - apply String.eqb_neq in Hne. now rewrite Hne.
  - destruct (String.eqb k0 k) eqn:E; simpl.
    + apply String.eqb_eq in E. subst k0.
      apply String.eqb_neq in Hne. now rewrite Hne.
    + destruct (String.eqb k0 k'); [reflexivity|exact IH].
Qed.

Lemma map_get_In {V} (m : JsMap V) k v : map_get m k = Some v -> In (k, v) m.
Proof.
  induction m as [|[k' v'] m IH]; simpl; [discriminate|].
  destruct (String.eqb k' k) eqn:E; [|auto].
  apply String.eqb_eq in E. intros H. inversion H; subst. auto.
Qed.



Section Cache.

Variable env : Env.
Variable buildModelCompletions : Json.json -> list CompletionItem.


Lemma KeepsDocuments_passive e s :
  passive e = true -> KeepsDocuments s (record e s).
Proof. reflexivity. Qed.





(** *** Buffers are stored under their own URI *)

Lemma KeepsDocuments_schedule document s :
  documents (snd (scheduleValidation document s)) = documents s.
Proof.
  unfold scheduleValidation, bind, get. simpl.
  destruct (pendingValidations s !! uri document); reflexivity.
Qed.


Lemma KeepsDocuments_timerFires handle :
  Runs KeepsDocuments (timerFires env handle).
Proof.
  intros s. unfold timerFires, bind, get. simpl.
  destruct (timers s !! handle) as [document|]; [|reflexivity]. simpl.
  unfold tryCatch.
  match goal with
  | |- context [validateTextDocument env document ?s0] =>
      pose proof (Runs_validateTextDocument KeepsDocuments KeepsDocuments_refl
                    KeepsDocuments_trans KeepsDocuments_passive
                    (fun _ _ => eq_refl) env KeepsDocuments_start document s0)
        as Hv;
      destruct (validateTextDocument env document s0) as [[u|e] s1]
  end; simpl in *; exact Hv.
Qed.



(** *** A rebuild reaches the service *)








End Cache.

End CacheFacts.

Module C4.
Import Platform ServerState Server Reasoning CacheFacts.
Import TextDocuments.
Local Open Scope list_scope.



End C4.

(** ** Claim C9: a validation whose dispatch fails *)

Module ValidationFacts.
Import Platform ServerState Server Reasoning.
Import TextDocuments.
Local Open Scope list_scope.

(** A call of [connection.console]. *)
Definition isConsole (e : Event) : bool :=
  match e with
  | ConsoleInfo _ | ConsoleWarn _ | ConsoleError _ => true
  | _ => false
  end.

Definition isSendDiagnostics (e : Event) : bool :=
  match e with SendDiagnostics _ _ => true | _ => false end.

(** The state in which the callback of a due timer starts the
    validation. *)
Definition afterBookkeeping (handle : nat) (document : TextDocument)
    (s : State) : State :=
  set_pendingValidations
    (delete (uri document) (pendingValidations s))
    (record (TimerFired handle (uri document))
       (set_timers (delete handle (timers s)) (nextTimer s) s)).

Section Validation.

Variable env : Env.

Lemma bind_returned {A B} (m : M A) (k : A -> M B) s a s1 :
  m s = (Returned a, s1) -> bind m k s = k a s1.
Proof. intros H. unfold bind. now rewrite H. Qed.

Lemma bind_thrown {A B} (m : M A) (k : A -> M B) s e s1 :
  m s = (Thrown e, s1) -> bind m k s = (Thrown e, s1).
Proof. intros H. unfold bind. now rewrite H. Qed.

(** The callback of a pending timer: bookkeeping, then the validation
    whose promise is dropped. *)
Lemma timerFires_pending handle document s :
  timers s !! handle = Some document ->
  timerFires env handle s
  = tryCatch (validateTextDocument env document)
      (fun e => emit (UnhandledRejection e))
      (afterBookkeeping handle document s).
Proof.
  intros Hh. unfold timerFires.
  rewrite (bind_returned get _ s s s eq_refl). rewrite Hh.
  reflexivity.
Qed.

(** When the dispatch throws, the temporary file is removed and the
    validation throws: nothing is published and nothing is written to the
    console.  The timer callback has dropped the promise, so the error ends
    as an unhandled rejection. *)
Lemma failed_dispatch_is_not_reported handle document s jarPath s1 t s2 s3 e s4 :
  timers s !! handle = Some document ->
  resolveJarPath env (afterBookkeeping handle document s)
  = (Returned (Some jarPath), s1) ->
  writeTempUmpleFile env document "diag" s1 = (Returned t, s2) ->
  callFs env (WriteFile (filePath t) (normalizedText document)) s2
  = (Returned tt, s3) ->
  sendUmpleSyncCommand env jarPath ("-generate nothing " +:+ filePath t) s3
  = (Thrown e, s4) ->
  exists e',
    timerFires env handle s
    = (Returned tt,
       record (UnhandledRejection e') (record (Fs (cleanupOp t)) s4)).
Proof.
  intros Hh Hjar Htemp Hwrite Hsend.
  assert (Hrun : exists e',
             runUmpleSyncAndParseDiagnostics env jarPath document s1
             = (Thrown e', record (Fs (cleanupOp t)) s4)).
  { unfold runUmpleSyncAndParseDiagnostics.
    rewrite (bind_returned _ _ _ _ _ Htemp). cbv beta.
    rewrite (bind_returned _ _ _ _ _ Hwrite). unfold tryFinally.
    rewrite (bind_thrown _ _ _ _ _ Hsend). unfold cleanup, callFs.
    destruct (fs env (now s4) (cleanupOp t)) as [e'|]; eexists; reflexivity. }
  destruct Hrun as [e' Hrun]. exists e'.
  rewrite (timerFires_pending _ _ _ Hh).
  unfold tryCatch, validateTextDocument.
  rewrite (bind_returned _ _ _ _ _ Hjar). cbv beta iota.
  rewrite (bind_thrown _ _ _ _ _ Hrun). reflexivity.
Qed.

End Validation.

End ValidationFacts.

Module C9.
Import Platform ServerState Server ValidationFacts.
Local Open Scope list_scope.

(** C9, on a machine whose service refuses every connection.  A buffer is
    opened and its debounce timer fires: the validation starts the service,
    retries five times and gives up.  Nothing is published, as the claim
    says; but neither is anything written to the console: the only trace of
    the failure is the rejection that nobody handles. *)
Theorem failed_validation_is_not_logged :
  let events :=
    trace (run Samples.refusing Samples.noItems
             (initialState Samples.sampleConfig)
             [DidOpen Samples.modelUri "umple" 1 "class A {}"; TimerDue 0]) in
  let temp := "/project/.umple-lsp-diag-4242-1700000000000.ump" in
  let c := Connect "localhost" 5555 ("-generate nothing " +:+ temp) in
  events
  = [SetTimeout 0 Samples.modelUri 300;
     TimerFired 0 Samples.modelUri;
     ExistsSync "/opt/umple/umplesync.jar";
     Fs (WriteFile temp ("class A {}" +:+ JsString.NL +:+ JsString.NL));
     c; Spawn "java" ["-jar"; "/opt/umple/umplesync.jar"; "-server"; "5555"];
     c; Delay 150; c; Delay 150; c; Delay 150; c; Delay 150; c; Delay 150;
     Fs (Rm temp false);
     UnhandledRejection Samples.refused]
  /\ existsb isSendDiagnostics events = false
  /\ existsb isConsole events = false.
Proof. vm_compute. repeat split. Qed.

End C9.

(** ** Claims C6 and C8: go to definition and its shadow workspace *)

Module NumberFacts.
Import JsNumber.
Local Open Scope Z_scope.

(** Stripping trailing zeros keeps the value. *)
Lemma stripZeros_value fuel :
  forall m e m' e',
    0 <= e -> stripZeros fuel m e = (m', e') ->
    m' * 10 ^ e' = m * 10 ^ e /\ 0 <= e'.
Proof.
  induction fuel as [|fuel IH]; intros m e m' e' He H; simpl in H.
  - inversion H; subst. auto.
  - destruct (m mod 10 =? 0) eqn:Hmod.
    + apply IH in H as [Hv He']; [|lia]. split; [|exact He'].
      rewrite Hv. apply Z.eqb_eq in Hmod.
      rewrite Z.pow_add_r, Z.pow_1_r by lia.
      pose proof (Z.div_mod m 10 ltac:(lia)) as Hdiv. nia.
    + inversion H; subst. auto.
Qed.

(** The value of a finite number with a non-negative exponent. *)
Lemma ofZ_value z : exists m e, ofZ z = Finite m e /\ 0 <= e /\ m * 10 ^ e = z.
Proof.
  unfold ofZ, finite. destruct (z =? 0) eqn:Hz.
  - apply Z.eqb_eq in Hz. subst. exists 0, 0. repeat split; lia.
  - destruct (stripZeros (Z.to_nat (Z.log2 (Z.abs z))) z 0) as [m e] eqn:Hs.
    apply stripZeros_value in Hs as [Hv He]; [|lia].
    exists m, e. repeat split; [exact He|]. rewrite Hv. simpl. lia.
Qed.

Lemma scaled_zero m e : 0 <= e -> scaled m e (Z.min e 0) = m * 10 ^ e.
Proof. intros He. unfold scaled. rewrite Z.min_r, Z.sub_0_r by lia. reflexivity. Qed.

(** One less than an integer. *)
Lemma sub_one z : sub (ofZ z) (Finite 1 0) = ofZ (z - 1).
Proof.
  destruct (ofZ_value z) as (m & e & Hz & He & Hv). rewrite Hz. simpl.
  rewrite scaled_zero by exact He. unfold scaled.
  rewrite Z.min_r by lia. rewrite Hv. reflexivity.
Qed.

(** The larger of an integer and zero. *)
Lemma max_zero z : Math_max (ofZ z) (Finite 0 0) = ofZ (Z.max z 0).
Proof.
  destruct (ofZ_value z) as (m & e & Hz & He & Hv). rewrite Hz.
  unfold Math_max, gt. rewrite Z.min_comm, scaled_zero by exact He.
  unfold scaled. rewrite Hv, Z.mul_0_l.
  destruct (z <? 0) eqn:Hneg.
  - apply Z.ltb_lt in Hneg. rewrite Z.max_r by lia. reflexivity.
  - apply Z.ltb_ge in Hneg. rewrite Z.max_l by lia. symmetry. exact Hz.
Qed.

End NumberFacts.

Module DefinitionFacts.
Import JsString JsNumber Json TextDocuments Lsp Platform ServerState Server.
Import NumberFacts.
Local Open Scope list_scope.

(** The arguments [onDefinition] passes to [java]. *)
Definition lookupArgs (jarPath classpath tempFile : string)
    (line character : nat) : list string :=
  ["-cp"; Json.joinStrings Path.delimiter [jarPath; classpath];
   "UmpleGoToDefJson"; tempFile;
   decimalOfZ (Z.of_nat (line + 1)); decimalOfZ (Z.of_nat character)].

(** [rm] of the directory [dir] and all below it. *)
Definition isRemovalOf (dir : string) (e : Event) : bool :=
  match e with
  | Fs (Rm path true) => String.eqb path dir
  | _ => false
  end.

(** The request up to the point where the shadow workspace is asked
    for. *)
Lemma onDefinition_shadow env uri line character s document jarPath classpath :
  map_get (documents s) uri = Some document ->
  fst (resolveGoToDefSettings env s) = Returned (Some (jarPath, classpath)) ->
  let s1 := snd (resolveGoToDefSettings env s) in
  forall w,
    fst (createShadowWorkspace env document "def" s1) = Returned (Some w) ->
    let s2 := snd (createShadowWorkspace env document "def" s1) in
    onDefinition env uri line character s
    = tryFinally
        (tryCatch
           (bind (callExecFile env "java"
                    (lookupArgs jarPath classpath (shadow_filePath w)
                       line character))
              (fun stdout =>
                 match locationsOf env stdout document (shadow_filePath w)
                         (Some w) with
                 | Some locations => ret locations
                 | None => throw typeError
                 end))
           (fun error =>
              bind (emit (ConsoleWarn ("Go to definition failed: "
                                       +:+ errorToString error)))
                (fun _ => ret [])))
        (callFs env (Rm (shadowRoot w) true)) s2.
Proof.
  intros Hdoc Hset s1 w Hw s2. subst s1 s2.
  unfold onDefinition, bind at 1, get. rewrite Hdoc.
  unfold bind at 1.
  destruct (resolveGoToDefSettings env s) as [r s1]. simpl in Hset, Hw |- *.
  subst r. unfold bind at 1.
  destruct (createShadowWorkspace env document "def" s1) as [r s2].
  simpl in Hw |- *. subst r. reflexivity.
Qed.

(** When building the shadow workspace throws, the request throws the
    same error and does nothing more. *)
Lemma build_failure_escapes env uri line character s document jarPath
    classpath e :
  map_get (documents s) uri = Some document ->
  fst (resolveGoToDefSettings env s) = Returned (Some (jarPath, classpath)) ->
  let s1 := snd (resolveGoToDefSettings env s) in
  fst (createShadowWorkspace env document "def" s1) = Thrown e ->
  onDefinition env uri line character s
  = (Thrown e, snd (createShadowWorkspace env document "def" s1)).
Proof.
  intros Hdoc Hset s1 Hw. subst s1.
  unfold onDefinition, bind at 1, get. rewrite Hdoc.
  unfold bind at 1.
  destruct (resolveGoToDefSettings env s) as [r s1]. simpl in Hset, Hw |- *.
  subst r. unfold bind at 1.
  destruct (createShadowWorkspace env document "def" s1) as [r s2].
  simpl in Hw |- *. subst r. reflexivity.
Qed.

(** When the shadow workspace was built, the last thing the request does
    is to remove it, whatever the lookup did. *)
Lemma shadow_removed_last env uri line character s document jarPath
    classpath w :
  map_get (documents s) uri = Some document ->
  fst (resolveGoToDefSettings env s) = Returned (Some (jarPath, classpath)) ->
  let s1 := snd (resolveGoToDefSettings env s) in
  fst (createShadowWorkspace env document "def" s1) = Returned (Some w) ->
  let s2 := snd (createShadowWorkspace env document "def" s1) in
  exists events,
    trace (snd (onDefinition env uri line character s))
    = trace s2 ++ events ++ [Fs (Rm (shadowRoot w) true)].
Proof.
  intros Hdoc Hset s1 Hw s2.
  rewrite (onDefinition_shadow env uri line character s document jarPath
             classpath Hdoc Hset w Hw).
  fold s1. fold s2.
  unfold tryFinally, tryCatch, bind, callExecFile, callFs, emit, ret, throw.
  set (args := lookupArgs jarPath classpath (shadow_filePath w) line character).
  destruct (execFile env (now s2) args) as [stdout|e].
  - destruct (locationsOf env stdout document (shadow_filePath w) (Some w)).
    + exists [ExecFile "java" args].
      destruct (fs env _ _); simpl; rewrite <- !app_assoc; reflexivity.
    + exists [ExecFile "java" args;
              ConsoleWarn ("Go to definition failed: "
                           +:+ errorToString typeError)].
      destruct (fs env _ _); simpl; rewrite <- !app_assoc; reflexivity.
  - exists [ExecFile "java" args;
            ConsoleWarn ("Go to definition failed: " +:+ errorToString e)].
    destruct (fs env _ _); simpl; rewrite <- !app_assoc; reflexivity.
Qed.


(** [Math.max(n - 1, 0)] for an integer [n]. *)
Lemma zeroBased_integer z :
  zeroBased (Some (JNumber (ofZ z))) = Some (ofZ (Z.max (z - 1) 0)).
Proof. unfold zeroBased. simpl. rewrite sub_one, max_zero. reflexivity. Qed.

(** The branch of [resolveDefinitionUri] that rewrites a path below the
    shadow root onto the workspace root. *)
Lemma resolve_inside env file document tempFile shadowRoot workspaceRoot :
  Path.isAbsolute file = true ->
  isPathInside env file shadowRoot = true ->
  Path.basename file <> Path.basename tempFile ->
  getDocumentFilePath env document <> Some file ->
  shadowRoot <> "" -> workspaceRoot <> "" ->
  resolveDefinitionUri env (Some file) document tempFile
    (Some shadowRoot) (Some workspaceRoot)
  = pathToFileURL env
      (Path.join workspaceRoot (Path.relative (cwd env) shadowRoot file)).
Proof.
  intros Habs Hin Hbase Hdoc Hs Hw.
  unfold resolveDefinitionUri, isPathInside in *.
  destruct file as [|c file]; [discriminate|].
  cbn [nonEmpty truthyPath]. rewrite Habs. cbn [nonEmpty truthyPath].
  destruct (String.eqb (String c file) tempFile) eqn:Hsame.
  { apply String.eqb_eq in Hsame. subst. contradiction. }
  destruct (String.eqb (Path.basename (String c file)) (Path.basename tempFile))
    eqn:Hb.
  { apply String.eqb_eq in Hb. contradiction. }
  cbn [orb].
  assert (Hd : match nonEmpty (getDocumentFilePath env document) with
               | Some docPath => String.eqb (String c file) docPath
               | None => false
               end = false).
  { destruct (getDocumentFilePath env document) as [[|d p]|]; try reflexivity.
    cbn [nonEmpty truthyPath]. apply String.eqb_neq. congruence. }
  rewrite Hd.
  destruct shadowRoot as [|a r]; [contradiction|].
  destruct workspaceRoot as [|b q]; [contradiction|].
  cbn [nonEmpty truthyPath]. rewrite Hin. reflexivity.
Qed.

End DefinitionFacts.

Module C8.
Import JsString TextDocuments Lsp Platform ServerState Server DefinitionFacts.
Local Open Scope list_scope.

(** C8.  The shadow directory of a definition request is removed when the
    external lookup throws, but not when mirroring the workspace throws.
    (1) On a machine where [java] cannot be started, the request for
    [A.ump] logs the failure, answers no location, and its last act is the
    recursive removal of the shadow directory.  (2) On a machine where the
    workspace root cannot be listed, [mkdtemp] has created the shadow
    directory, the error of [readdir] leaves the handler, and nothing
    removes the directory. *)
Theorem shadow_directory_outlives_failed_mirroring :
  let shadow := "/tmp/umple-shadow-def-Ab3dE9" in
  let settled := [ExistsSync "/opt/umple/umple.jar";
                  ExistsSync "/opt/umple/java-tools"] in
  (let result :=
     onDefinition Samples.toolless Samples.modelUri 0 6 Samples.opened in
   fst result = Returned []
   /\ trace (snd result)
      = trace Samples.opened ++ settled
        ++ [Mkdtemp "/tmp/umple-shadow-def-"; Readdir "/project";
            Fs (Mkdir shadow);
            Fs (Symlink "/project/A.ump" (shadow +:+ "/A.ump"));
            Readdir "/project/sub";
            Fs (Mkdir (shadow +:+ "/sub"));
            Fs (Symlink "/project/sub/A.ump" (shadow +:+ "/sub/A.ump"));
            Fs (Mkdir (shadow +:+ "/sub"));
            Fs (Symlink "/project/sub/B.ump" (shadow +:+ "/sub/B.ump"));
            Fs (Mkdir shadow);
            Fs (Rm (shadow +:+ "/A.ump") false);
            Fs (WriteFile (shadow +:+ "/A.ump") ("class A {}" +:+ NL +:+ NL));
            ExecFile "java"
              ["-cp"; "/opt/umple/umple.jar:/opt/umple/java-tools";
               "UmpleGoToDefJson"; shadow +:+ "/A.ump"; "1"; "6"];
            ConsoleWarn "Go to definition failed: Error: spawn java ENOENT";
            Fs (Rm shadow true)])
  /\ (let result :=
        onDefinition Samples.locked Samples.modelUri 0 6 Samples.opened in
      mkdtemp Samples.locked 3 "/tmp/umple-shadow-def-" = Returned shadow
      /\ fst result = Thrown Samples.notPermitted
      /\ trace (snd result)
         = trace Samples.opened ++ settled
           ++ [Mkdtemp "/tmp/umple-shadow-def-"; Readdir "/project"]
      /\ existsb (isRemovalOf shadow) (trace (snd result)) = false).
Proof.
  repeat split; vm_compute; reflexivity.
Qed.

End C8.

Module C6.
Import JsString JsNumber Json TextDocuments Lsp Platform ServerState Server.
Import NumberFacts DefinitionFacts.
Local Open Scope list_scope.





End C6.

(* ================================================================== *)
(** * Further properties of the code *)

Set Warnings "-clear-no-such-hyp".

(** ** Strings *)

Module TextFacts.
Import JsString ContextFacts.

(** Positions at or after the end of [pre] in [pre +:+ s] are positions
    of [s]. *)
Lemma substring_skip pre s n m :
  String.substring (String.length pre + n) m (pre +:+ s) = String.substring n m s.
Proof.
  induction pre as [|c pre IH]; [rewrite append_nil; reflexivity|].
  rewrite append_cons. simpl. exact IH.
Qed.

Lemma substring_prefix a s : String.substring 0 (String.length a) (a +:+ s) = a.
Proof.
  induction a as [|c a IH].
  - rewrite append_nil. destruct s; reflexivity.
  - rewrite append_cons. simpl. rewrite IH. reflexivity.
Qed.

Lemma substring_whole s : String.substring 0 (String.length s) s = s.
Proof. induction s; simpl; congruence. Qed.

Lemma substring_split s : forall n,
  n <= String.length s ->
  s = String.substring 0 n s +:+ String.substring n (String.length s - n) s.
Proof.
  induction s as [|c s IH]; intros [|n] Hn; simpl in *; try lia.
  - reflexivity.
  - rewrite append_nil, substring_whole. reflexivity.
  - rewrite append_cons. f_equal. apply IH. lia.
Qed.

Lemma sliceFrom_start s : sliceFrom s 0 = s.
Proof. unfold sliceFrom. rewrite Nat.sub_0_r. apply substring_whole. Qed.

Lemma index_skip pattern pre s n :
  String.index (String.length pre + n) pattern (pre +:+ s)
  = option_map (Nat.add (String.length pre)) (String.index n pattern s).
Proof.
  induction pre as [|c pre IH].
  - rewrite append_nil. simpl. destruct (String.index n pattern s); reflexivity.
  - rewrite append_cons. simpl. rewrite IH.
    destruct (String.index n pattern s); reflexivity.
Qed.

Lemma prefix_char c d s :
  String.prefix (String c "") (String d s) = Ascii.eqb c d.
Proof.
  simpl. destruct (ascii_dec c d) as [->|Hne].
  - rewrite Ascii.eqb_refl. destruct s; reflexivity.
  - symmetry. apply Ascii.eqb_neq. exact Hne.
Qed.

(** The first occurrence of a character. *)
Lemma index_char_first c pre rest :
  String.index 0 (String c "") pre = None ->
  String.index 0 (String c "") (pre +:+ String c rest)
  = Some (String.length pre).
Proof.
  induction pre as [|d pre IH]; intros H.
  - rewrite append_nil. cbn [String.index]. rewrite prefix_char, Ascii.eqb_refl.
    reflexivity.
  - rewrite append_cons. cbn [String.index] in *.
    rewrite prefix_char in *.
    destruct (Ascii.eqb c d); [discriminate|].
    destruct (String.index 0 (String c "") pre); [discriminate|].
    rewrite IH by reflexivity. reflexivity.
Qed.

Lemma index_char_split c s : forall n,
  String.index 0 (String c "") s = Some n ->
  exists pre rest,
    s = pre +:+ String c rest /\ String.length pre = n
    /\ String.index 0 (String c "") pre = None.
Proof.
  induction s as [|d s IH]; intros n H.
  - discriminate.
  - cbn [String.index] in H. rewrite prefix_char in H.
    destruct (Ascii.eqb c d) eqn:Hcd.
    + apply Ascii.eqb_eq in Hcd. subst d. inversion H; subst.
      exists "", s. rewrite append_nil. auto.
    + destruct (String.index 0 (String c "") s) as [k|] eqn:Hk; [|discriminate].
      inversion H; subst.
      destruct (IH k eq_refl) as (pre & rest & Hs & Hl & Hn).
      exists (String d pre), rest. rewrite append_cons, Hs.
      split; [reflexivity|]. split; [simpl; lia|].
      cbn [String.index]. rewrite prefix_char, Hcd, Hn. reflexivity.
Qed.

(** The last occurrence of a character. *)
Lemma lastIndexOfChar_last c x post :
  lastIndexOfChar post c = None ->
  lastIndexOfChar (x +:+ String c post) c = Some (String.length x).
Proof.
  intros H. induction x as [|d x IH].
  - rewrite append_nil. simpl. rewrite H, Ascii.eqb_refl. reflexivity.
  - rewrite append_cons. simpl. rewrite IH. reflexivity.
Qed.

Lemma lastIndexOfChar_split c s : forall m,
  lastIndexOfChar s c = Some m ->
  exists x post,
    s = x +:+ String c post /\ String.length x = m
    /\ lastIndexOfChar post c = None.
Proof.
  induction s as [|d s IH]; intros m H; [discriminate|].
  simpl in H. destruct (lastIndexOfChar s c) as [k|] eqn:Hk.
  - inversion H; subst.
    destruct (IH k eq_refl) as (x & post & Hs & Hl & Hn).
    exists (String d x), post. rewrite append_cons, Hs. simpl. auto.
  - destruct (Ascii.eqb d c) eqn:Hdc; [|discriminate].
    apply Ascii.eqb_eq in Hdc. subst d. inversion H; subst.
    exists "", s. rewrite append_nil. auto.
Qed.

(** Two ways of cutting one string. *)
Lemma append_cut a : forall b c d,
  a +:+ b = c +:+ d -> String.length a <= String.length c ->
  exists e, c = a +:+ e /\ b = e +:+ d.
Proof.
  induction a as [|x a IH]; intros b c d H Hl.
  - exists c. rewrite !append_nil in *. auto.
  - destruct c as [|y c]; [simpl in Hl; lia|].
    rewrite !append_cons in H. inversion H; subst.
    destruct (IH b c d H2 ltac:(simpl in Hl; lia)) as (e & -> & ->).
    exists e. rewrite append_cons. auto.
Qed.

End TextFacts.

(** ** The demultiplexer, piece by piece *)

Module DemuxLaws.
Import JsString Demux DemuxFacts ContextFacts TextFacts.

Definition prepend (out err : string) (o : Output) : Output :=
  {| stdout := out +:+ stdout o; stderr := err +:+ stderr o |}.

(** The loop only appends to what it has collected. *)
Lemma splitLoop_prepend fuel raw :
  forall index out err,
    splitLoop fuel raw index out err
    = option_map (prepend out err) (splitLoop fuel raw index "" "").
Proof.
  induction fuel as [|fuel IH]; intros index out err; simpl.
  - destruct (index <? String.length raw); simpl; [reflexivity|].
    unfold prepend. simpl. rewrite !append_empty_r. reflexivity.
  - destruct (index <? String.length raw); simpl.
    + destruct (indexOf raw OPEN index) as [start|].
      * destruct (indexOf raw CLOSE (start + 7)) as [end_|].
        -- rewrite IH. rewrite (IH _ ("" +:+ _) ("" +:+ _)).
           destruct (splitLoop fuel raw (end_ + 7) "" "") as [o|]; simpl;
             [|reflexivity].
           unfold prepend. simpl. rewrite !append_nil, !append_assoc.
           reflexivity.
        -- unfold prepend. simpl.
           rewrite ?append_nil, ?append_empty_r. reflexivity.
      * unfold prepend. simpl.
        rewrite ?append_nil, ?append_empty_r. reflexivity.
    + unfold prepend. simpl. rewrite !append_empty_r. reflexivity.
Qed.

(** The loop on [pre +:+ s] from the end of [pre] is the loop on [s]. *)
Lemma splitLoop_shift fuel pre s :
  forall index out err,
    splitLoop fuel (pre +:+ s) (String.length pre + index) out err
    = splitLoop fuel s index out err.
Proof.
  induction fuel as [|fuel IH]; intros index out err; simpl;
    rewrite length_append;
    replace (String.length pre + index <? String.length pre + String.length s)
      with (index <? String.length s)
      by (destruct (Nat.ltb_spec index (String.length s));
          symmetry; [apply Nat.ltb_lt|apply Nat.ltb_ge]; lia).
  - reflexivity.
  - destruct (index <? String.length s); simpl; [|reflexivity].
    unfold indexOf, sliceFrom, slice.
    rewrite index_skip, length_append.
    destruct (String.index index OPEN s) as [start|] eqn:Hs; simpl.
    + replace (String.length pre + start + 7)
        with (String.length pre + (start + 7)) by lia.
      rewrite index_skip.
      pose proof (index_ge _ _ _ _ Hs) as Hge.
      replace (String.length pre + start - (String.length pre + index))
        with (start - index) by lia.
      rewrite substring_skip.
      destruct (String.index (start + 7) CLOSE s) as [end_|] eqn:He; simpl.
      * replace (String.length pre + end_ + 7)
          with (String.length pre + (end_ + 7)) by lia.
        rewrite IH.
        replace (String.length pre + end_ - (String.length pre + (start + 7)))
          with (end_ - (start + 7)) by lia.
        rewrite substring_skip. reflexivity.
      * replace (String.length pre + String.length s
                 - (String.length pre + (start + 7)))
          with (String.length s - (start + 7)) by lia.
        rewrite substring_skip. reflexivity.
    + replace (String.length pre + String.length s
               - (String.length pre + index))
        with (String.length s - index) by lia.
      rewrite substring_skip. reflexivity.
Qed.

(** X1.  A reply of the service without the opening marker [ERROR!!] is
    output as it is: all of it is stdout, and stderr is empty. *)
Theorem reply_without_marker raw :
  indexOf raw OPEN 0 = None ->
  splitUmpleSyncOutput raw = {| stdout := raw; stderr := "" |}.
Proof.
  intros H. unfold splitUmpleSyncOutput.
  destruct raw as [|c raw]; [reflexivity|].
  cbn [String.length splitLoop].
  replace (0 <? S (String.length raw)) with true by reflexivity.
  cbn [negb]. rewrite H. rewrite sliceFrom_start. reflexivity.
Qed.

Lemma reply_without_marker_witness :
  splitUmpleSyncOutput "Success! Generated nothing."
  = {| stdout := "Success! Generated nothing."; stderr := "" |}.
Proof. apply (reply_without_marker "Success! Generated nothing."). reflexivity. Defined.

(** X2.  A reply [a ERROR!! b !!ERROR c], where the first opening marker
    is the one after [a] and the first closing marker behind it is the
    one after [b], splits into [a] for stdout and [b] for stderr, each
    followed by what the rest [c] splits into on its own. *)
Theorem marker_pair_splits_off a b c :
  let raw := a +:+ OPEN +:+ b +:+ CLOSE +:+ c in
  indexOf raw OPEN 0 = Some (String.length a) ->
  indexOf raw CLOSE (String.length a + 7)
  = Some (String.length a + 7 + String.length b) ->
  splitUmpleSyncOutput raw
  = {| stdout := a +:+ stdout (splitUmpleSyncOutput c);
       stderr := b +:+ stderr (splitUmpleSyncOutput c) |}.
Proof.
  intros raw Hopen Hclose.
  assert (Hlen : String.length raw
                 = String.length a + 7 + String.length b + 7 + String.length c).
  { subst raw. rewrite !length_append. simpl. lia. }
  assert (Hsc : Scanned raw (String.length a + 7 + String.length b + 7)
                  ("" +:+ slice raw 0 (String.length a))
                  ("" +:+ slice raw (String.length a + 7)
                            (String.length a + 7 + String.length b))).
  { apply (Scanned_pair raw 0 "" "" (String.length a)
             (String.length a + 7 + String.length b)).
    - constructor.
    - lia.
    - exact Hopen.
    - exact Hclose. }
  apply Scanned_result in Hsc.
  assert (Ha : slice raw 0 (String.length a) = a).
  { unfold slice. rewrite Nat.sub_0_r. subst raw. apply substring_prefix. }
  assert (Hb : slice raw (String.length a + 7)
                 (String.length a + 7 + String.length b) = b).
  { unfold slice. subst raw.
    replace (String.length a + 7 + String.length b - (String.length a + 7))
      with (String.length b) by lia.
    rewrite <- (append_assoc a OPEN).
    replace (String.length a + 7) with (String.length (a +:+ OPEN) + 0)
      by (rewrite length_append; simpl; lia).
    rewrite substring_skip. apply substring_prefix. }
  rewrite Ha, Hb, !append_nil in Hsc.
  assert (Hraw : raw = (a +:+ OPEN +:+ b +:+ CLOSE) +:+ c).
  { subst raw. rewrite !append_assoc. reflexivity. }
  rewrite splitLoop_prepend in Hsc.
  rewrite Hraw in Hsc at 2.
  replace (String.length a + 7 + String.length b + 7)
    with (String.length (a +:+ OPEN +:+ b +:+ CLOSE) + 0) in Hsc
    by (rewrite !length_append; simpl; lia).
  rewrite splitLoop_shift in Hsc.
  destruct (splitLoop_total c) as [o Ho].
  rewrite (splitLoop_enough c _ 0 "" "" o Ho) in Hsc
    by (rewrite Hlen; lia).
  simpl in Hsc. inversion Hsc as [Heq].
  unfold splitUmpleSyncOutput. rewrite Ho. reflexivity.
Qed.

Lemma marker_pair_witness :
  splitUmpleSyncOutput "ok ERROR!!bad!!ERROR more ERROR!!worse!!ERROR"
  = {| stdout := "ok " +:+ stdout (splitUmpleSyncOutput " more ERROR!!worse!!ERROR");
       stderr := "bad" +:+ stderr (splitUmpleSyncOutput " more ERROR!!worse!!ERROR") |}.
Proof.
  apply (marker_pair_splits_off "ok " "bad" " more ERROR!!worse!!ERROR");
    reflexivity.
Defined.

End DemuxLaws.

(** ** What is written to disk, and what is read from the error stream *)

Module PayloadFacts.
Import JsString JsNumber Json TextDocuments Lsp Diagnostics DiagnosticsFacts.
Import Server ContextFacts NumberFacts TextFacts.

Lemma endsWith_append a b : endsWith (a +:+ b) b = true.
Proof.
  unfold endsWith, sliceFrom. rewrite length_append.
  replace (String.length a + String.length b - String.length b)
    with (String.length a + 0) by lia.
  replace (String.length a + String.length b - (String.length a + 0))
    with (String.length b) by lia.
  rewrite substring_skip, substring_whole, String.eqb_refl.
  apply Nat.leb_le. lia.
Qed.

Lemma endsWith_inv s b : endsWith s b = true -> exists a, s = a +:+ b.
Proof.
  unfold endsWith, sliceFrom. intros H.
  apply andb_prop in H as [Heq Hle].
  apply String.eqb_eq in Heq. apply Nat.leb_le in Hle.
  exists (String.substring 0 (String.length s - String.length b) s).
  pose proof (substring_split s (String.length s - String.length b)
                ltac:(lia)) as Hs.
  rewrite Heq in Hs. exact Hs.
Qed.

Definition withContent (document : TextDocument) (text : string) : TextDocument :=
  {| uri := uri document; languageId := languageId document;
     version := version document; content := text |}.

(** X3.  The text written to a temporary or shadow file is the text of
    the buffer followed by nothing, one or two line feeds; it always ends
    with two line feeds; and writing it again changes nothing. *)
Theorem written_text_ends_with_two_newlines document :
  let written := normalizedText document in
  (written = getText document
   \/ written = getText document +:+ NL
   \/ written = getText document +:+ NL +:+ NL)
  /\ endsWith written (NL +:+ NL) = true
  /\ normalizedText (withContent document written) = written.
Proof.
  intros written.
  assert (Hends : endsWith written (NL +:+ NL) = true).
  { subst written. unfold normalizedText.
    destruct (endsWith (getText document) (NL +:+ NL)) eqn:H2; [exact H2|].
    destruct (endsWith (getText document) NL) eqn:H1.
    - apply endsWith_inv in H1 as [a Ha]. rewrite Ha.
      rewrite append_assoc. apply endsWith_append.
    - apply endsWith_append. }
  split; [|split; [exact Hends|]].
  - subst written. unfold normalizedText.
    destruct (endsWith (getText document) (NL +:+ NL)); [auto|].
    destruct (endsWith (getText document) NL); auto.
  - unfold normalizedText at 1. unfold getText, withContent. simpl.
    rewrite Hends. reflexivity.
Qed.

(** X4.  [extractJson] cuts from the first opening brace to the last
    closing brace: a text [pre { body } post] with no opening brace in
    [pre] and no closing brace in [post] gives [{ body }]; and whenever
    the function returns a string, the text is of that form. *)
Theorem extractJson_between_braces :
  (forall pre body post,
      indexOf pre "{" 0 = None ->
      lastIndexOfChar post "}" = None ->
      extractJson (pre +:+ "{" +:+ body +:+ "}" +:+ post)
      = Some ("{" +:+ body +:+ "}"))
  /\ (forall text json,
         extractJson text = Some json ->
         exists pre body post,
           text = pre +:+ "{" +:+ body +:+ "}" +:+ post
           /\ json = "{" +:+ body +:+ "}"
           /\ indexOf pre "{" 0 = None
           /\ lastIndexOfChar post "}" = None).
Proof.
  assert (Hround : forall pre body post,
      indexOf pre "{" 0 = None ->
      lastIndexOfChar post "}" = None ->
      extractJson (pre +:+ "{" +:+ body +:+ "}" +:+ post)
      = Some ("{" +:+ body +:+ "}")).
  { intros pre body post Hpre Hpost. unfold extractJson, indexOf.
    change ("{" +:+ body +:+ "}" +:+ post)
      with (String "{" (body +:+ String "}" post)).
    rewrite (index_char_first "{" pre _ Hpre).
    replace (pre +:+ String "{" (body +:+ String "}" post))
      with ((pre +:+ String "{" body) +:+ String "}" post)
      by (rewrite append_assoc, append_cons; reflexivity).
    rewrite (lastIndexOfChar_last "}" _ post Hpost).
    rewrite length_append. simpl.
    destruct (Nat.leb_spec (String.length pre + S (String.length body))
                (String.length pre)); [lia|].
    f_equal. unfold slice.
    rewrite append_assoc.
    replace (String.length pre + S (String.length body) + 1 - String.length pre)
      with (String.length (String "{" body +:+ "}"))
      by (rewrite length_append; simpl; lia).
    pose proof (substring_skip pre (String "{" body +:+ String "}" post) 0
                  (String.length (String "{" body +:+ "}"))) as Hskip.
    rewrite Nat.add_0_r in Hskip. rewrite Hskip.
    change (String "}" post) with ("}" +:+ post).
    rewrite <- (append_assoc (String "{" body) "}" post).
    rewrite substring_prefix. reflexivity. }
  split; [exact Hround|].
  intros text json H. unfold extractJson, indexOf in H.
  destruct (String.index 0 "{" text) as [n|] eqn:Hn; [|discriminate].
  destruct (lastIndexOfChar text "}") as [m|] eqn:Hm; [|discriminate].
  destruct (Nat.leb_spec m n) as [|Hlt]; [discriminate|].
  destruct (index_char_split "{" text n Hn) as (pre & rest & Ht & Hl & Hpre).
  destruct (lastIndexOfChar_split "}" text m Hm) as (x & post & Ht' & Hl' & Hpost).
  assert (Hcut : exists e, x = (pre +:+ "{") +:+ e /\ rest = e +:+ String "}" post).
  { apply append_cut.
    - rewrite append_assoc. change ("{" +:+ rest) with (String "{" rest).
      congruence.
    - rewrite length_append. simpl. lia. }
  destruct Hcut as (body & Hx & Hrest).
  exists pre, body, post.
  assert (Htext : text = pre +:+ "{" +:+ body +:+ "}" +:+ post).
  { rewrite Ht, Hrest. reflexivity. }
  split; [exact Htext|]. split; [|split; assumption].
  specialize (Hround pre body post Hpre Hpost).
  rewrite <- Htext in Hround. unfold extractJson, indexOf in Hround.
  rewrite Hn, Hm in Hround.
  destruct (Nat.leb_spec m n); [lia|]. congruence.
Qed.

Lemma extractJson_witness :
  extractJson (dq "log line {'results':[]} done")
  = Some (dq "{'results':[]}")
  /\ exists pre body post,
       "a{b}c" = pre +:+ "{" +:+ body +:+ "}" +:+ post
       /\ "{b}" = "{" +:+ body +:+ "}"
       /\ indexOf pre "{" 0 = None
       /\ lastIndexOfChar post "}" = None.
Proof.
  split.
  - apply (proj1 extractJson_between_braces "log line "
             (dq "'results':[]") " done"); reflexivity.
  - apply (proj2 extractJson_between_braces "a{b}c" "{b}"). reflexivity.
Defined.

Lemma searchNonSpace_bound s i : searchNonSpace s = Some i -> i < String.length s.
Proof.
  revert i. induction s as [|c s IH]; intros i H; simpl in H; [discriminate|].
  destruct (isWhiteSpace c).
  - destruct (searchNonSpace s) as [k|]; [|discriminate].
    inversion H; subst. specialize (IH k eq_refl). simpl. lia.
  - inversion H; subst. simpl. lia.
Qed.

Lemma gt_zero_max x : gt (ofZ 0) (Math_max x (ofZ 0)) = false.
Proof.
  unfold Math_max.
  destruct x as [| b | m e]; try reflexivity.
  - destruct b; reflexivity.
  - destruct (gt (ofZ 0) (Finite m e)) eqn:H; [reflexivity|exact H].
Qed.

Lemma mapResults_Forall2 lines results :
  forall ds, mapResults lines results = Some ds ->
    Forall2 (fun r d => toDiagnostic lines r = Some d) results ds.
Proof.
  induction results as [|r results IH]; intros ds H; simpl in H.
  - inversion H. constructor.
  - apply bind_Some in H as (d & Hd & H).
    apply bind_Some in H as (ds' & Hds & H).
    inversion H; subst. constructor; auto.
Qed.

Lemma mapResults_None lines results :
  mapResults lines results = None ->
  exists r, In r results /\ toDiagnostic lines r = None.
Proof.
  induction results as [|r results IH]; intros H; simpl in H; [discriminate|].
  destruct (toDiagnostic lines r) as [d|] eqn:Hd.
  - simpl in H. destruct (mapResults lines results) as [ds|]; [discriminate|].
    destruct (IH eq_refl) as (r' & Hin & Hr'). exists r'. split; [right|]; auto.
  - exists r. split; [left; reflexivity|exact Hd].
Qed.

Lemma mapResults_In lines results :
  forall ds d, mapResults lines results = Some ds -> In d ds ->
    exists r, In r results /\ toDiagnostic lines r = Some d.
Proof.
  induction results as [|r results IH]; intros ds d H Hin; simpl in H.
  - inversion H; subst. contradiction.
  - apply bind_Some in H as (d0 & Hd & H).
    apply bind_Some in H as (ds' & Hds & H).
    inversion H; subst. destruct Hin as [->|Hin].
    + exists r. split; [left; reflexivity|exact Hd].
    + destruct (IH ds' d Hds Hin) as (r' & Hr & Hd').
      exists r'. split; [right|]; assumption.
Qed.

(** X5.  Every diagnostic [parseUmpleJsonDiagnostics] returns has the
    source [umple] and the severity Error or Warning; its range lies on
    one line, whose number is not below zero, and starts at a character
    that is not behind its end. *)
Theorem diagnostics_shape stderr document d :
  In d (parseUmpleJsonDiagnostics stderr document) ->
  source d = "umple"
  /\ (severity d = Error \/ severity d = Warning)
  /\ line (range_start (range d)) = line (range_end (range d))
  /\ gt (ofZ 0) (line (range_start (range d))) = false
  /\ exists first length,
       character (range_start (range d)) = ofNat first
       /\ character (range_end (range d)) = ofNat length
       /\ first <= length.
Proof.
  unfold parseUmpleJsonDiagnostics. intros Hin.
  destruct (resultsOf stderr) as [results|]; [|contradiction].
  destruct (mapResults _ results) as [ds|] eqn:Hmap; [|contradiction].
  destruct (mapResults_In _ _ _ _ Hmap Hin) as (r & _ & Hd).
  apply toDiagnostic_Some in Hd
    as (ln & lineNumber & sev & value & code & msg & details
        & _ & Hline & _ & _ & _ & _ & _ & ->).
  simpl. split; [reflexivity|]. split.
  { unfold severityOf. destruct (gt value (ofZ 2)); auto. }
  split; [reflexivity|]. split.
  { unfold lineNumberOf in Hline.
    apply bind_Some in Hline as (n & _ & Hline). inversion Hline.
    apply gt_zero_max. }
  eexists _, _. split; [reflexivity|]. split; [reflexivity|].
  destruct (searchNonSpace _) as [i|] eqn:Hs; [|lia].
  apply searchNonSpace_bound in Hs. lia.
Qed.

Lemma diagnostics_shape_witness :
  let d :=
    {| severity := Error;
       range := Range_create (Position_create (Finite 2 0) (Finite 4 0))
                  (Position_create (Finite 2 0) (Finite 13 0));
       message := "E12: bad"; source := "umple" |} in
  source d = "umple"
  /\ (severity d = Error \/ severity d = Warning)
  /\ line (range_start (range d)) = line (range_end (range d))
  /\ gt (ofZ 0) (line (range_start (range d))) = false
  /\ exists first length,
       character (range_start (range d)) = ofNat first
       /\ character (range_end (range d)) = ofNat length
       /\ first <= length.
Proof.
  apply (diagnostics_shape Examples.oneError Examples.classBuffer). vm_compute. left. reflexivity.
Defined.

(** X6.  When the error stream carries a [results] array, the function
    returns one diagnostic for every record, in the order of the records,
    or - when the callback throws for one record - none at all; a record
    that is [null] is such a record. *)
Theorem diagnostics_all_or_nothing stderr document results :
  resultsOf stderr = Some results ->
  let lines := splitLines (TextDocuments.getText document) in
  let diagnostics := parseUmpleJsonDiagnostics stderr document in
  (Forall2 (fun r d => toDiagnostic lines r = Some d) results diagnostics
   \/ (diagnostics = []
       /\ exists r, In r results /\ toDiagnostic lines r = None))
  /\ (In JNull results -> diagnostics = []).
Proof.
  intros Hres lines diagnostics. subst diagnostics.
  unfold parseUmpleJsonDiagnostics. rewrite Hres. fold lines.
  destruct (mapResults lines results) as [ds|] eqn:Hmap.
  - split; [left; apply mapResults_Forall2; exact Hmap|].
    intros Hnull. apply mapResults_Forall2 in Hmap.
    apply List.in_split in Hnull as (l1 & l2 & ->).
    apply Forall2_app_inv_l in Hmap as (d1 & d2 & _ & Hd2 & _).
    inversion Hd2; subst. discriminate.
  - split; [|reflexivity].
    right. split; [reflexivity|]. apply mapResults_None. exact Hmap.
Qed.

Lemma diagnostics_all_or_nothing_witness :
  parseUmpleJsonDiagnostics Examples.nullRecord Examples.classBuffer = [].
Proof.
  apply (diagnostics_all_or_nothing Examples.nullRecord Examples.classBuffer
           [JObject [("line", JString "3"); ("message", JString "bad")];
            JNull]).
  - vm_compute. reflexivity.
  - right. left. reflexivity.
Defined.

End PayloadFacts.

(** ** Comments and string literals in the context scan *)

Module ContextLaws.
Import JsString TextDocuments Context ContextFacts TextFacts.

(** Whether the character [c] occurs in [s]. *)
Fixpoint occurs (c : ascii) (s : string) : bool :=
  match s with
  | String d rest => Ascii.eqb d c || occurs c rest
  | EmptyString => false
  end.

Lemma resume st : inCode st = true -> withMode st false false false = st.
Proof.
  intros H. apply inCode_flags in H as (Hl & Hb & Hs).
  destruct st; simpl in *; subst; reflexivity.
Qed.

Lemma in_line_comment st body rest :
  inLineComment st = true ->
  occurs LF body = false ->
  scan (body +:+ String LF rest) st = scan rest (withMode st false false false).
Proof.
  intros Hc. induction body as [|c body IH]; intros Hb.
  - rewrite append_nil, scan_unfold. cbv zeta. rewrite Hc.
    rewrite Ascii.eqb_refl. reflexivity.
  - simpl in Hb. apply orb_false_iff in Hb as [Hc' Hb].
    rewrite append_cons, scan_unfold. cbv zeta. rewrite Hc, Hc'.
    apply IH. exact Hb.
Qed.

Lemma line_comment st body rest :
  inCode st = true -> occurs LF body = false ->
  scan ("//" +:+ body +:+ String LF rest) st = scan rest st.
Proof.
  intros Hcode Hb.
  pose proof (inCode_flags st Hcode) as (Hl & Hbl & Hs).
  change ("//" +:+ body +:+ String LF rest)
    with (String "/" (String "/" (body +:+ String LF rest))).
  rewrite scan_unfold. cbv zeta. rewrite Hl, Hbl, Hs. simpl.
  rewrite in_line_comment; [|reflexivity|exact Hb].
  f_equal. destruct st; simpl in *; subst; reflexivity.
Qed.

Lemma in_string st body rest :
  inLineComment st = false -> inBlockComment st = false ->
  inString st = true ->
  occurs "034" body = false -> occurs "\" body = false ->
  scan (body +:+ String "034" rest) st
  = scan rest (withMode st false false false).
Proof.
  intros Hl Hb Hs. induction body as [|c body IH]; intros Hq Hbs.
  - rewrite append_nil, scan_unfold. cbv zeta. rewrite Hl, Hb, Hs.
    reflexivity.
  - simpl in Hq, Hbs.
    apply orb_false_iff in Hq as [Hq1 Hq]. apply orb_false_iff in Hbs as [Hb1 Hbs].
    rewrite append_cons, scan_unfold. cbv zeta. rewrite Hl, Hb, Hs, Hb1, Hq1.
    apply IH; assumption.
Qed.

Lemma string_literal st body rest :
  inCode st = true -> occurs "034" body = false -> occurs "\" body = false ->
  scan (String "034" (body +:+ String "034" rest)) st = scan rest st.
Proof.
  intros Hcode Hq Hbs.
  pose proof (inCode_flags st Hcode) as (Hl & Hbl & Hs).
  rewrite scan_unfold. cbv zeta. rewrite Hl, Hbl, Hs.
  change (Ascii.eqb "034" "/") with false. simpl.
  rewrite in_string; try reflexivity; try assumption.
  f_equal. destruct st; simpl in *; subst; reflexivity.
Qed.

Lemma in_block_comment st : forall body rest,
  inLineComment st = false -> inBlockComment st = true ->
  String.index 0 "*/" (body +:+ "*/") = Some (String.length body) ->
  scan (body +:+ "*/" +:+ rest) st
  = scan rest (withMode st false false false).
Proof.
  induction body as [|c body IH]; intros rest Hl Hb Hfirst.
  - rewrite append_nil.
    change ("*/" +:+ rest) with (String "*" (String "/" rest)).
    rewrite scan_unfold. cbv zeta. rewrite Hl, Hb. reflexivity.
  - rewrite append_cons in Hfirst. cbn [String.index] in Hfirst.
    destruct (String.prefix "*/" (String c (body +:+ "*/"))) eqn:Hp;
      [discriminate|].
    destruct (String.index 0 "*/" (body +:+ "*/")) as [k|] eqn:Hk;
      [|discriminate].
    assert (k = String.length body) as -> by (simpl in Hfirst; congruence).
    rewrite append_cons, scan_unfold. cbv zeta. rewrite Hl, Hb.
    assert (Hno : Ascii.eqb c "*"
                  && nextIs match body +:+ "*/" +:+ rest with
                            | String c0 _ => Some c0
                            | "" => None
                            end "/" = false).
    { destruct (Ascii.eqb c "*") eqn:Hc; [|reflexivity].
      apply Ascii.eqb_eq in Hc. subst c. simpl in Hp.
      destruct body as [|d body].
      - rewrite append_nil. reflexivity.
      - rewrite append_cons in Hp |- *. simpl.
        destruct (ascii_dec "/" d) as [<-|Hd].
        + destruct (body +:+ "*/"); discriminate.
        + apply Ascii.eqb_neq. congruence. }
    rewrite Hno. apply IH; auto.
Qed.

Lemma block_comment st body rest :
  inCode st = true ->
  indexOf (body +:+ "*/") "*/" 0 = Some (String.length body) ->
  scan ("/*" +:+ body +:+ "*/" +:+ rest) st = scan rest st.
Proof.
  intros Hcode Hfirst.
  pose proof (inCode_flags st Hcode) as (Hl & Hbl & Hs).
  change ("/*" +:+ body +:+ "*/" +:+ rest)
    with (String "/" (String "*" (body +:+ "*/" +:+ rest))).
  rewrite scan_unfold. cbv zeta. rewrite Hl, Hbl, Hs. simpl.
  rewrite in_block_comment; [|reflexivity|reflexivity|exact Hfirst].
  f_equal. destruct st; simpl in *; subst; reflexivity.
Qed.

(** X7.  From a position outside comments and string literals, the scan
    of [detectContext] passes over a line comment up to its line feed, a
    block comment up to the first [*/], and a string literal without
    quotes and backslashes inside, and goes on in the state it had before:
    braces and keywords in them do not change the context. *)
Theorem comments_and_strings_leave_no_trace st body rest :
  inCode st = true ->
  (occurs LF body = false ->
   scan ("//" +:+ body +:+ String LF rest) st = scan rest st)
  /\ (indexOf (body +:+ "*/") "*/" 0 = Some (String.length body) ->
      scan ("/*" +:+ body +:+ "*/" +:+ rest) st = scan rest st)
  /\ (occurs "034" body = false -> occurs "\" body = false ->
      scan (String "034" (body +:+ String "034" rest)) st = scan rest st).
Proof.
  intros Hcode. split; [|split].
  - apply line_comment. exact Hcode.
  - apply block_comment. exact Hcode.
  - apply string_literal. exact Hcode.
Qed.

Lemma comments_and_strings_witness :
  scan ("// class A {" +:+ String LF "}") initial = scan "}" initial
  /\ scan ("/* class A {" +:+ "*/" +:+ "}") initial = scan "}" initial
  /\ scan (String "034" (" class A {" +:+ String "034" "}")) initial
     = scan "}" initial.
Proof.
  pose proof (comments_and_strings_leave_no_trace initial " class A {" "}"
                eq_refl) as (Hline & Hblock & Hstring).
  split; [|split].
  - apply Hline. reflexivity.
  - apply Hblock. reflexivity.
  - apply Hstring; reflexivity.
Defined.

End ContextLaws.

(** ** The completion lists *)

Module CompletionFacts.
Import JsString JsNumber TextDocuments Context Platform ServerState Server.
Import Completion ContextFacts TextFacts.
Local Open Scope list_scope.

(** Equal keys are equal kinds and equal labels. *)
Lemma keyOf_inj a b :
  keyOf a = keyOf b <-> kind a = kind b /\ label a = label b.
Proof.
  split.
  - unfold keyOf. intros H.
    destruct (kind a), (kind b); cbv in H; inversion H; auto.
  - intros [Hk Hl]. unfold keyOf. rewrite Hk, Hl. reflexivity.
Qed.

(** Hides the keys of the goal, so that only sets of strings are left. *)
Ltac key_sets :=
  repeat match goal with
         | |- context [keyOf ?x] =>
             let k := fresh "k" in set (k := keyOf x) in *; clearbody k
         | H : context [keyOf ?x] |- _ =>
             let k := fresh "k" in set (k := keyOf x) in *; clearbody k
         end;
  set_solver.

Definition keys (items : list CompletionItem) : gset string :=
  list_to_set (map keyOf items).

Definition unseen (seen : gset string) (item : CompletionItem) : bool :=
  negb (bool_decide (keyOf item ∈ seen)).

Lemma unseen_true seen x : unseen seen x = true <-> keyOf x ∉ seen.
Proof.
  unfold unseen. rewrite negb_true_iff, bool_decide_eq_false. reflexivity.
Qed.

Lemma unseen_false seen x : unseen seen x = false <-> keyOf x ∈ seen.
Proof.
  unfold unseen. rewrite negb_false_iff, bool_decide_eq_true. reflexivity.
Qed.

Lemma unseen_union seen1 seen2 x :
  unseen (seen2 ∪ seen1) x = unseen seen2 x && unseen seen1 x.
Proof.
  destruct (unseen seen2 x) eqn:H2, (unseen seen1 x) eqn:H1; simpl;
    rewrite ?unseen_true, ?unseen_false in *; key_sets.
Qed.

Lemma filter_unseen_twice seen1 seen2 l :
  List.filter (unseen seen1) (List.filter (unseen seen2) l)
  = List.filter (unseen (seen2 ∪ seen1)) l.
Proof.
  induction l as [|x l IH]; [reflexivity|]. simpl.
  rewrite unseen_union.
  destruct (unseen seen2 x); simpl; [|exact IH].
  destruct (unseen seen1 x); simpl; rewrite IH; reflexivity.
Qed.

Lemma filter_unseen_same seen1 seen2 l :
  (forall x, In x l -> (keyOf x ∈ seen1 <-> keyOf x ∈ seen2)) ->
  List.filter (unseen seen1) l = List.filter (unseen seen2) l.
Proof.
  intros H. apply filter_ext_in. intros x Hx. specialize (H x Hx).
  destruct (unseen seen1 x) eqn:H1, (unseen seen2 x) eqn:H2; try reflexivity;
    rewrite ?unseen_true, ?unseen_false in *; tauto.
Qed.

(** The loop with a set [seen] is the loop from the empty set, without
    the items whose key is in [seen]. *)
Lemma dedupeLoop_filter l : forall seen,
  dedupeLoop seen l = List.filter (unseen seen) (dedupeLoop ∅ l).
Proof.
  induction l as [|x l IH]; intros seen; [reflexivity|].
  cbn [dedupeLoop]. rewrite (bool_decide_eq_false_2 (keyOf x ∈ ∅)) by key_sets.
  cbn [List.filter]. unfold unseen at 1.
  destruct (bool_decide (keyOf x ∈ seen)) eqn:Hx; cbn [negb].
  - apply bool_decide_eq_true in Hx.
    rewrite (IH seen), (IH ({[keyOf x]} ∪ ∅)).
    rewrite filter_unseen_twice.
    apply filter_unseen_same. intros y _. clear IH. key_sets.
  - apply bool_decide_eq_false in Hx.
    rewrite (IH ({[keyOf x]} ∪ seen)), (IH ({[keyOf x]} ∪ ∅)).
    rewrite filter_unseen_twice. f_equal.
    apply filter_unseen_same. intros y _. clear IH. key_sets.
Qed.

Lemma dedupeLoop_In seen l x :
  In x (dedupeLoop seen l) -> In x l /\ keyOf x ∉ seen.
Proof.
  revert seen. induction l as [|y l IH]; intros seen H; [contradiction|].
  cbn [dedupeLoop] in H.
  destruct (bool_decide (keyOf y ∈ seen)) eqn:Hy.
  - apply IH in H as [H1 H2]. split; [right|]; assumption.
  - apply bool_decide_eq_false in Hy. destruct H as [->|H].
    + split; [left; reflexivity|exact Hy].
    + apply IH in H as [H1 H2]. split; [right; exact H1|key_sets].
Qed.

Lemma dedupeLoop_NoDup l : forall seen,
  List.NoDup (map keyOf (dedupeLoop seen l)).
Proof.
  induction l as [|y l IH]; intros seen; [constructor|].
  cbn [dedupeLoop]. destruct (bool_decide (keyOf y ∈ seen)); [apply IH|].
  simpl. constructor; [|apply IH].
  rewrite in_map_iff. intros (z & Hz & Hin).
  apply dedupeLoop_In in Hin as [_ Hin]. rewrite Hz in Hin. key_sets.
Qed.

Lemma dedupeLoop_sublist l : forall seen, sublist (dedupeLoop seen l) l.
Proof.
  induction l as [|y l IH]; intros seen; [constructor|].
  cbn [dedupeLoop]. destruct (bool_decide (keyOf y ∈ seen)).
  - apply sublist_cons. apply IH.
  - apply sublist_skip. apply IH.
Qed.

Lemma dedupeLoop_complete l : forall seen x,
  In x l -> keyOf x ∉ seen ->
  exists y, In y (dedupeLoop seen l) /\ keyOf y = keyOf x.
Proof.
  induction l as [|y l IH]; intros seen x Hin Hx; [contradiction|].
  cbn [dedupeLoop].
  destruct (bool_decide (keyOf y ∈ seen)) eqn:Hy.
  - apply bool_decide_eq_true in Hy. destruct Hin as [->|Hin]; [contradiction|].
    apply IH; assumption.
  - destruct Hin as [->|Hin]; [exists x; split; [left|]; reflexivity|].
    destruct (decide (keyOf x = keyOf y)) as [He|Hne].
    + exists y. split; [left; reflexivity|auto].
    + destruct (IH ({[keyOf y]} ∪ seen) x Hin ltac:(key_sets))
        as (z & Hz & Hk).
      exists z. split; [right|]; assumption.
Qed.

Lemma dedupeLoop_fixed l : forall seen,
  List.NoDup (map keyOf l) -> (forall x, In x l -> keyOf x ∉ seen) ->
  dedupeLoop seen l = l.
Proof.
  induction l as [|y l IH]; intros seen Hnd Hs; [reflexivity|].
  cbn [dedupeLoop]. rewrite bool_decide_eq_false_2 by (apply Hs; left; reflexivity).
  f_equal. simpl in Hnd. inversion Hnd as [|k ks Hy Hnd']; subst.
  apply IH; [exact Hnd'|].
  intros x Hx. specialize (Hs x (or_intror Hx)).
  assert (keyOf x <> keyOf y).
  { intros He. apply Hy. rewrite <- He. apply in_map. exact Hx. }
  key_sets.
Qed.

Definition identity (item : CompletionItem) : CompletionItemKind * string :=
  (kind item, label item).

Lemma NoDup_identity l : List.NoDup (map keyOf l) -> List.NoDup (map identity l).
Proof.
  induction l as [|x l IH]; intros H; [constructor|].
  simpl in *. inversion H as [|k ks Hx H']; subst.
  constructor; [|apply IH; exact H'].
  rewrite in_map_iff. intros (y & Hy & Hin).
  apply Hx. rewrite in_map_iff. exists y. split; [|exact Hin].
  apply keyOf_inj. unfold identity in Hy. inversion Hy. auto.
Qed.

(** X8.  [dedupeCompletions] returns no two items of the same kind and
    label; what it returns is a sub-list of its argument, in which every
    item of the argument is still represented by an item of its kind and
    label; and applying it again changes nothing. *)
Theorem merged_list_has_no_duplicates items :
  let result := dedupeCompletions items in
  List.NoDup (map identity result)
  /\ sublist result items
  /\ (forall x, In x items ->
        exists y, In y result /\ kind y = kind x /\ label y = label x)
  /\ dedupeCompletions result = result.
Proof.
  intros result. subst result. unfold dedupeCompletions.
  split; [apply NoDup_identity, dedupeLoop_NoDup|].
  split; [apply dedupeLoop_sublist|]. split.
  - intros x Hx.
    destruct (dedupeLoop_complete items ∅ x Hx ltac:(key_sets))
      as (y & Hy & Hk).
    exists y. split; [exact Hy|]. apply keyOf_inj. exact Hk.
  - apply dedupeLoop_fixed; [apply dedupeLoop_NoDup|key_sets].
Qed.

Lemma merged_list_witness :
  exists y,
    In y (dedupeCompletions
            [{| label := "A"; kind := KindKeyword; detail := None |};
             {| label := "A"; kind := KindClass; detail := Some "class" |};
             {| label := "A"; kind := KindClass; detail := None |}])
    /\ kind y = KindClass /\ label y = "A".
Proof.
  apply (proj1 (proj2 (proj2 (merged_list_has_no_duplicates
           [{| label := "A"; kind := KindKeyword; detail := None |};
            {| label := "A"; kind := KindClass; detail := Some "class" |};
            {| label := "A"; kind := KindClass; detail := None |}])))
           {| label := "A"; kind := KindClass; detail := None |}).
  simpl. auto.
Defined.

(** Whether an item of [earlier] has the kind and the label of [item]. *)
Definition shadowedBy (earlier : list CompletionItem) (item : CompletionItem)
    : bool :=
  existsb (fun e => String.eqb (keyOf e) (keyOf item)) earlier.

Lemma unseen_keys earlier item :
  unseen (keys earlier) item = negb (shadowedBy earlier item).
Proof.
  unfold unseen, shadowedBy, keys. f_equal.
  induction earlier as [|e l IH]; simpl.
  - apply bool_decide_eq_false_2. key_sets.
  - destruct (String.eqb (keyOf e) (keyOf item)) eqn:He; simpl.
    + apply String.eqb_eq in He. apply bool_decide_eq_true_2. key_sets.
    + apply String.eqb_neq in He. rewrite <- IH.
      apply bool_decide_ext. key_sets.
Qed.

Lemma dedupeLoop_app a : forall seen b,
  dedupeLoop seen (a ++ b)
  = dedupeLoop seen a ++ dedupeLoop (keys a ∪ seen) b.
Proof.
  induction a as [|x a IH]; intros seen b.
  - simpl. f_equal. unfold keys. simpl. key_sets.
  - cbn [app dedupeLoop].
    destruct (bool_decide (keyOf x ∈ seen)) eqn:Hx.
    + rewrite IH. f_equal. f_equal. apply bool_decide_eq_true in Hx.
      unfold keys. simpl. key_sets.
    + rewrite IH. cbn [app]. f_equal. f_equal. f_equal.
      unfold keys. simpl. key_sets.
Qed.

(** X9.  In a merged list the items of the first part win: removing the
    duplicates of [a ++ b] gives the result for [a], followed by the
    result for [b] without the items whose kind and label occur in
    [a]. *)
Theorem earlier_items_win a b :
  dedupeCompletions (a ++ b)
  = dedupeCompletions a
    ++ List.filter (fun item => negb (shadowedBy a item))
         (dedupeCompletions b).
Proof.
  unfold dedupeCompletions. rewrite dedupeLoop_app. f_equal.
  replace (keys a ∪ ∅) with (keys a) by set_solver.
  rewrite (dedupeLoop_filter b (keys a)).
  apply filter_ext. intros item. apply unseen_keys.
Qed.

(** *** Lower case *)

Lemma toLowerChar_idem c : toLowerChar (toLowerChar c) = toLowerChar c.
Proof. destruct c as [[] [] [] [] [] [] [] []]; reflexivity. Qed.

Lemma toLowerCase_idem s : toLowerCase (toLowerCase s) = toLowerCase s.
Proof.
  induction s as [|c s IH]; [reflexivity|]. simpl.
  rewrite toLowerChar_idem, IH. reflexivity.
Qed.

Lemma toLowerCase_append a b :
  toLowerCase (a +:+ b) = toLowerCase a +:+ toLowerCase b.
Proof.
  induction a as [|c a IH]; [rewrite !append_nil; reflexivity|].
  rewrite append_cons. simpl. rewrite append_cons, IH. reflexivity.
Qed.

Lemma prefix_append a b s :
  String.prefix (a +:+ b) s = true -> String.prefix a s = true.
Proof.
  revert s. induction a as [|c a IH]; intros s H.
  - destruct s; reflexivity.
  - rewrite append_cons in H. destruct s as [|d s]; [discriminate|].
    simpl in *. destruct (ascii_dec c d); [|discriminate]. apply IH. exact H.
Qed.

(** Whether the label of [item] starts with [prefix], case ignored. *)
Definition matches (prefix : string) (item : CompletionItem) : bool :=
  startsWith (toLowerCase (label item)) (toLowerCase prefix).

Lemma filterCompletions_spec items prefix :
  filterCompletions items prefix
  = match prefix with
    | EmptyString => items
    | _ => List.filter (matches prefix) items
    end.
Proof. destruct prefix; reflexivity. Qed.

Lemma NoDup_filter_map {A B} (f : A -> B) (P : A -> bool) l :
  List.NoDup (map f l) -> List.NoDup (map f (List.filter P l)).
Proof.
  induction l as [|x l IH]; intros H; [constructor|].
  simpl in *. inversion H as [|y ys Hx H']; subst.
  destruct (P x); [|apply IH; exact H'].
  simpl. constructor; [|apply IH; exact H'].
  rewrite in_map_iff. intros (z & Hz & Hin). apply Hx.
  rewrite in_map_iff. exists z. split; [exact Hz|].
  apply filter_In in Hin. tauto.
Qed.

Lemma filterCompletions_In items prefix item :
  In item (filterCompletions items prefix) ->
  In item items /\ (prefix <> "" -> matches prefix item = true).
Proof.
  rewrite filterCompletions_spec. intros Hin.
  destruct prefix as [|c p]; [split; [exact Hin|congruence]|].
  apply filter_In in Hin as [Hin Hm]. auto.
Qed.

Lemma filterCompletions_NoDup {B} (f : CompletionItem -> B) items prefix :
  List.NoDup (map f items) ->
  List.NoDup (map f (filterCompletions items prefix)).
Proof.
  rewrite filterCompletions_spec. destruct prefix; [auto|].
  apply NoDup_filter_map.
Qed.

(** X10.  [filterCompletions]: the empty prefix keeps every item; an
    item that is kept was there and, for a prefix that is not empty, has a
    label that starts with the prefix, case ignored; filtering by a longer
    prefix after a shorter one is filtering by the longer one; and the case
    of the prefix does not matter. *)
Theorem typing_narrows_the_list items prefix more :
  filterCompletions items "" = items
  /\ (forall item, In item (filterCompletions items prefix) ->
        In item items /\ (prefix <> "" -> matches prefix item = true))
  /\ filterCompletions (filterCompletions items prefix) (prefix +:+ more)
     = filterCompletions items (prefix +:+ more)
  /\ filterCompletions items (toLowerCase prefix)
     = filterCompletions items prefix.
Proof.
  split; [reflexivity|]. split; [|split].
  - intros item Hin. rewrite filterCompletions_spec in Hin.
    destruct prefix as [|c p]; [split; [exact Hin|congruence]|].
    apply filter_In in Hin as [Hin Hm]. auto.
  - rewrite !filterCompletions_spec.
    destruct prefix as [|c p]; [rewrite append_nil; reflexivity|].
    rewrite append_cons.
    induction items as [|x items IH]; [reflexivity|]. simpl.
    destruct (matches (String c (p +:+ more)) x) eqn:Hlong.
    + assert (Hshort : matches (String c p) x = true).
      { unfold matches, startsWith in *. rewrite <- append_cons in Hlong.
        rewrite toLowerCase_append in Hlong.
        apply prefix_append in Hlong. exact Hlong. }
      rewrite Hshort. simpl. rewrite Hlong, IH. reflexivity.
    + destruct (matches (String c p) x); simpl; rewrite ?Hlong; exact IH.
  - rewrite !filterCompletions_spec.
    destruct prefix as [|c p]; [reflexivity|]. simpl.
    apply filter_ext. intros item. unfold matches. simpl.
    rewrite toLowerChar_idem, toLowerCase_idem. reflexivity.
Qed.

Lemma typing_narrows_witness :
  matches "cl" {| label := "Class"; kind := KindKeyword; detail := None |}
  = true.
Proof.
  apply (proj1 (proj2 (typing_narrows_the_list
           [{| label := "Class"; kind := KindKeyword; detail := None |};
            {| label := "trait"; kind := KindKeyword; detail := None |}]
           "cl" "a"))).
  - vm_compute. left. reflexivity.
  - discriminate.
Defined.

(** *** The prefix *)

Lemma allWordChars_append a b :
  allWordChars (a +:+ b) = allWordChars a && allWordChars b.
Proof.
  induction a as [|c a IH]; [rewrite append_nil; reflexivity|].
  rewrite append_cons. simpl. rewrite IH, andb_assoc. reflexivity.
Qed.

(** No identifier that runs to the end of the text starts inside
    [before]. *)
Definition Leftmost (before rest : string) : Prop :=
  forall b c r,
    before = b +:+ String c r ->
    isWordStart c && allWordChars (r +:+ rest) = false.

Lemma matchIdentifierAtEnd_spec s :
  exists before,
    s = before +:+ match matchIdentifierAtEnd s with Some m => m | None => "" end
    /\ Leftmost before
         match matchIdentifierAtEnd s with Some m => m | None => "" end
    /\ match matchIdentifierAtEnd s with
       | Some (String c r) => isWordStart c = true /\ allWordChars r = true
       | Some EmptyString => False
       | None => True
       end.
Proof.
  induction s as [|c s (before & Hs & Hleft & Hm)].
  - exists "". split; [reflexivity|]. split; [|exact I].
    intros [|x b] c r H; rewrite ?append_nil, ?append_cons in H; discriminate.
  - cbn [matchIdentifierAtEnd].
    destruct (isWordStart c && allWordChars s) eqn:Hc.
    + exists "". rewrite append_nil. split; [reflexivity|]. split.
      * intros [|x b] d r H; rewrite ?append_nil, ?append_cons in H;
          discriminate.
      * apply andb_true_iff in Hc. exact Hc.
    + exists (String c before). rewrite append_cons, <- Hs.
      split; [reflexivity|]. split; [|exact Hm].
      intros [|x b] d r H.
      * rewrite append_nil in H. inversion H; subst. rewrite <- Hs. exact Hc.
      * rewrite append_cons in H. inversion H; subst.
        apply (Hleft b d r eq_refl).
Qed.

(** X11.  [getCompletionPrefix] returns the end of the line text before
    the cursor: a string of letters, digits and underscores that does not
    start with a digit, and such that no identifier reaching the cursor
    starts further left. *)
Theorem prefix_is_the_identifier_before_the_cursor document line character :
  let text := lineBefore document line character in
  let prefix := getCompletionPrefix document line character in
  exists before,
    text = before +:+ prefix
    /\ allWordChars prefix = true
    /\ match prefix with
       | String c _ => isWordStart c = true
       | EmptyString => True
       end
    /\ forall b c r,
         before = b +:+ String c r ->
         isWordStart c && allWordChars (r +:+ prefix) = false.
Proof.
  intros text prefix. subst prefix. unfold getCompletionPrefix. fold text.
  destruct (matchIdentifierAtEnd_spec text) as (before & Hs & Hleft & Hm).
  exists before. split; [exact Hs|].
  destruct (matchIdentifierAtEnd text) as [[|c r]|].
  - contradiction.
  - destruct Hm as [Hc Hr]. split; [|split; [exact Hc|exact Hleft]].
    simpl. rewrite Hr. unfold isWordChar. rewrite Hc. reflexivity.
  - split; [reflexivity|]. split; [exact I|exact Hleft].
Qed.

(** The prefix of [Integ], typed on the third line of the sample. *)
Lemma prefix_witness :
  exists before,
    "    Integ" = before +:+ "Integ"
    /\ allWordChars "Integ" = true
    /\ isWordStart "I" = true
    /\ forall b c r,
         before = b +:+ String c r ->
         isWordStart c && allWordChars (r +:+ "Integ") = false.
Proof.
  exact (prefix_is_the_identifier_before_the_cursor Examples.classBuffer 2 9).
Defined.

(** *** Event names *)

Lemma trimEnd_cons c s :
  trimEnd (String c s)
  = match trimEnd s with
    | EmptyString => if isWhiteSpace c then "" else String c ""
    | kept => String c kept
    end.
Proof. reflexivity. Qed.

(** A text that does not end with white space is kept as it is. *)
Lemma trimEnd_kept b c :
  isWhiteSpace c = false -> trimEnd (b +:+ String c "") = b +:+ String c "".
Proof.
  intros Hc. induction b as [|d b IH].
  - rewrite append_nil. simpl. rewrite Hc. reflexivity.
  - rewrite append_cons, trimEnd_cons, IH.
    destruct b; rewrite ?append_nil, ?append_cons; reflexivity.
Qed.

Lemma trimEnd_head s c r :
  trimEnd s = String c r -> exists r', s = String c r'.
Proof.
  destruct s as [|d s]; [discriminate|]. rewrite trimEnd_cons.
  destruct (trimEnd s); [destruct (isWhiteSpace d)|]; intros H;
    inversion H; subst; eauto.
Qed.

Lemma trimStart_head s c r : trimStart s = String c r -> isWhiteSpace c = false.
Proof.
  induction s as [|d s IH]; [discriminate|]. simpl.
  destruct (isWhiteSpace d) eqn:Hd; [exact IH|].
  intros H. inversion H; subst. exact Hd.
Qed.

(** What [trim] returns starts and ends with a character that is not
    white space. *)
Lemma trim_head s c r : trim s = String c r -> isWhiteSpace c = false.
Proof.
  unfold trim. intros H. apply trimEnd_head in H as [r' H].
  apply trimStart_head in H. exact H.
Qed.

Lemma trimEnd_last s : forall b c,
  trimEnd s = b +:+ String c "" -> isWhiteSpace c = false.
Proof.
  induction s as [|d s IH]; intros b c H; simpl in H.
  - destruct b; rewrite ?append_nil, ?append_cons in H; discriminate.
  - destruct (trimEnd s) as [|e k] eqn:Hk.
    + destruct (isWhiteSpace d) eqn:Hd.
      * destruct b; rewrite ?append_nil, ?append_cons in H; discriminate.
      * destruct b as [|x b]; rewrite ?append_nil, ?append_cons in H.
        -- inversion H; subst. exact Hd.
        -- inversion H as [[Hx Hb]]. destruct b; rewrite ?append_nil, ?append_cons in Hb; discriminate.
    + destruct b as [|x b]; rewrite ?append_nil, ?append_cons in H.
      * inversion H.
      * inversion H; subst. apply (IH b c). assumption.
Qed.

Lemma last_char s : s = "" \/ exists b c, s = b +:+ String c "".
Proof.
  induction s as [|d s [->|(b & c & ->)]]; [left; reflexivity| |].
  - right. exists "", d. reflexivity.
  - right. exists (String d b), c. rewrite append_cons. reflexivity.
Qed.

(** A text that neither starts nor ends with white space is its own
    [trim]. *)
Lemma trim_kept s :
  match s with String c _ => isWhiteSpace c = false | EmptyString => True end ->
  (forall b c, s = b +:+ String c "" -> isWhiteSpace c = false) ->
  trim s = s.
Proof.
  intros Hhead Hlast. unfold trim.
  destruct s as [|c r]; [reflexivity|].
  cbn [trimStart]. rewrite Hhead.
  destruct (last_char (String c r)) as [H|(b & d & H)]; [discriminate|].
  rewrite H. apply trimEnd_kept. apply (Hlast b d H).
Qed.

Lemma stopsHere_char c s :
  Ascii.eqb c "[" || Ascii.eqb c "/" = true -> stopsHere (String c s) = true.
Proof.
  intros H. unfold stopsHere. cbn [trimStart].
  assert (Hw : isWhiteSpace c = false).
  { apply orb_true_iff in H as [H|H]; apply Ascii.eqb_eq in H; subst;
      reflexivity. }
  rewrite Hw. exact H.
Qed.

Lemma stopsHere_space c s :
  isWhiteSpace c = true -> stopsHere (String c s) = stopsHere s.
Proof. intros H. unfold stopsHere. cbn [trimStart]. rewrite H. reflexivity. Qed.

(** No match of the expression starts inside [p] when [q] follows. *)
Definition NoStop (p q : string) : Prop :=
  forall b c r, p = b +:+ String c r -> stopsHere (String c (r +:+ q)) = false.

Lemma searchStop_Some s : forall n,
  searchStop s = Some n ->
  exists p q, s = p +:+ q /\ String.length p = n
              /\ stopsHere q = true /\ NoStop p q.
Proof.
  induction s as [|c s IH]; intros n H; [discriminate|].
  cbn [searchStop] in H. destruct (stopsHere (String c s)) eqn:Hc.
  - inversion H; subst. exists "", (String c s).
    split; [reflexivity|]. split; [reflexivity|]. split; [exact Hc|].
    intros [|x b] d r Hb; rewrite ?append_nil, ?append_cons in Hb; discriminate.
  - destruct (searchStop s) as [k|]; [|discriminate]. inversion H; subst.
    destruct (IH k eq_refl) as (p & q & -> & Hl & Hq & Hno).
    exists (String c p), q. rewrite append_cons.
    split; [reflexivity|]. split; [simpl; lia|]. split; [exact Hq|].
    intros [|x b] d r Hb; rewrite ?append_nil, ?append_cons in Hb;
      inversion Hb; subst.
    + exact Hc.
    + apply (Hno b d r eq_refl).
Qed.

Lemma searchStop_None s :
  searchStop s = None -> ContextLaws.occurs "[" s = false /\ ContextLaws.occurs "/" s = false.
Proof.
  induction s as [|c s IH]; intros H; [split; reflexivity|].
  cbn [searchStop] in H. destruct (stopsHere (String c s)) eqn:Hc; [discriminate|].
  destruct (searchStop s); [discriminate|]. destruct (IH eq_refl) as [H1 H2].
  simpl. rewrite H1, H2, !orb_false_r.
  destruct (Ascii.eqb c "[" || Ascii.eqb c "/") eqn:Hs.
  - rewrite stopsHere_char in Hc by exact Hs. discriminate.
  - apply orb_false_iff in Hs. exact Hs.
Qed.

Lemma NoStop_occurs p q :
  NoStop p q -> ContextLaws.occurs "[" p = false /\ ContextLaws.occurs "/" p = false.
Proof.
  induction p as [|c p IH]; intros H; [split; reflexivity|].
  assert (Hp : NoStop p q).
  { intros b d r Hb. apply (H (String c b) d r). rewrite append_cons, Hb.
    reflexivity. }
  destruct (IH Hp) as [H1 H2]. simpl. rewrite H1, H2, !orb_false_r.
  specialize (H "" c p eq_refl).
  destruct (Ascii.eqb c "[" || Ascii.eqb c "/") eqn:Hs.
  - rewrite stopsHere_char in H by exact Hs. discriminate.
  - apply orb_false_iff in Hs. exact Hs.
Qed.

(** X12.  When [extractEventName] returns a name for a label, the
    trimmed label is that name followed by nothing or by a guard or
    action part (white space, then an opening bracket or a slash); the
    name has no white space around it and contains neither an opening
    bracket nor a slash. *)
Theorem event_name_is_the_label_before_guard_and_action label name :
  extractEventName (Some label) = Some name ->
  exists rest,
    trim label = name +:+ rest
    /\ (rest = "" \/ stopsHere rest = true)
    /\ trim name = name
    /\ ContextLaws.occurs "[" name = false /\ ContextLaws.occurs "/" name = false.
Proof.
  unfold extractEventName.
  destruct label as [|l0 l]; [discriminate|].
  destruct (trim (String l0 l)) as [|t0 t] eqn:Ht; [discriminate|].
  pose proof (trim_head _ _ _ Ht) as Hhead.
  assert (Hlast : forall b c, String t0 t = b +:+ String c "" ->
                              isWhiteSpace c = false).
  { intros b c Hb. unfold trim in Ht. rewrite Hb in Ht.
    apply (trimEnd_last _ _ _ Ht). }
  destruct (searchStop (String t0 t)) as [n|] eqn:Hstop.
  - destruct (searchStop_Some _ _ Hstop) as (p & q & Hpq & Hn & Hq & Hno).
    assert (Hslice : slice (String t0 t) 0 n = p).
    { unfold slice. rewrite Nat.sub_0_r, Hpq, <- Hn. apply substring_prefix. }
    rewrite Hslice.
    assert (Hkept : trim p = p).
    { apply trim_kept.
      - destruct p as [|c p]; [exact I|].
        rewrite append_cons in Hpq. inversion Hpq; subst. exact Hhead.
      - intros b c Hb.
        specialize (Hno b c "" Hb). rewrite append_nil in Hno.
        destruct (isWhiteSpace c) eqn:Hc; [|reflexivity].
        rewrite stopsHere_space in Hno by exact Hc. congruence. }
    rewrite Hkept. intros H. inversion H; subst name.
    exists q. split; [exact Hpq|]. split; [right; exact Hq|].
    split; [exact Hkept|]. apply (NoStop_occurs p q Hno).
  - intros H. inversion H; subst name.
    exists "". rewrite append_empty_r. split; [reflexivity|].
    split; [left; reflexivity|]. split; [|apply searchStop_None; exact Hstop].
    apply trim_kept; assumption.
Qed.

Lemma event_name_witness :
  exists rest,
    trim "  open [unlocked] / beep  " = "open" +:+ rest
    /\ (rest = "" \/ stopsHere rest = true)
    /\ trim "open" = "open"
    /\ ContextLaws.occurs "[" "open" = false
    /\ ContextLaws.occurs "/" "open" = false.
Proof.
  apply (event_name_is_the_label_before_guard_and_action
           "  open [unlocked] / beep  " "open").
  reflexivity.
Defined.

(** *** First occurrences *)

Lemma uniqueLoop_In l : forall seen x,
  In x (uniqueLoop seen l) -> In x l /\ x ∉ seen.
Proof.
  induction l as [|y l IH]; intros seen x H; [contradiction|].
  cbn [uniqueLoop] in H. destruct (bool_decide (y ∈ seen)) eqn:Hy.
  - apply IH in H as [H1 H2]. split; [right|]; assumption.
  - apply bool_decide_eq_false in Hy. destruct H as [->|H].
    + split; [left; reflexivity|exact Hy].
    + apply IH in H as [H1 H2]. split; [right; exact H1|].
      clear IH. set_solver.
Qed.

Lemma uniqueLoop_NoDup l : forall seen, List.NoDup (uniqueLoop seen l).
Proof.
  induction l as [|y l IH]; intros seen; [constructor|].
  cbn [uniqueLoop]. destruct (bool_decide (y ∈ seen)); [apply IH|].
  constructor; [|apply IH].
  intros Hin. apply uniqueLoop_In in Hin as [_ Hin]. clear IH. set_solver.
Qed.

Lemma uniqueLoop_complete l : forall seen x,
  In x l -> x ∉ seen -> In x (uniqueLoop seen l).
Proof.
  induction l as [|y l IH]; intros seen x Hin Hx; [contradiction|].
  cbn [uniqueLoop]. destruct (bool_decide (y ∈ seen)) eqn:Hy.
  - apply bool_decide_eq_true in Hy. destruct Hin as [->|Hin]; [contradiction|].
    apply IH; assumption.
  - destruct Hin as [->|Hin]; [left; reflexivity|].
    destruct (decide (x = y)) as [->|Hne]; [left; reflexivity|].
    right. apply IH; [exact Hin|]. clear IH. set_solver.
Qed.

(** *** Identifiers *)

Definition isIdentifier (s : string) : bool :=
  match s with
  | String c r => isWordStart c && allWordChars r
  | EmptyString => false
  end.

Lemma span_word s : allWordChars (fst (span isWordChar s)) = true.
Proof.
  induction s as [|c s IH]; [reflexivity|]. simpl.
  destruct (isWordChar c) eqn:Hc; [|reflexivity].
  destruct (span isWordChar s) as [a b]. simpl in *. rewrite Hc, IH.
  reflexivity.
Qed.

Lemma declarationAt_identifier prev s name n :
  declarationAt prev s = Some (name, n) -> isIdentifier name = true.
Proof.
  unfold declarationAt.
  destruct (wordBoundary prev s && _); [|discriminate].
  destruct (span isWhiteSpace (sliceFrom s 5)) as [spaces identifier].
  destruct spaces as [|w ws]; [discriminate|].
  destruct identifier as [|c r]; [discriminate|].
  destruct (isWordStart c) eqn:Hc; [|discriminate].
  pose proof (span_word (String c r)) as Hall.
  destruct (span isWordChar (String c r)) as [nm rest] eqn:Hs.
  intros H. inversion H; subst. simpl in Hs.
  assert (Hw : isWordChar c = true) by (unfold isWordChar; rewrite Hc; reflexivity).
  rewrite Hw in Hs. destruct (span isWordChar r) as [a b].
  inversion Hs; subst. simpl in *. rewrite Hc. rewrite Hw in Hall. exact Hall.
Qed.

Lemma declarations_identifiers s : forall prev skip name,
  In name (declarations prev skip s) -> isIdentifier name = true.
Proof.
  induction s as [|c s IH]; intros prev skip name H; [contradiction|].
  cbn [declarations] in H. destruct skip as [|k]; [|apply IH in H; exact H].
  destruct (declarationAt prev (String c s)) as [[nm n]|] eqn:Hd.
  - destruct H as [<-|H]; [|apply IH in H; exact H].
    apply declarationAt_identifier in Hd. exact Hd.
  - apply IH in H. exact H.
Qed.


(** X13.  The class-name items are of kind Class with labels that
    differ from one another; every label is an identifier that an open
    buffer declares behind [class] or [trait]; and for a prefix that is
    not empty every label starts with it, case ignored. *)
Theorem class_names_are_declared_identifiers documents prefix :
  let items := getClassNameCompletions documents prefix in
  List.NoDup (map label items)
  /\ forall item, In item items ->
       kind item = KindClass
       /\ isIdentifier (label item) = true
       /\ (exists document,
             In document (map_values documents)
             /\ In (label item) (declarations None 0 (getText document)))
       /\ (prefix <> "" -> matches prefix item = true).
Proof.
  intros items. subst items. unfold getClassNameCompletions. split.
  - apply filterCompletions_NoDup. rewrite map_map. simpl. rewrite map_id.
    apply uniqueLoop_NoDup.
  - intros item Hin. apply filterCompletions_In in Hin as [Hin Hm].
    apply in_map_iff in Hin as (name & <- & Hname). simpl.
    apply uniqueLoop_In in Hname as [Hname _].
    apply in_flat_map in Hname as (document & Hdoc & Hname).
    split; [reflexivity|]. split; [|split; [|exact Hm]].
    + apply (declarations_identifiers _ _ _ _ Hname).
    + exists document. auto.
Qed.

Lemma class_names_witness :
  getClassNameCompletions [("file:///project/model.ump", Examples.classBuffer)] ""
  = [{| label := "A"; kind := KindClass; detail := None |}]
  /\ isIdentifier "A" = true.
Proof.
  split; [reflexivity|].
  destruct (proj2 (class_names_are_declared_identifiers
                     [("file:///project/model.ump", Examples.classBuffer)] "")
              {| label := "A"; kind := KindClass; detail := None |})
    as (_ & Hid & _); [left; reflexivity|exact Hid].
Defined.

(** X14.  [buildKeywordCompletions] gives one item of kind Keyword for
    every keyword of its list, and none twice. *)
Theorem keyword_items_cover_the_keywords_once keywords :
  List.NoDup (map label (buildKeywordCompletions keywords))
  /\ forall k,
       In k keywords
       <-> In {| label := k; kind := KindKeyword; detail := None |}
             (buildKeywordCompletions keywords).
Proof.
  unfold buildKeywordCompletions, unique. split.
  - rewrite map_map. simpl. rewrite map_id. apply uniqueLoop_NoDup.
  - intros k. split.
    + intros Hin. apply in_map_iff. exists k. split; [reflexivity|].
      apply uniqueLoop_complete; [exact Hin|set_solver].
    + intros Hin. apply in_map_iff in Hin as (x & Hx & Hin).
      inversion Hx; subst. apply uniqueLoop_In in Hin. tauto.
Qed.

Section Handler.

Variable env : Env.
Variable buildModelCompletions : Json.json -> list CompletionItem.
Variable KEYWORDS : Keywords.
Variable ALL_KEYWORDS : list string.


End Handler.



End CompletionFacts.

(** ** What a handler touches *)

Module Footprint.
Import JsString TextDocuments Platform ServerState Server Reasoning.
Import CacheFacts ValidationFacts.
Local Open Scope list_scope.

(** What an event is about. *)
Inductive EventClass :=
| Publishing | Logging | Warning | JarWarning | Service | Tool | Files
| Timers | Rejection.

Definition EventClass_eqb (a b : EventClass) : bool :=
  match a, b with
  | Publishing, Publishing | Logging, Logging | Warning, Warning
  | JarWarning, JarWarning | Service, Service | Tool, Tool | Files, Files
  | Timers, Timers | Rejection, Rejection => true
  | _, _ => false
  end.

(** The two warnings of [resolveJarPath] start with the same words. *)
Definition classOf (e : Event) : EventClass :=
  match e with
  | SendDiagnostics _ _ => Publishing
  | ConsoleInfo _ | ConsoleWarn _ | ConsoleError _ => Logging
  | ShowWarningMessage text =>
      if String.prefix "UmpleSync jar" text then JarWarning else Warning
  | Connect _ _ _ | Spawn _ _ | Delay _ => Service
  | ExecFile _ _ => Tool
  | ExistsSync _ | Mkdtemp _ | Readdir _ | Fs _ => Files
  | SetTimeout _ _ _ | ClearTimeout _ | TimerFired _ _ => Timers
  | UnhandledRejection _ => Rejection
  end.

Definition among (classes : list EventClass) (e : Event) : bool :=
  existsb (EventClass_eqb (classOf e)) classes.

Section Frame.

Variable R : State -> State -> Prop.
Hypothesis R_refl : forall s, R s s.
Hypothesis R_trans : forall s1 s2 s3, R s1 s2 -> R s2 s3 -> R s1 s3.

Hypothesis R_publishing :
  forall e s, classOf e = Publishing -> R s (record e s).
Hypothesis R_logging : forall e s, classOf e = Logging -> R s (record e s).
Hypothesis R_warning : forall e s, classOf e = Warning -> R s (record e s).
Hypothesis R_jarWarning :
  forall e s, classOf e = JarWarning -> R s (record e s).
Hypothesis R_service : forall e s, classOf e = Service -> R s (record e s).
Hypothesis R_tool : forall e s, classOf e = Tool -> R s (record e s).
Hypothesis R_files : forall e s, classOf e = Files -> R s (record e s).
Hypothesis R_timers : forall e s, classOf e = Timers -> R s (record e s).
Hypothesis R_rejection :
  forall e s, classOf e = Rejection -> R s (record e s).

Hypothesis R_documents : forall d s, R s (set_documents d s).
Hypothesis R_modelCache : forall c s, R s (set_modelCache c s).
Hypothesis R_jarWarningShown : forall b s, R s (set_jarWarningShown b s).
Hypothesis R_serverProcess : forall p s, R s (set_serverProcess p s).
Hypothesis R_set_timers : forall t n s, R s (set_timers t n s).
Hypothesis R_pendingValidations :
  forall p s, R s (set_pendingValidations p s).

Variable env : Env.
Variable buildModelCompletions : Json.json -> list CompletionItem.

Ltac frame_step :=
  match goal with
  | |- Reasoning.Runs R (bind _ _) => apply Runs_bind; [exact R_trans| |intros ?]
  | |- Reasoning.Runs R (tryCatch _ _) =>
      apply Runs_tryCatch; [exact R_trans| |intros ?]
  | |- Reasoning.Runs R (tryFinally _ _) =>
      apply Runs_tryFinally; [exact R_trans| |]
  | |- Reasoning.Runs R (ret _) => apply Runs_ret; exact R_refl
  | |- Reasoning.Runs R (throw _) => apply Runs_throw; exact R_refl
  | |- Reasoning.Runs R get => apply Runs_get; exact R_refl
  | |- Reasoning.Runs R (forEach _ _) =>
      apply Runs_forEach; [exact R_refl|exact R_trans|intros ?]
  | |- Reasoning.Runs R (match ?x with _ => _ end) => destruct x
  end.

Ltac frame := repeat frame_step; eauto.

(** *** Calls to the platform *)

Lemma files_callFs op : Runs R (callFs env op).
Proof.
  intros s. unfold callFs. destruct (fs env (now s) op); now apply R_files.
Qed.

Lemma files_callExistsSync path : Runs R (callExistsSync env path).
Proof. intros ?. now apply R_files. Qed.

Lemma files_callMkdtemp prefix : Runs R (callMkdtemp env prefix).
Proof. intros ?. now apply R_files. Qed.

Lemma tool_callExecFile command args : Runs R (callExecFile env command args).
Proof. intros ?. now apply R_tool. Qed.

(** *** Temporary files and the shadow workspace *)

Lemma files_writeTempUmpleFile document label :
  Runs R (writeTempUmpleFile env document label).
Proof.
  unfold writeTempUmpleFile.
  destruct (getDocumentDirectory env document) as [baseDir|].
  - intros ?. apply R_refl.
  - frame. apply files_callMkdtemp.
Qed.

Lemma files_mirrorFile workspaceRoot shadowRoot filePath :
  Runs R (mirrorFile env workspaceRoot shadowRoot filePath).
Proof. unfold mirrorFile. frame; apply files_callFs. Qed.

Lemma files_walkListing onFile :
  (forall p, Runs R (onFile p)) ->
  forall listing dir, Runs R (walkListing dir listing onFile).
Proof.
  intros Hfile. fix IH 1. intros [entries|e] dir; cbn [walkListing].
  - revert entries. fix IHentries 1. intros [|entry rest].
    + apply Runs_ret, R_refl.
    + destruct entry as [name|name|name sub]; cbn [walkListing].
      * destruct (endsWith name ".ump"); [|apply IHentries].
        apply Runs_bind; [exact R_trans|apply Hfile|intros _; apply IHentries].
      * apply IHentries.
      * destruct (existsb (String.eqb name) SKIP_DIRS); [apply IHentries|].
        apply Runs_bind; [exact R_trans| |intros _].
        { intros ?. now apply R_files. }
        apply Runs_bind; [exact R_trans|apply IH|intros _; apply IHentries].
  - apply Runs_throw, R_refl.
Qed.

Lemma files_createShadowWorkspace document label :
  Runs R (createShadowWorkspace env document label).
Proof.
  unfold createShadowWorkspace, mirrorWorkspaceUmpleFiles, walkUmpleFiles,
    overlayOpenDocuments, overlayDocument.
  frame; try apply files_callFs; try apply files_callMkdtemp.
  - intros ?. now apply R_files.
  - apply files_walkListing. intros p. apply files_mirrorFile.
Qed.

(** *** Go to definition *)

Lemma warning_resolveGoToDefSettings :
  Runs R (resolveGoToDefSettings env).
Proof.
  unfold resolveGoToDefSettings. frame; try apply files_callExistsSync;
    intros ?; now apply R_warning.
Qed.

Lemma frame_onDefinition uri line character :
  Runs R (onDefinition env uri line character).
Proof.
  unfold onDefinition. frame;
    try apply files_callFs; try apply tool_callExecFile;
    try apply files_writeTempUmpleFile;
    try apply files_createShadowWorkspace;
    try apply warning_resolveGoToDefSettings;
    intros ?; now apply R_logging.
Qed.

(** *** The bridge *)

Lemma service_connectAndSend commandLine :
  Runs R (connectAndSend env commandLine).
Proof.
  intros s. unfold connectAndSend.
  destruct (socket env (exchanges s) commandLine); now apply R_service.
Qed.

Lemma service_startUmpleSyncServer jarPath :
  Runs R (startUmpleSyncServer jarPath).
Proof.
  intros s. unfold startUmpleSyncServer.
  destruct (serverProcess s); [apply R_refl|]. simpl.
  eapply R_trans; [|apply R_serverProcess]. now apply R_service.
Qed.

Lemma service_retry n commandLine error :
  Runs R (retry env n commandLine error).
Proof.
  induction n as [|n IH]; simpl; [apply Runs_throw, R_refl|].
  apply Runs_tryCatch; [exact R_trans|apply service_connectAndSend|].
  intros e. destruct (isConnectionError e); [|apply Runs_throw, R_refl].
  apply Runs_bind; [exact R_trans| |intros _; exact IH].
  intros ?. now apply R_service.
Qed.

Lemma service_sendUmpleSyncCommand jarPath commandLine :
  Runs R (sendUmpleSyncCommand env jarPath commandLine).
Proof.
  unfold sendUmpleSyncCommand.
  apply Runs_tryCatch; [exact R_trans|apply service_connectAndSend|].
  intros e. destruct (isConnectionError e); [|apply Runs_throw, R_refl].
  apply Runs_bind; [exact R_trans|apply service_startUmpleSyncServer|].
  intros [|]; [apply service_retry|apply Runs_throw, R_refl].
Qed.

Lemma logging_parseUmpleDiagnostics stderr stdout document :
  Runs R (parseUmpleDiagnostics stderr stdout document).
Proof.
  unfold parseUmpleDiagnostics. frame. intros ?. now apply R_logging.
Qed.

(** The exchange between writing the temporary file and removing it. *)
Lemma service_validation jarPath commandLine document :
  Runs R (bind (sendUmpleSyncCommand env jarPath commandLine)
          (fun out => parseUmpleDiagnostics (Demux.stderr out)
                        (Demux.stdout out) document)).
Proof.
  frame; [apply service_sendUmpleSyncCommand
         |apply logging_parseUmpleDiagnostics].
Qed.

Lemma service_model jarPath commandLine :
  Runs R (bind (sendUmpleSyncCommand env jarPath commandLine)
          (fun out =>
             match Diagnostics.extractJson (Demux.stdout out) with
             | None => ret None
             | Some jsonText =>
                 match Json.JSON_parse jsonText with
                 | Some v => ret (Some v)
                 | None => throw syntaxError
                 end
             end)).
Proof. frame. apply service_sendUmpleSyncCommand. Qed.

(** *** Validation and the model, given what [resolveJarPath] respects *)

Lemma jar_resolveJarPath : Runs R (resolveJarPath env).
Proof.
  unfold resolveJarPath.
  apply Runs_bind; [exact R_trans|apply Runs_get, R_refl|intros s0].
  cbv zeta. frame; try apply files_callExistsSync;
    intros ?; try apply R_jarWarningShown; now apply R_jarWarning.
Qed.

Hypothesis R_jar : Runs R (resolveJarPath env).

Lemma frame_runUmpleSyncAndParseDiagnostics jarPath document :
  Runs R (runUmpleSyncAndParseDiagnostics env jarPath document).
Proof.
  unfold runUmpleSyncAndParseDiagnostics. frame.
  - apply files_writeTempUmpleFile.
  - apply files_callFs.
  - apply service_sendUmpleSyncCommand.
  - apply logging_parseUmpleDiagnostics.
  - apply files_callFs.
Qed.

Lemma frame_validateTextDocument document :
  Runs R (validateTextDocument env document).
Proof.
  unfold validateTextDocument. frame.
  - apply frame_runUmpleSyncAndParseDiagnostics.
  - intros ?. now apply R_publishing.
Qed.

Lemma frame_generateModelJson document :
  Runs R (generateModelJson env document).
Proof.
  unfold generateModelJson. frame.
  - apply files_writeTempUmpleFile.
  - apply files_callFs.
  - apply service_sendUmpleSyncCommand.
  - apply files_callFs.
Qed.

Lemma frame_getModelCompletions document :
  Runs R (getModelCompletions env buildModelCompletions document).
Proof.
  unfold getModelCompletions, rebuildModelCompletions. frame;
    try apply frame_generateModelJson.
  - intros ?. now apply R_logging.
  - intros ?. apply R_modelCache.
Qed.

Lemma frame_onCompletion_modelItems uri :
  Runs R (onCompletion_modelItems env buildModelCompletions uri).
Proof.
  unfold onCompletion_modelItems. frame. apply frame_getModelCompletions.
Qed.

Lemma frame_onCompletion KEYWORDS ALL_KEYWORDS uri line character :
  Runs R (Completion.onCompletion env buildModelCompletions KEYWORDS
          ALL_KEYWORDS uri line character).
Proof.
  unfold Completion.onCompletion. frame. apply frame_getModelCompletions.
Qed.

(** *** Timers and notifications *)

Lemma timers_scheduleValidation document :
  Runs R (scheduleValidation document).
Proof.
  unfold scheduleValidation, clearTimeout, setTimeout. frame;
    intros ?; try (now apply R_timers); try apply R_set_timers;
    apply R_pendingValidations.
Qed.

Lemma frame_timerFires handle : Runs R (timerFires env handle).
Proof.
  unfold timerFires. frame; try apply frame_validateTextDocument;
    intros ?; try (now apply R_timers); try (now apply R_rejection);
    try apply R_set_timers; apply R_pendingValidations.
Qed.

Lemma frame_onDidOpenTextDocument uri languageId version text :
  Runs R (onDidOpenTextDocument uri languageId version text).
Proof.
  unfold onDidOpenTextDocument. frame; [|apply timers_scheduleValidation].
  intros ?. apply R_documents.
Qed.

Lemma frame_onDidChangeTextDocument uri version changes :
  Runs R (onDidChangeTextDocument uri version changes).
Proof.
  unfold onDidChangeTextDocument. frame; try apply timers_scheduleValidation;
    intros ?; [apply R_documents|apply R_modelCache].
Qed.

Lemma frame_onDidCloseTextDocument uri :
  Runs R (onDidCloseTextDocument uri).
Proof.
  unfold onDidCloseTextDocument. frame; intros ?;
    [apply R_documents|apply R_modelCache|now apply R_publishing].
Qed.

(** Every reaction of the server. *)
Lemma frame_step s i : R s (step env buildModelCompletions s i).
Proof.
  destruct i as [uri languageId version text|uri version changes|uri|uri
                |uri line character|handle]; simpl.
  - apply frame_onDidOpenTextDocument.
  - apply frame_onDidChangeTextDocument.
  - apply frame_onDidCloseTextDocument.
  - apply frame_onCompletion_modelItems.
  - apply frame_onDefinition.
  - apply frame_timerFires.
Qed.

Lemma frame_run inputs : forall s, R s (run env buildModelCompletions s inputs).
Proof.
  induction inputs as [|i inputs IH]; intros s; simpl.
  - apply R_refl.
  - eapply R_trans; [apply frame_step|apply IH].
Qed.

End Frame.


(** *** Footprints: the events of a handler and the variables it keeps *)

(** From [s] to [s'] events were added, all of the given classes. *)
Definition Added (classes : list EventClass) (s s' : State) : Prop :=
  exists events,
    trace s' = trace s ++ events
    /\ Forall (fun e => In (classOf e) classes) events.

(** Only such events were added, and [keep] relates the variables. *)
Definition Respects (classes : list EventClass)
    (keep : State -> State -> Prop) (s s' : State) : Prop :=
  keep s s' /\ Added classes s s'.

Section Respects.

Variable classes : list EventClass.
Variable keep : State -> State -> Prop.
Hypothesis keep_refl : forall s, keep s s.
Hypothesis keep_trans : forall s1 s2 s3, keep s1 s2 -> keep s2 s3 -> keep s1 s3.
Hypothesis keep_record : forall e s, keep s (record e s).

Lemma Respects_refl s : Respects classes keep s s.
Proof.
  split; [apply keep_refl|]. exists []. rewrite app_nil_r. auto.
Qed.

Lemma Respects_trans s1 s2 s3 :
  Respects classes keep s1 s2 -> Respects classes keep s2 s3 ->
  Respects classes keep s1 s3.
Proof.
  intros [K1 (e1 & T1 & F1)] [K2 (e2 & T2 & F2)].
  split; [eapply keep_trans; eassumption|].
  exists (e1 ++ e2). rewrite T2, T1, app_assoc. split; [reflexivity|].
  apply List.Forall_app. auto.
Qed.

Lemma Respects_record c e s :
  In c classes -> classOf e = c -> Respects classes keep s (record e s).
Proof.
  intros Hin Hc. split; [apply keep_record|].
  exists [e]. split; [reflexivity|]. constructor; [|constructor].
  rewrite Hc. exact Hin.
Qed.

Lemma Respects_set (f : State -> State) s :
  trace (f s) = trace s -> keep s (f s) -> Respects classes keep s (f s).
Proof.
  intros Ht Hk. split; [exact Hk|]. exists []. rewrite app_nil_r. auto.
Qed.

End Respects.

(** The variables a handler leaves as they are. *)
Definition allVariables (s s' : State) : Prop :=
  config s' = config s /\ documents s' = documents s
  /\ pendingValidations s' = pendingValidations s
  /\ modelCache s' = modelCache s
  /\ jarWarningShown s' = jarWarningShown s
  /\ serverProcess s' = serverProcess s
  /\ timers s' = timers s /\ nextTimer s' = nextTimer s.

Definition buffersAndTimers (s s' : State) : Prop :=
  config s' = config s /\ documents s' = documents s
  /\ pendingValidations s' = pendingValidations s
  /\ timers s' = timers s /\ nextTimer s' = nextTimer s.

Definition buffersAndCache (s s' : State) : Prop :=
  config s' = config s /\ documents s' = documents s
  /\ modelCache s' = modelCache s.

Definition serviceAndCache (s s' : State) : Prop :=
  config s' = config s /\ modelCache s' = modelCache s
  /\ jarWarningShown s' = jarWarningShown s
  /\ serverProcess s' = serverProcess s.

Definition serviceVariables (s s' : State) : Prop :=
  config s' = config s /\ jarWarningShown s' = jarWarningShown s
  /\ serverProcess s' = serverProcess s.

Definition serviceAndTimers (s s' : State) : Prop :=
  config s' = config s /\ jarWarningShown s' = jarWarningShown s
  /\ serverProcess s' = serverProcess s
  /\ pendingValidations s' = pendingValidations s
  /\ timers s' = timers s /\ nextTimer s' = nextTimer s.

Definition noVariables (s s' : State) : Prop := True.

Ltac keeps :=
  unfold allVariables, buffersAndTimers, buffersAndCache, serviceAndCache,
    serviceVariables, serviceAndTimers, noVariables;
  simpl; intuition congruence.

Ltac respects :=
  first
    [ intros ?; apply Respects_refl; keeps
    | intros ? ? ?; apply Respects_trans; keeps
    | intros ? ? ?; eapply Respects_record; [keeps| |eassumption];
      simpl; tauto
    | intros ? ?; apply Respects_set; [reflexivity|keeps]
    | intros ? ? ?; apply Respects_set; [reflexivity|keeps] ].


(** X16.  A definition request, however it ends, only reads and writes
    files, runs the lookup tool, shows warnings and writes to the log: it
    opens no connection to the UmpleSync service, starts no process,
    publishes no diagnostics and sets no timer, and it leaves every
    variable of the server as it was. *)
Theorem definition_request_keeps_to_files_and_the_tool env uri line character
    s :
  let s' := snd (onDefinition env uri line character s) in
  Added [Files; Tool; Warning; Logging] s s'
  /\ config s' = config s /\ documents s' = documents s
  /\ pendingValidations s' = pendingValidations s
  /\ modelCache s' = modelCache s
  /\ jarWarningShown s' = jarWarningShown s
  /\ serverProcess s' = serverProcess s
  /\ timers s' = timers s /\ nextTimer s' = nextTimer s.
Proof.
  intros s'.
  assert (H : Respects [Files; Tool; Warning; Logging] allVariables s s').
  { apply frame_onDefinition; respects. }
  destruct H as [K E]. split; [exact E|exact K].
Qed.

Lemma jarWarning_respected classes keep env :
  (forall s, keep s s) ->
  (forall s1 s2 s3, keep s1 s2 -> keep s2 s3 -> keep s1 s3) ->
  (forall e s, keep s (record e s)) ->
  (forall b s, keep s (set_jarWarningShown b s)) ->
  In Files classes -> In JarWarning classes ->
  Runs (Respects classes keep) (resolveJarPath env).
Proof.
  intros Hr Ht Hrec Hset HF HJ.
  apply jar_resolveJarPath.
  - intros ?; apply Respects_refl; auto.
  - intros ? ? ?; apply Respects_trans; auto.
  - intros ? ? ?; apply (Respects_record _ _ Hrec JarWarning); auto.
  - intros ? ? ?; apply (Respects_record _ _ Hrec Files); auto.
  - intros ? ?; apply Respects_set; [reflexivity|apply Hset].
Qed.

(** X17.  A completion request, however it ends, only touches files,
    talks to the UmpleSync service, shows the warning about its jar and
    writes to the log: it never runs the lookup tool, publishes no
    diagnostics and sets no timer, and it leaves the open buffers and the
    pending validations as they were. *)
Theorem completion_request_keeps_to_the_service env buildModelCompletions
    KEYWORDS ALL_KEYWORDS uri line character s :
  let s' :=
    snd (Completion.onCompletion env buildModelCompletions KEYWORDS
           ALL_KEYWORDS uri line character s) in
  Added [Files; Service; JarWarning; Logging] s s'
  /\ config s' = config s /\ documents s' = documents s
  /\ pendingValidations s' = pendingValidations s
  /\ timers s' = timers s /\ nextTimer s' = nextTimer s.
Proof.
  intros s'.
  assert (H : Respects [Files; Service; JarWarning; Logging] buffersAndTimers
                s s').
  { apply frame_onCompletion; try respects.
    apply jarWarning_respected; try keeps; simpl; tauto. }
  destruct H as [K E]. split; [exact E|exact K].
Qed.

(** X18.  Opening and changing a buffer do no input or output: they
    only set and clear timers, and opening keeps the model cache.  Closing
    a buffer only publishes, and touches no timer.  All contact with the
    file system and the service happens when a timer fires; that callback
    never runs the lookup tool and changes neither the open buffers nor
    the model cache. *)
Theorem notifications_wait_for_the_timer :
  (forall uri languageId version text s,
     let s' := snd (onDidOpenTextDocument uri languageId version text s) in
     Added [Timers] s s'
     /\ config s' = config s /\ modelCache s' = modelCache s
     /\ jarWarningShown s' = jarWarningShown s
     /\ serverProcess s' = serverProcess s)
  /\ (forall uri version changes s,
        let s' := snd (onDidChangeTextDocument uri version changes s) in
        Added [Timers] s s'
        /\ config s' = config s
        /\ jarWarningShown s' = jarWarningShown s
        /\ serverProcess s' = serverProcess s)
  /\ (forall uri s,
        let s' := snd (onDidCloseTextDocument uri s) in
        Added [Publishing] s s'
        /\ config s' = config s
        /\ jarWarningShown s' = jarWarningShown s
        /\ serverProcess s' = serverProcess s
        /\ pendingValidations s' = pendingValidations s
        /\ timers s' = timers s /\ nextTimer s' = nextTimer s)
  /\ (forall env handle s,
        let s' := snd (timerFires env handle s) in
        Added [Timers; Files; Service; JarWarning; Logging; Publishing;
               Rejection] s s'
        /\ config s' = config s /\ documents s' = documents s
        /\ modelCache s' = modelCache s).
Proof.
  split; [|split; [|split]].
  - intros uri languageId version text s s'.
    assert (H : Respects [Timers] serviceAndCache s s').
    { apply frame_onDidOpenTextDocument; respects. }
    destruct H as [K E]. split; [exact E|exact K].
  - intros uri version changes s s'.
    assert (H : Respects [Timers] serviceVariables s s').
    { apply frame_onDidChangeTextDocument; respects. }
    destruct H as [K E]. split; [exact E|exact K].
  - intros uri s s'.
    assert (H : Respects [Publishing] serviceAndTimers s s').
    { apply frame_onDidCloseTextDocument; respects. }
    destruct H as [K E]. split; [exact E|exact K].
  - intros env handle s s'.
    assert (H : Respects [Timers; Files; Service; JarWarning; Logging;
                          Publishing; Rejection] buffersAndCache s s').
    { apply frame_timerFires; try respects.
      apply jarWarning_respected; try keeps; simpl; tauto. }
    destruct H as [K E]. split; [exact E|exact K].
Qed.

(** *** The warning about the jar *)

Definition isJarWarning (e : Event) : bool :=
  EventClass_eqb (classOf e) JarWarning.

Definition jarWarnings (events : list Event) : nat :=
  List.length (List.filter isJarWarning events).

(** The flag [jarWarningShown] records whether the warning was shown. *)
Definition WarnedOnce (s : State) : Prop :=
  jarWarnings (trace s) = if jarWarningShown s then 1 else 0.

Lemma jarWarnings_record e s :
  jarWarnings (trace (record e s))
  = jarWarnings (trace s) + (if isJarWarning e then 1 else 0).
Proof.
  unfold jarWarnings. simpl. rewrite List.filter_app, List.length_app. simpl.
  destruct (isJarWarning e); reflexivity.
Qed.

Lemma WarnedOnce_record c e s :
  c <> JarWarning -> classOf e = c -> WarnedOnce s -> WarnedOnce (record e s).
Proof.
  intros Hc He H. unfold WarnedOnce in *. rewrite jarWarnings_record.
  unfold isJarWarning. rewrite He.
  destruct c; try congruence; simpl; rewrite H; simpl; lia.
Qed.

Lemma WarnedOnce_set_flag text s :
  isJarWarning (ShowWarningMessage text) = true ->
  WarnedOnce s ->
  WarnedOnce
    (if jarWarningShown s then s
     else set_jarWarningShown true (record (ShowWarningMessage text) s)).
Proof.
  intros Htext H. unfold WarnedOnce in *.
  destruct (jarWarningShown s) eqn:Hflag.
  - rewrite Hflag. exact H.
  - change (jarWarnings (trace (record (ShowWarningMessage text) s)) = 1).
    rewrite jarWarnings_record, Htext, H. reflexivity.
Qed.

Lemma resolveJarPath_state env s :
  snd (resolveJarPath env s)
  = match truthyPath (umpleSyncJarPath (config s)) with
    | None =>
        if jarWarningShown s then s
        else set_jarWarningShown true
               (record (ShowWarningMessage "UmpleSync jar path not set. Configure initializationOptions.umpleSyncJarPath or UMPLESYNC_JAR.") s)
    | Some path =>
        let s1 := record (ExistsSync path) s in
        if existsSync env (now s) path then s1
        else if jarWarningShown s1 then s1
             else set_jarWarningShown true
                    (record (ShowWarningMessage
                               ("UmpleSync jar not found at " +:+ path
                                +:+ ". Update the path or UMPLESYNC_JAR."))
                       s1)
    end.
Proof.
  unfold resolveJarPath, bind, get, callExistsSync, emit, modify, ret.
  cbv zeta.
  destruct (truthyPath (umpleSyncJarPath (config s))) as [path|].
  - destruct (existsSync env (now s) path); [reflexivity|].
    simpl. destruct (jarWarningShown s); reflexivity.
  - destruct (jarWarningShown s); reflexivity.
Qed.

Lemma WarnedOnce_resolveJarPath env :
  Runs (fun s s' => WarnedOnce s -> WarnedOnce s') (resolveJarPath env).
Proof.
  intros s H. rewrite resolveJarPath_state.
  destruct (truthyPath (umpleSyncJarPath (config s))) as [path|].
  - pose proof (WarnedOnce_record Files (ExistsSync path) s
                  ltac:(discriminate) eq_refl H) as H'.
    cbv zeta. destruct (existsSync env (now s) path); [exact H'|].
    apply WarnedOnce_set_flag; [reflexivity|exact H'].
  - apply WarnedOnce_set_flag; [reflexivity|exact H].
Qed.

(** X19.  Whatever the editor sends and whatever the machine answers,
    the server shows the warning about the UmpleSync jar at most once in
    its life, and it has shown it exactly when [jarWarningShown] is
    set. *)
Theorem jar_warning_is_shown_at_most_once env buildModelCompletions config
    inputs :
  let s := run env buildModelCompletions (initialState config) inputs in
  jarWarnings (trace s) <= 1
  /\ (jarWarningShown s = true <-> jarWarnings (trace s) = 1).
Proof.
  intros s.
  assert (H : WarnedOnce s).
  { apply (frame_run (fun s s' => WarnedOnce s -> WarnedOnce s'));
      try apply WarnedOnce_resolveJarPath;
      first
        [ intros e0 s0 Hc Hw;
          eapply WarnedOnce_record; [|exact Hc|exact Hw]; discriminate
        | intros; unfold WarnedOnce in *; simpl; auto; fail
        | reflexivity ]. }
  unfold WarnedOnce in H. rewrite H.
  destruct (jarWarningShown s); split; try lia; split; auto; discriminate.
Qed.


(** *** The temporary file of an exchange *)

(** [try { body } finally { cleanup }]: the removal comes last. *)
Lemma removal_comes_last {A} env classes (body : M A) t s :
  Runs (Respects classes noVariables) body ->
  exists events,
    trace (snd (tryFinally body (cleanup env t) s))
    = trace s ++ events ++ [Fs (cleanupOp t)]
    /\ Forall (fun e => In (classOf e) classes) events.
Proof.
  intros Hbody. unfold tryFinally.
  destruct (Hbody s) as [_ (events & Hev & Hclasses)].
  destruct (body s) as [r s1]. simpl in Hev.
  exists events. split; [|exact Hclasses]. unfold cleanup, callFs.
  destruct (fs env (now s1) (cleanupOp t)); simpl; rewrite Hev, <- app_assoc;
    reflexivity.
Qed.

Ltac bridge_only :=
  first
    [ intros ?; apply Respects_refl; exact (fun _ => I)
    | intros ? ? ?; apply Respects_trans; exact (fun _ _ _ _ _ => I)
    | intros ? ? ?; eapply Respects_record;
      [exact (fun _ _ => I)| |eassumption]; simpl; tauto
    | intros ? ?; apply Respects_set; [reflexivity|exact I] ].

(** X20.  Once the name of the temporary file is chosen, a validation
    and a model build do the same with it.  If writing it fails, the
    request fails with that error and nothing is removed.  If writing it
    succeeds, the write is followed only by the exchange with the service
    and log entries, and then by the removal of the file (or of its
    directory), whether the exchange succeeded or failed. *)
Theorem temporary_file_is_written_first_and_removed_last env document :
  (forall jarPath s t s1,
      writeTempUmpleFile env document "diag" s = (Returned t, s1) ->
      let w := WriteFile (filePath t) (normalizedText document) in
      let r := runUmpleSyncAndParseDiagnostics env jarPath document s in
      match fs env (now s1) w with
      | Some e => r = (Thrown e, record (Fs w) s1)
      | None =>
          exists events,
            trace (snd r)
            = trace s1 ++ [Fs w] ++ events ++ [Fs (cleanupOp t)]
            /\ Forall (fun e => In (classOf e) [Service; Logging]) events
      end)
  /\ (forall jarPath s0 s t s1,
         resolveJarPath env s0 = (Returned (Some jarPath), s) ->
         writeTempUmpleFile env document "model" s = (Returned t, s1) ->
         let w := WriteFile (filePath t) (normalizedText document) in
         let r := generateModelJson env document s0 in
         match fs env (now s1) w with
         | Some e => r = (Thrown e, record (Fs w) s1)
         | None =>
             exists events,
               trace (snd r)
               = trace s1 ++ [Fs w] ++ events ++ [Fs (cleanupOp t)]
               /\ Forall (fun e => In (classOf e) [Service; Logging]) events
         end).
Proof.
  split.
  - intros jarPath s t s1 Htemp w r. subst r.
    unfold runUmpleSyncAndParseDiagnostics.
    rewrite (bind_returned _ _ _ _ _ Htemp). cbv beta. fold w.
    assert (Hw : callFs env w s1
                 = match fs env (now s1) w with
                   | None => (Returned tt, record (Fs w) s1)
                   | Some e => (Thrown e, record (Fs w) s1)
                   end).
    { unfold callFs. destruct (fs env (now s1) w); reflexivity. }
    destruct (fs env (now s1) w) as [e|];
      [exact (bind_thrown _ _ _ _ _ Hw)|].
    rewrite (bind_returned _ _ _ _ _ Hw).
    match goal with
    | |- context [tryFinally ?b _ ?s2] =>
        destruct (removal_comes_last env [Service; Logging] b t s2)
          as (events & Hev & Hclasses)
    end.
    { apply service_validation; bridge_only. }
    exists events. split; [|exact Hclasses].
    rewrite Hev. simpl. rewrite <- app_assoc. reflexivity.
  - intros jarPath s0 s t s1 Hjar Htemp w r. subst r.
    unfold generateModelJson.
    rewrite (bind_returned _ _ _ _ _ Hjar). cbv beta iota.
    rewrite (bind_returned _ _ _ _ _ Htemp). cbv beta. fold w.
    assert (Hw : callFs env w s1
                 = match fs env (now s1) w with
                   | None => (Returned tt, record (Fs w) s1)
                   | Some e => (Thrown e, record (Fs w) s1)
                   end).
    { unfold callFs. destruct (fs env (now s1) w); reflexivity. }
    destruct (fs env (now s1) w) as [e|];
      [exact (bind_thrown _ _ _ _ _ Hw)|].
    rewrite (bind_returned _ _ _ _ _ Hw).
    match goal with
    | |- context [tryFinally ?b _ ?s2] =>
        destruct (removal_comes_last env [Service; Logging] b t s2)
          as (events & Hev & Hclasses)
    end.
    { apply service_model; bridge_only. }
    exists events. split; [|exact Hclasses].
    rewrite Hev. simpl. rewrite <- app_assoc. reflexivity.
Qed.

Lemma temporary_file_witness :
  exists events,
    trace (snd (runUmpleSyncAndParseDiagnostics Samples.stalling
                  "/opt/umple/umplesync.jar" Samples.firstEdit
                  (initialState Samples.sampleConfig)))
    = [] ++ [Fs (WriteFile "/project/.umple-lsp-diag-4242-1700000000000.ump"
                   ("class A {}" +:+ NL +:+ NL))]
      ++ events
      ++ [Fs (Rm "/project/.umple-lsp-diag-4242-1700000000000.ump" false)]
    /\ Forall (fun e => In (classOf e) [Service; Logging]) events.
Proof.
  exact (proj1 (temporary_file_is_written_first_and_removed_last
                  Samples.stalling Samples.firstEdit)
           "/opt/umple/umplesync.jar" (initialState Samples.sampleConfig)
           _ _ eq_refl).
Defined.

(** *** Closing a buffer *)

Lemma map_get_delete {V} (m : JsMap V) k :
  List.NoDup (map fst m) -> map_get (map_delete m k) k = None.
Proof.
  induction m as [|[k' v'] m IH]; simpl; [reflexivity|].
  intros Hnd. inversion Hnd as [|? ? Hnotin Hnd']; subst.
  destruct (String.eqb k' k) eqn:E; simpl.
  - apply String.eqb_eq in E. subst k'.
    destruct (map_get m k) as [v|] eqn:Hget; [|reflexivity].
    apply map_get_In in Hget. exfalso. apply Hnotin.
    apply in_map_iff. exists (k, v). auto.
  - rewrite E. auto.
Qed.

Lemma map_set_keys {V} (m : JsMap V) k v :
  List.NoDup (map fst m) -> List.NoDup (map fst (map_set m k v)).
Proof.
  assert (Hin : forall (m : JsMap V) x,
             In x (map fst (map_set m k v)) -> x = k \/ In x (map fst m)).
  { induction m0 as [|[k' v'] m0 IH]; simpl; intros x Hx.
    - destruct Hx as [Hx|[]]. auto.
    - destruct (String.eqb k' k) eqn:E; simpl in Hx.
      + destruct Hx as [Hx|Hx]; auto.
      + destruct Hx as [Hx|Hx]; [auto|]. destruct (IH x Hx); auto. }
  induction m as [|[k' v'] m IH]; simpl; intros Hnd.
  - constructor; [intros []|constructor].
  - inversion Hnd as [|? ? Hnotin Hnd']; subst.
    destruct (String.eqb k' k) eqn:E; simpl.
    + apply String.eqb_eq in E. subst k'. constructor; assumption.
    + constructor; [|auto]. intros Hx. destruct (Hin m k' Hx) as [Hk|Hk].
      * subst k'. rewrite String.eqb_refl in E. discriminate.
      * auto.
Qed.

Lemma map_delete_keys {V} (m : JsMap V) k :
  List.NoDup (map fst m) -> List.NoDup (map fst (map_delete m k)).
Proof.
  assert (Hin : forall (m : JsMap V) x,
             In x (map fst (map_delete m k)) -> In x (map fst m)).
  { induction m0 as [|[k' v'] m0 IH]; simpl; intros x Hx; [exact Hx|].
    destruct (String.eqb k' k); simpl in Hx; [auto|].
    destruct Hx; auto. }
  induction m as [|[k' v'] m IH]; simpl; intros Hnd; [constructor|].
  inversion Hnd as [|? ? Hnotin Hnd']; subst.
  destruct (String.eqb k' k); simpl; [assumption|].
  constructor; auto.
Qed.

(** No URI is stored twice. *)
Lemma documents_keys env buildModelCompletions config inputs :
  List.NoDup
    (map fst (documents (run env buildModelCompletions (initialState config)
                           inputs))).
Proof.
  assert (Hstep : forall s i,
             List.NoDup (map fst (documents s)) ->
             List.NoDup
               (map fst (documents (step env buildModelCompletions s i)))).
  { intros s i H.
    destruct i as [u languageId version text|u version changes|u|u
                  |u line character|handle]; simpl.
    - unfold onDidOpenTextDocument, bind, modify. simpl.
      rewrite KeepsDocuments_schedule. simpl. now apply map_set_keys.
    - unfold onDidChangeTextDocument, bind, get, modify. simpl.
      destruct (map_get (documents s) u) as [document|]; [|exact H].
      simpl. rewrite KeepsDocuments_schedule. simpl. now apply map_set_keys.
    - unfold onDidCloseTextDocument, bind, modify, emit. simpl.
      now apply map_delete_keys.
    - rewrite (Runs_onCompletion_modelItems KeepsDocuments KeepsDocuments_refl
                 KeepsDocuments_trans KeepsDocuments_passive
                 (fun _ _ => eq_refl) (fun _ _ => eq_refl)
                 env buildModelCompletions KeepsDocuments_start u s).
      exact H.
    - rewrite (Runs_onDefinition KeepsDocuments KeepsDocuments_refl
                 KeepsDocuments_trans KeepsDocuments_passive
                 env u line character s).
      exact H.
    - rewrite (KeepsDocuments_timerFires env handle s). exact H. }
  assert (H : forall s, List.NoDup (map fst (documents s)) ->
                        List.NoDup
                          (map fst (documents
                                      (run env buildModelCompletions s inputs)))).
  { induction inputs as [|i inputs IH]; intros s Hs; simpl; [exact Hs|].
    apply IH. now apply Hstep. }
  apply H. constructor.
Qed.

(** X21.  In every state the server can reach, closing a buffer removes
    it and its cache entry and publishes an empty list of diagnostics,
    but leaves a pending timer in place: when that timer fires, the
    closed document is validated all the same. *)
Theorem closing_a_buffer_does_not_cancel_its_validation env
    buildModelCompletions config inputs uri handle document :
  let s := run env buildModelCompletions (initialState config) inputs in
  timers s !! handle = Some document ->
  let s1 := snd (onDidCloseTextDocument uri s) in
  map_get (documents s1) uri = None
  /\ modelCache s1 !! uri = None
  /\ trace s1 = trace s ++ [SendDiagnostics uri []]
  /\ timers s1 = timers s
  /\ pendingValidations s1 = pendingValidations s
  /\ timerFires env handle s1
     = tryCatch (validateTextDocument env document)
         (fun e => emit (UnhandledRejection e))
         (afterBookkeeping handle document s1).
Proof.
  intros s Hh s1.
  split; [|split; [|split; [|split; [|split]]]]; try reflexivity.
  - subst s1. unfold onDidCloseTextDocument, bind, modify, emit. simpl.
    apply map_get_delete. apply documents_keys.
  - subst s1. unfold onDidCloseTextDocument, bind, modify, emit. simpl.
    apply lookup_delete_eq.
  - apply timerFires_pending. exact Hh.
Qed.

Lemma closing_witness :
  let s1 := snd (onDidCloseTextDocument Samples.modelUri Samples.opened) in
  map_get (documents s1) Samples.modelUri = None
  /\ modelCache s1 !! Samples.modelUri = None
  /\ trace s1 = trace Samples.opened ++ [SendDiagnostics Samples.modelUri []]
  /\ timers s1 = timers Samples.opened
  /\ pendingValidations s1 = pendingValidations Samples.opened
  /\ timerFires Samples.stalling 0 s1
     = tryCatch (validateTextDocument Samples.stalling Samples.firstEdit)
         (fun e => emit (UnhandledRejection e))
         (afterBookkeeping 0 Samples.firstEdit s1).
Proof.
  apply (closing_a_buffer_does_not_cancel_its_validation Samples.stalling
           Samples.noItems Samples.sampleConfig
           [DidOpen Samples.modelUri "umple" 1 "class A {}"]
           Samples.modelUri 0 Samples.firstEdit).
  vm_compute. reflexivity.
Defined.

End Footprint.

(** ** Paths below the workspace and the shadow root *)

Module PathFacts.
Import JsString TextDocuments Platform ServerState Server.
Import Path ContextFacts DefinitionFacts.
Local Open Scope list_scope.

(** A segment without a separator. *)
Fixpoint sepFree (s : string) : bool :=
  match s with
  | String c rest => negb (Ascii.eqb c SEP) && sepFree rest
  | EmptyString => true
  end.

(** The name of a file or directory. *)
Definition isName (seg : string) : Prop :=
  seg <> "" /\ seg <> "." /\ seg <> ".." /\ sepFree seg = true.

(** The normalized absolute path with the given names. *)
Definition absolute (names : list string) : string :=
  "/" +:+ joinSegments names.

Fixpoint push (seg : string) (piece : list ascii) : list ascii :=
  match seg with
  | String c rest => push rest (c :: piece)
  | EmptyString => piece
  end.

Lemma revString_push seg : forall piece,
  revString (push seg piece) = revString piece +:+ seg.
Proof.
  induction seg as [|c seg IH]; intros piece; simpl.
  - now rewrite append_empty_r.
  - rewrite IH. simpl. now rewrite append_assoc.
Qed.

Lemma splitFrom_push seg : forall piece rest,
  sepFree seg = true ->
  splitFrom (seg +:+ rest) piece = splitFrom rest (push seg piece).
Proof.
  induction seg as [|c seg IH]; intros piece rest H; [reflexivity|].
  simpl in H. apply andb_prop in H as [Hc Hseg].
  rewrite append_cons. simpl.
  destruct (Ascii.eqb c SEP); [discriminate|]. now apply IH.
Qed.

Lemma splitFrom_join l : forall x piece,
  Forall (fun seg => sepFree seg = true) (x :: l) ->
  splitFrom (joinSegments (x :: l)) piece = (revString piece +:+ x) :: l.
Proof.
  induction l as [|y l IH]; intros x piece H.
  - inversion H; subst. change (joinSegments [x]) with x.
    rewrite <- (append_empty_r x) at 1.
    rewrite splitFrom_push by assumption. simpl.
    now rewrite revString_push.
  - inversion H as [|? ? Hx Hrest]; subst.
    change (joinSegments (x :: y :: l))
      with (x +:+ "/" +:+ joinSegments (y :: l)).
    rewrite splitFrom_push by assumption.
    change ("/" +:+ joinSegments (y :: l))
      with (String "/" (joinSegments (y :: l))).
    simpl. rewrite revString_push, IH by assumption. reflexivity.
Qed.

Lemma Names_sepFree names :
  Forall isName names -> Forall (fun seg => sepFree seg = true) names.
Proof. apply List.Forall_impl. intros seg H. apply H. Qed.

Lemma segments_absolute names :
  Forall isName names ->
  segments (absolute names)
  = "" :: match names with [] => [""] | _ => names end.
Proof.
  intros H. unfold segments, absolute.
  change ("/" +:+ joinSegments names) with (String "/" (joinSegments names)).
  simpl. f_equal. destruct names as [|x l]; [reflexivity|].
  rewrite splitFrom_join by now apply Names_sepFree. reflexivity.
Qed.

Lemma normalizeSegments_names b names : forall acc,
  Forall isName names -> normalizeSegments b names acc = rev acc ++ names.
Proof.
  induction names as [|seg names IH]; intros acc H; simpl.
  - now rewrite app_nil_r.
  - inversion H as [|? ? (H1 & H2 & H3 & _) Hrest]; subst.
    apply String.eqb_neq in H1, H2, H3. rewrite H1, H2, H3. simpl.
    rewrite IH by assumption. simpl. now rewrite <- app_assoc.
Qed.

Lemma normalizeSegments_skip b segs acc :
  normalizeSegments b ("" :: segs) acc = normalizeSegments b segs acc.
Proof. reflexivity. Qed.

Lemma resolveSegments_absolute cwd names :
  Forall isName names -> resolveSegments cwd (absolute names) = names.
Proof.
  intros H. unfold resolveSegments.
  change (isAbsolute (absolute names)) with true. cbv iota.
  rewrite segments_absolute by assumption.
  destruct names as [|x l]; [reflexivity|].
  change (normalizeSegments false ("" :: x :: l) [])
    with (normalizeSegments false (x :: l) []).
  now rewrite normalizeSegments_names.
Qed.

Lemma stripCommon_app ws rs : stripCommon ws (ws ++ rs) = ([], rs).
Proof.
  induction ws as [|w ws IH]; simpl; [now destruct rs|].
  now rewrite String.eqb_refl.
Qed.

(** A path below a directory, relative to it. *)
Lemma relative_below cwd ws rs :
  Forall isName ws -> Forall isName rs -> rs <> [] ->
  relative cwd (absolute ws) (absolute (ws ++ rs)) = joinSegments rs.
Proof.
  intros Hws Hrs Hne. unfold relative.
  assert (Hall : Forall isName (ws ++ rs)) by now apply List.Forall_app.
  destruct (String.eqb (absolute ws) (absolute (ws ++ rs))) eqn:E.
  - apply String.eqb_eq in E.
    pose proof (resolveSegments_absolute cwd ws Hws) as H1.
    rewrite E, resolveSegments_absolute in H1 by assumption.
    apply (f_equal (@List.length string)) in H1.
    rewrite List.length_app in H1. destruct rs; [contradiction|simpl in H1; lia].
  - rewrite !resolveSegments_absolute by assumption.
    rewrite stripCommon_app. reflexivity.
Qed.

Lemma joinSegments_app a b :
  a <> [] -> b <> [] ->
  joinSegments (a ++ b) = joinSegments a +:+ "/" +:+ joinSegments b.
Proof.
  intros Ha Hb. induction a as [|x a IH]; [contradiction|].
  destruct a as [|y a].
  - destruct b as [|z b]; [contradiction|]. reflexivity.
  - change (joinSegments ((x :: y :: a) ++ b))
      with (x +:+ "/" +:+ joinSegments ((y :: a) ++ b)).
    rewrite IH by discriminate.
    change (joinSegments (x :: y :: a))
      with (x +:+ "/" +:+ joinSegments (y :: a)).
    now rewrite !append_assoc.
Qed.

Lemma joinSegments_head x l :
  x <> "" -> exists c r, joinSegments (x :: l) = String c r.
Proof.
  intros Hx. destruct x as [|c x]; [contradiction|].
  destruct l as [|y l]; eexists _, _; reflexivity.
Qed.

Lemma endsWithSep_cons c r :
  r <> "" -> endsWithSep (String c r) = endsWithSep r.
Proof.
  intros Hr. destruct r as [|d r]; [contradiction|].
  unfold endsWithSep. simpl. now rewrite Nat.sub_0_r.
Qed.

Lemma endsWithSep_append a b :
  b <> "" -> endsWithSep (a +:+ b) = endsWithSep b.
Proof.
  intros Hb. induction a as [|c a IH]; [reflexivity|].
  rewrite append_cons, endsWithSep_cons; [exact IH|].
  destruct a; [exact Hb|discriminate].
Qed.

Lemma endsWithSep_name seg :
  seg <> "" -> sepFree seg = true -> endsWithSep seg = false.
Proof.
  induction seg as [|c seg IH]; [contradiction|]. intros _ H.
  simpl in H. apply andb_prop in H as [Hc Hseg].
  destruct seg as [|d seg].
  - unfold endsWithSep. simpl. now destruct (Ascii.eqb c SEP).
  - rewrite endsWithSep_cons by discriminate. apply IH; [discriminate|exact Hseg].
Qed.

Lemma endsWithSep_join names :
  Forall isName names -> names <> [] ->
  forall pre, endsWithSep (pre +:+ joinSegments names) = false.
Proof.
  induction names as [|x l IH]; [contradiction|]. intros H _ pre.
  inversion H as [|? ? (Hx & _ & _ & Hfree) Hrest]; subst.
  destruct l as [|y l].
  - change (joinSegments [x]) with x.
    rewrite endsWithSep_append by exact Hx. now apply endsWithSep_name.
  - change (joinSegments (x :: y :: l))
      with (x +:+ "/" +:+ joinSegments (y :: l)).
    rewrite <- !append_assoc. apply IH; [exact Hrest|discriminate].
Qed.

(** Names joined below a directory. *)
Lemma join_below ds rs :
  Forall isName ds -> Forall isName rs -> rs <> [] ->
  join (absolute ds) (joinSegments rs) = absolute (ds ++ rs).
Proof.
  intros Hds Hrs Hne.
  assert (Hall : Forall isName (ds ++ rs)) by now apply List.Forall_app.
  destruct rs as [|r rs]; [contradiction|].
  inversion Hrs as [|? ? (Hr & _) _]; subst.
  destruct (joinSegments_head r rs Hr) as (c & tail & Hj).
  unfold join. change (absolute ds) with (String "/" (joinSegments ds)).
  rewrite Hj. rewrite <- Hj.
  change (String "/" (joinSegments ds)) with (absolute ds).
  assert (Hsegs : normalizeSegments false
                    (segments (absolute ds +:+ "/" +:+ joinSegments (r :: rs)))
                    []
                  = ds ++ r :: rs).
  { destruct ds as [|d ds].
    - change (absolute [] +:+ "/" +:+ joinSegments (r :: rs))
        with (String "/" (String "/" (joinSegments (r :: rs)))).
      unfold segments. simpl.
      rewrite splitFrom_join by now apply Names_sepFree.
      change (normalizeSegments false ("" :: "" :: ("" +:+ r) :: rs) [])
        with (normalizeSegments false (r :: rs) []).
      now rewrite normalizeSegments_names.
    - unfold absolute. rewrite append_assoc.
      rewrite <- (joinSegments_app (d :: ds) (r :: rs)) by discriminate.
      fold (absolute ((d :: ds) ++ r :: rs)).
      rewrite segments_absolute by assumption.
      cbn [app]. rewrite normalizeSegments_skip.
      rewrite normalizeSegments_names; [reflexivity|exact Hall]. }
  unfold normalize.
  change (absolute ds +:+ "/" +:+ joinSegments (r :: rs))
    with (String "/" (joinSegments ds +:+ "/" +:+ joinSegments (r :: rs))).
  change (isAbsolute (String "/" (joinSegments ds +:+ "/"
                                  +:+ joinSegments (r :: rs)))) with true.
  change (String "/" (joinSegments ds +:+ "/" +:+ joinSegments (r :: rs)))
    with (absolute ds +:+ "/" +:+ joinSegments (r :: rs)).
  cbn [negb]. rewrite Hsegs.
  assert (Hbody : exists c' r', joinSegments (ds ++ r :: rs) = String c' r').
  { destruct ds as [|d ds]; [apply joinSegments_head; exact Hr|].
    inversion Hds as [|? ? (Hd & _) _]; subst.
    apply joinSegments_head. exact Hd. }
  destruct Hbody as (c' & r' & Hbody). rewrite Hbody. rewrite <- Hbody.
  rewrite <- append_assoc.
  rewrite (endsWithSep_join (r :: rs) Hrs Hne). reflexivity.
Qed.


Lemma isAbsolute_names r rs :
  isName r -> isAbsolute (joinSegments (r :: rs)) = false.
Proof.
  intros (Hr & _ & _ & Hfree). destruct r as [|c r]; [contradiction|].
  simpl in Hfree. apply andb_prop in Hfree as [Hc _].
  destruct rs; simpl; now destruct (Ascii.eqb c SEP).
Qed.

Lemma isPathInside_below env ds rs :
  Forall isName ds -> Forall isName rs -> rs <> [] ->
  isPathInside env (absolute (ds ++ rs)) (absolute ds)
  = negb (startsWithDotDot (joinSegments rs)).
Proof.
  intros Hds Hrs Hne. unfold isPathInside.
  rewrite relative_below by assumption.
  destruct rs as [|r rs]; [contradiction|].
  inversion Hrs; subst. rewrite isAbsolute_names by assumption.
  apply andb_true_r.
Qed.

(** X22.  Mirroring and mapping back are inverse to each other.  Let the
    workspace root, the shadow root and a file below the workspace root be
    normalized absolute paths, and let the file pass the test of
    [isPathInside].  Then [mirrorWorkspaceUmpleFiles] links the file at
    the same relative path below the shadow root, and
    [resolveDefinitionUri] reports a definition found in that link at the
    file in the workspace, unless the link has the base name of the
    temporary file or is the path of the buffer. *)
Theorem mirrored_file_is_reported_in_the_workspace env ws shs rs document
    tempFile :
  Forall isName ws -> Forall isName shs -> Forall isName rs -> rs <> [] ->
  let workspaceRoot := absolute ws in
  let shadowRoot := absolute shs in
  let filePath := absolute (ws ++ rs) in
  let target := absolute (shs ++ rs) in
  isPathInside env filePath workspaceRoot = true ->
  (forall s,
     fs env (now s) (Mkdir (dirname target)) = None ->
     exists events,
       trace (snd (mirrorFile env workspaceRoot shadowRoot filePath s))
       = trace s ++ Fs (Mkdir (dirname target))
                    :: Fs (Symlink filePath target) :: events)
  /\ (basename target <> basename tempFile ->
      getDocumentFilePath env document <> Some target ->
      resolveDefinitionUri env (Some target) document tempFile
        (Some shadowRoot) (Some workspaceRoot)
      = pathToFileURL env filePath).
Proof.
  intros Hws Hshs Hrs Hne workspaceRoot shadowRoot filePath target Hin.
  assert (Hdots : startsWithDotDot (joinSegments rs) = false).
  { subst filePath workspaceRoot.
    rewrite isPathInside_below in Hin by assumption.
    now apply negb_true_iff in Hin. }
  split.
  - intros s Hmk. unfold mirrorFile. subst workspaceRoot filePath shadowRoot.
    rewrite relative_below, join_below by assumption. fold target.
    unfold bind, callFs at 1. rewrite Hmk. unfold tryCatch, callFs at 1.
    set (s1 := record (Fs (Mkdir (dirname target))) s).
    destruct (fs env (now s1) (Symlink (absolute (ws ++ rs)) target))
      as [e|].
    + destruct (code e) as [c|].
      * destruct (String.eqb c "EEXIST").
        { exists []. subst s1. simpl. rewrite <- !app_assoc. reflexivity. }
        destruct (String.eqb c "EPERM" || String.eqb c "EACCES").
        { exists [Fs (CopyFile (absolute (ws ++ rs)) target)].
          unfold callFs.
          destruct (fs env _ (CopyFile (absolute (ws ++ rs)) target));
            subst s1; simpl; rewrite <- !app_assoc; reflexivity. }
        exists []. subst s1. simpl. rewrite <- !app_assoc. reflexivity.
      * exists []. subst s1. simpl. rewrite <- !app_assoc. reflexivity.
    + exists []. subst s1. simpl. rewrite <- !app_assoc. reflexivity.
  - intros Hbase Hdoc.
    rewrite resolve_inside; try assumption; try discriminate.
    + subst shadowRoot target workspaceRoot filePath.
      rewrite relative_below, join_below by assumption. reflexivity.
    + reflexivity.
    + subst shadowRoot target. rewrite isPathInside_below by assumption.
      now rewrite Hdots.
Qed.

Lemma mirrored_file_witness :
  resolveDefinitionUri Samples.stalling
    (Some "/tmp/umple-shadow-def-Ab3dE9/sub/B.ump") Samples.firstEdit "/tmp/umple-shadow-def-Ab3dE9/A.ump"
    (Some "/tmp/umple-shadow-def-Ab3dE9") (Some "/project")
  = "file:///project/sub/B.ump".
Proof.
  refine (proj2 (mirrored_file_is_reported_in_the_workspace
                   Samples.stalling ["project"]
                   ["tmp"; "umple-shadow-def-Ab3dE9"] ["sub"; "B.ump"]
                   Samples.firstEdit "/tmp/umple-shadow-def-Ab3dE9/A.ump"
                   _ _ _ _ _) _ _);
    try (repeat first [apply List.Forall_cons | apply List.Forall_nil | split];
         first [discriminate | reflexivity]).
Defined.

End PathFacts.

(** ** The lookup tool and the reader of its output *)

From Stdlib Require DecimalFacts DecimalPos DecimalN.

Module ToolFacts.
Import JsString JsNumber Json GoToDefTool ContextFacts TextFacts.
Import CompletionFacts Server DefinitionFacts PathFacts.
Local Open Scope list_scope.

(** What [escapeJson] writes for one character. *)
Definition escaped (c : ascii) : string :=
  if Ascii.eqb c "\" then String "\" "\"
  else if Ascii.eqb c QUOTE then String "\" (String QUOTE "")
  else if Ascii.eqb c "010" then String "\" "n"
  else if Ascii.eqb c "013" then String "\" "r"
  else if Ascii.eqb c "009" then String "\" "t"
  else String c "".

Lemma replaceChar_append target replacement a b :
  replaceChar target replacement (a +:+ b)
  = replaceChar target replacement a +:+ replaceChar target replacement b.
Proof.
  induction a as [|c a IH]; [reflexivity|].
  rewrite append_cons. simpl. destruct (Ascii.eqb c target).
  - now rewrite IH, append_assoc.
  - now rewrite IH, append_cons.
Qed.

Lemma escapeJson_cons c s : escapeJson (String c s) = escaped c +:+ escapeJson s.
Proof.
  unfold escapeJson, escaped.
  change (String c s) with (String c "" +:+ s).
  rewrite !replaceChar_append.
  f_equal.
  destruct (Ascii.eqb c "\") eqn:E1.
  { apply Ascii.eqb_eq in E1. subst c. reflexivity. }
  simpl. rewrite E1. simpl.
  destruct (Ascii.eqb c QUOTE) eqn:E2.
  { apply Ascii.eqb_eq in E2. subst c. reflexivity. }
  simpl.
  destruct (Ascii.eqb c "010") eqn:E3.
  { apply Ascii.eqb_eq in E3. subst c. reflexivity. }
  simpl.
  destruct (Ascii.eqb c "013") eqn:E4.
  { apply Ascii.eqb_eq in E4. subst c. reflexivity. }
  simpl.
  destruct (Ascii.eqb c "009") eqn:E5.
  { apply Ascii.eqb_eq in E5. subst c. reflexivity. }
  reflexivity.
Qed.

Lemma escapeJson_nil : escapeJson "" = "".
Proof. reflexivity. Qed.

(** X23.  [unescapeJson] undoes [escapeJson] on every string. *)
Theorem unescapeJson_inverts_escapeJson s : unescapeJson (escapeJson s) = s.
Proof.
  induction s as [|c s IH]; [reflexivity|].
  rewrite escapeJson_cons. unfold escaped.
  destruct (Ascii.eqb c "\") eqn:E1.
  { apply Ascii.eqb_eq in E1. subst c. rewrite !append_cons, append_nil.
    simpl. now rewrite IH. }
  destruct (Ascii.eqb c QUOTE) eqn:E2.
  { apply Ascii.eqb_eq in E2. subst c. rewrite !append_cons, append_nil.
    simpl. now rewrite IH. }
  destruct (Ascii.eqb c "010") eqn:E3.
  { apply Ascii.eqb_eq in E3. subst c. rewrite !append_cons, append_nil.
    simpl. now rewrite IH. }
  destruct (Ascii.eqb c "013") eqn:E4.
  { apply Ascii.eqb_eq in E4. subst c. rewrite !append_cons, append_nil.
    simpl. now rewrite IH. }
  destruct (Ascii.eqb c "009") eqn:E5.
  { apply Ascii.eqb_eq in E5. subst c. rewrite !append_cons, append_nil.
    simpl. now rewrite IH. }
  rewrite append_cons, append_nil. simpl. rewrite E1. simpl. now rewrite IH.
Qed.


(** *** Numbers as the tool prints them *)

Import Decimal.

Fixpoint uintValue (d : uint) (v : Z) : Z :=
  match d with
  | Nil => v
  | D0 l => uintValue l (v * 10 + 0)
  | D1 l => uintValue l (v * 10 + 1)
  | D2 l => uintValue l (v * 10 + 2)
  | D3 l => uintValue l (v * 10 + 3)
  | D4 l => uintValue l (v * 10 + 4)
  | D5 l => uintValue l (v * 10 + 5)
  | D6 l => uintValue l (v * 10 + 6)
  | D7 l => uintValue l (v * 10 + 7)
  | D8 l => uintValue l (v * 10 + 8)
  | D9 l => uintValue l (v * 10 + 9)
  end%Z.

Lemma of_uint_acc_value d : forall acc,
  Z.pos (Pos.of_uint_acc d acc) = uintValue d (Z.pos acc).
Proof.
  induction d; intros acc; simpl; [reflexivity|..];
    rewrite IHd; f_equal; lia.
Qed.

Lemma of_uint_value d : Z.of_N (Pos.of_uint d) = uintValue d 0.
Proof.
  induction d; simpl; try reflexivity; try exact IHd;
    apply of_uint_acc_value.
Qed.

Lemma to_uint_value n : uintValue (N.to_uint n) 0 = Z.of_N n.
Proof.
  rewrite <- of_uint_value. change (Pos.of_uint (N.to_uint n))
    with (N.of_uint (N.to_uint n)).
  now rewrite DecimalN.Unsigned.of_to.
Qed.

(** A numeral without leading zeros. *)
Definition headed (d : uint) : Prop :=
  match d with
  | Nil | D0 (D0 _ | D1 _ | D2 _ | D3 _ | D4 _ | D5 _ | D6 _ | D7 _ | D8 _
             | D9 _) => False
  | _ => True
  end.

Lemma to_uint_headed n : headed (N.to_uint n).
Proof.
  pose proof (DecimalN.Unsigned.to_of (N.to_uint n)) as H.
  rewrite DecimalN.Unsigned.of_to in H. rewrite H. unfold unorm.
  pose proof (DecimalFacts.nzhead_nonzero (N.to_uint n)) as Hnz.
  destruct (nzhead (N.to_uint n)) eqn:E; simpl; auto.
  exfalso. eapply Hnz. reflexivity.
Qed.

Lemma digits_uint d rest : forall v n,
  match rest with String c _ => isDigit c = false | EmptyString => True end ->
  digits (NilEmpty.string_of_uint d +:+ rest) v n
  = (uintValue d v, n + nb_digits d, rest).
Proof.
  induction d; intros v n Hrest;
    try (simpl; rewrite IHd by exact Hrest;
         replace (n + S (nb_digits d)) with (S n + nb_digits d) by lia;
         reflexivity).
  simpl. rewrite append_nil, Nat.add_0_r.
  destruct rest as [|c rest]; [reflexivity|]. simpl. now rewrite Hrest.
Qed.

Definition closes (sep : ascii) : Prop := sep = ","%char \/ sep = "}"%char.

Lemma numberLiteral_uint d sep rest :
  headed d -> closes sep ->
  numberLiteral (NilEmpty.string_of_uint d +:+ String sep rest)
  = Some (finite (uintValue d 0) 0, String sep rest)
  /\ numberLiteral ("-" +:+ NilEmpty.string_of_uint d +:+ String sep rest)
     = Some (finite (- uintValue d 0) 0, String sep rest).
Proof.
  intros Hd Hsep.
  assert (Hdigits : forall v n,
             digits (NilEmpty.string_of_uint d +:+ String sep rest) v n
             = (uintValue d v, n + nb_digits d, String sep rest)).
  { intros v n. apply digits_uint. destruct Hsep; subst; reflexivity. }
  assert (Hn : exists k, 0 + nb_digits d = S k).
  { destruct d; simpl in *; try contradiction; eexists; reflexivity. }
  destruct Hn as [k Hk].
  unfold numberLiteral.
  destruct d; try contradiction;
    try (split;
         [ simpl NilEmpty.string_of_uint in *; rewrite ?append_cons in *;
           cbv iota beta;
           match goal with
           | |- context [digits ?s 0%Z 0] => rewrite (Hdigits 0%Z 0), Hk
           end;
           destruct Hsep; subst sep; reflexivity
         | simpl NilEmpty.string_of_uint in *; rewrite ?append_cons in *;
           rewrite ?append_nil; cbv iota beta;
           match goal with
           | |- context [digits ?s 0%Z 0] => rewrite (Hdigits 0%Z 0), Hk
           end;
           destruct Hsep; subst sep; reflexivity ]).
  (* the numeral 0 *)
  destruct d; try contradiction.
  destruct Hsep; subst sep; split; reflexivity.
Qed.

Lemma decimalOfZ_uint z :
  (0 <= z)%Z ->
  decimalOfZ z = NilEmpty.string_of_uint (N.to_uint (Z.to_N z))
  /\ uintValue (N.to_uint (Z.to_N z)) 0 = z.
Proof.
  intros Hz. split.
  - unfold decimalOfZ, NilZero.string_of_uint.
    pose proof (to_uint_headed (Z.to_N z)) as H.
    destruct (N.to_uint (Z.to_N z)); [contradiction|reflexivity..].
  - rewrite to_uint_value. lia.
Qed.

(** The reader of the server reads an integer as the tool prints it. *)
Lemma numberLiteral_int z sep rest :
  closes sep ->
  numberLiteral (intToString z +:+ String sep rest)
  = Some (ofZ z, String sep rest).
Proof.
  intros Hsep. unfold intToString, ofZ.
  destruct (z <? 0)%Z eqn:Hneg.
  - apply Z.ltb_lt in Hneg.
    destruct (decimalOfZ_uint (- z) ltac:(lia)) as [Hs Hv].
    rewrite Hs, append_assoc.
    rewrite (proj2 (numberLiteral_uint _ sep rest (to_uint_headed _) Hsep)).
    rewrite Hv. now rewrite Z.opp_involutive.
  - apply Z.ltb_ge in Hneg.
    destruct (decimalOfZ_uint z Hneg) as [Hs Hv].
    rewrite Hs.
    rewrite (proj1 (numberLiteral_uint _ sep rest (to_uint_headed _) Hsep)).
    now rewrite Hv.
Qed.


(** *** Strings as the tool prints them *)

(** The characters [escapeJson] makes readable: everything but the
    control characters other than tab, line feed and carriage return. *)
Definition writable (c : ascii) : bool :=
  (32 <=? nat_of_ascii c) || Ascii.eqb c "009" || Ascii.eqb c "010"
  || Ascii.eqb c "013".

Fixpoint allWritable (s : string) : bool :=
  match s with
  | String c rest => writable c && allWritable rest
  | EmptyString => true
  end.

Lemma stringBody_escaped c rest acc :
  writable c = true ->
  stringBody (escaped c +:+ rest) acc = stringBody rest (c :: acc).
Proof.
  unfold writable, escaped. intros Hc.
  destruct (Ascii.eqb c "\") eqn:E1.
  { apply Ascii.eqb_eq in E1. subst c. reflexivity. }
  destruct (Ascii.eqb c QUOTE) eqn:E2.
  { apply Ascii.eqb_eq in E2. subst c. reflexivity. }
  destruct (Ascii.eqb c "010") eqn:E3.
  { apply Ascii.eqb_eq in E3. subst c. reflexivity. }
  destruct (Ascii.eqb c "013") eqn:E4.
  { apply Ascii.eqb_eq in E4. subst c. reflexivity. }
  destruct (Ascii.eqb c "009") eqn:E5.
  { apply Ascii.eqb_eq in E5. subst c. reflexivity. }
  rewrite append_cons, append_nil. cbn [stringBody]. rewrite E1, E2.
  rewrite !orb_false_r in Hc. apply Nat.leb_le in Hc.
  destruct (nat_of_ascii c <? 32) eqn:E; [apply Nat.ltb_lt in E; lia|].
  reflexivity.
Qed.

Lemma stringBody_unwritable c rest acc :
  writable c = false -> stringBody (escaped c +:+ rest) acc = None.
Proof.
  unfold writable, escaped. intros Hc.
  apply orb_false_elim in Hc as [Hc E5].
  apply orb_false_elim in Hc as [Hc E3].
  apply orb_false_elim in Hc as [Hc E4].
  apply Nat.leb_gt in Hc.
  assert (E1 : Ascii.eqb c "\" = false).
  { apply Ascii.eqb_neq. intros ->. vm_compute in Hc. lia. }
  assert (E2 : Ascii.eqb c QUOTE = false).
  { apply Ascii.eqb_neq. intros ->. vm_compute in Hc. lia. }
  rewrite E1, E2, E3, E4, E5, append_cons, append_nil.
  cbn [stringBody]. rewrite E1, E2.
  apply Nat.ltb_lt in Hc. now rewrite Hc.
Qed.

(** The reader of the server reads a string as the tool prints it; a
    string with another control character is not read at all. *)
Lemma stringBody_escapeJson s : forall acc rest,
  stringBody (escapeJson s +:+ String QUOTE rest) acc
  = if allWritable s then Some (revString acc +:+ s, rest) else None.
Proof.
  induction s as [|c s IH]; intros acc rest.
  - rewrite escapeJson_nil, append_nil. simpl.
    now rewrite append_empty_r.
  - rewrite escapeJson_cons, append_assoc. cbn [allWritable].
    destruct (writable c) eqn:Hc.
    + rewrite stringBody_escaped, IH by exact Hc. cbn [andb].
      destruct (allWritable s); [|reflexivity].
      simpl. now rewrite append_assoc.
    + now rewrite stringBody_unwritable.
Qed.

(** *** The members of the printed object *)

Lemma parseMembers_quote fuel x acc :
  parseMembers (S fuel) (String QUOTE x) acc
  = match stringBody x [] with
    | Some (key, r1) =>
        match skipWs r1 with
        | String ":" r2 =>
            match parseValue fuel r2 with
            | Parsed v r3 =>
                match skipWs r3 with
                | String "," r4 => parseMembers fuel r4 (acc ++ [(key, v)])
                | String "}" r4 => Parsed (JObject (acc ++ [(key, v)])) r4
                | _ => SyntaxError
                end
            | SyntaxError => SyntaxError
            | OutOfFuel => OutOfFuel
            end
        | _ => SyntaxError
        end
    | None => SyntaxError
    end.
Proof. reflexivity. Qed.

Lemma parseValue_quote fuel x :
  parseValue (S fuel) (String QUOTE x)
  = match stringBody x [] with
    | Some (str, r) => Parsed (JString str) r
    | None => SyntaxError
    end.
Proof. reflexivity. Qed.

Lemma parseValue_number fuel c x :
  isDigit c || Ascii.eqb c "-" = true ->
  parseValue (S fuel) (String c x)
  = match numberLiteral (String c x) with
    | Some (n, r) => Parsed (JNumber n) r
    | None => SyntaxError
    end.
Proof.
  intros H.
  destruct c as [[] [] [] [] [] [] [] []]; try discriminate H; reflexivity.
Qed.

Lemma intToString_head z rest :
  exists c x, intToString z +:+ rest = String c x
              /\ isDigit c || Ascii.eqb c "-" = true.
Proof.
  unfold intToString. destruct (z <? 0)%Z eqn:Hneg.
  - eexists _, _. rewrite append_assoc, append_cons. split; reflexivity.
  - apply Z.ltb_ge in Hneg.
    destruct (decimalOfZ_uint z Hneg) as [-> _].
    pose proof (to_uint_headed (Z.to_N z)) as H.
    destruct (N.to_uint (Z.to_N z)); try contradiction;
      eexists _, _; simpl; rewrite append_cons; split; reflexivity.
Qed.

Lemma parseValue_int fuel z sep rest :
  closes sep ->
  parseValue (S fuel) (intToString z +:+ String sep rest)
  = Parsed (JNumber (ofZ z)) (String sep rest).
Proof.
  intros Hsep.
  destruct (intToString_head z (String sep rest)) as (c & x & Htext & Hc).
  pose proof (numberLiteral_int z sep rest Hsep) as Hn.
  rewrite Htext in *. rewrite parseValue_number by exact Hc.
  now rewrite Hn.
Qed.

Lemma skipWs_colon x : skipWs (String ":" x) = String ":" x.
Proof. reflexivity. Qed.

(** A member whose value is a string, followed by a comma. *)
Lemma member_string fuel key value rest acc :
  allWritable key = true ->
  parseMembers (S (S fuel))
    (String QUOTE
       (escapeJson key
        +:+ String QUOTE
              (String ":"
                 (String QUOTE
                    (escapeJson value +:+ String QUOTE (String "," rest))))))
    acc
  = if allWritable value
    then parseMembers (S fuel) rest (acc ++ [(key, JString value)])
    else SyntaxError.
Proof.
  intros Hkey. rewrite parseMembers_quote, stringBody_escapeJson, Hkey.
  rewrite append_nil, skipWs_colon. cbv iota beta.
  rewrite parseValue_quote, stringBody_escapeJson.
  destruct (allWritable value); [|reflexivity].
  rewrite append_nil. reflexivity.
Qed.

(** A member whose value is an integer. *)
Lemma member_int fuel key z sep rest acc :
  allWritable key = true -> closes sep ->
  parseMembers (S (S fuel))
    (String QUOTE
       (escapeJson key
        +:+ String QUOTE (String ":" (intToString z +:+ String sep rest))))
    acc
  = if Ascii.eqb sep ","
    then parseMembers (S fuel) rest (acc ++ [(key, JNumber (ofZ z))])
    else Parsed (JObject (acc ++ [(key, JNumber (ofZ z))])) rest.
Proof.
  intros Hkey Hsep. rewrite parseMembers_quote, stringBody_escapeJson, Hkey.
  rewrite append_nil, skipWs_colon. cbv iota beta.
  rewrite parseValue_int by exact Hsep.
  destruct Hsep; subst sep; reflexivity.
Qed.


Lemma parseValue_true fuel rest :
  parseValue (S fuel) ("true" +:+ rest) = Parsed (JBool true) rest.
Proof.
  change ("true" +:+ rest)
    with (String "t" (String "r" (String "u" (String "e" rest)))).
  cbn [parseValue skipWs]. change (isJsonSpace "t") with false. cbv iota.
  unfold literal, sliceFrom. simpl.
  replace (String.prefix "" rest) with true by now destruct rest.
  now rewrite Nat.sub_0_r, substring_whole.
Qed.

(** The member [found], followed by a comma. *)
Lemma member_true fuel key rest acc :
  allWritable key = true ->
  parseMembers (S (S fuel))
    (String QUOTE
       (escapeJson key
        +:+ String QUOTE (String ":" ("true" +:+ String "," rest))))
    acc
  = parseMembers (S fuel) rest (acc ++ [(key, JBool true)]).
Proof.
  intros Hkey. rewrite parseMembers_quote, stringBody_escapeJson, Hkey.
  rewrite append_nil, skipWs_colon. cbv iota beta.
  rewrite parseValue_true. reflexivity.
Qed.

Lemma parseValue_object fuel rest :
  parseValue (S fuel) (String "{" (String QUOTE rest))
  = parseMembers fuel (String QUOTE rest) [].
Proof. reflexivity. Qed.

Lemma trimEnd_space s c :
  isWhiteSpace c = true -> trimEnd (s +:+ String c "") = trimEnd s.
Proof.
  intros Hc. induction s as [|d s IH].
  - rewrite append_nil. simpl. now rewrite Hc.
  - rewrite append_cons, !trimEnd_cons, IH. reflexivity.
Qed.

(** What the reader makes of a printed result. *)
Definition readBack (d : DefLocation) : json :=
  JObject [("found", JBool true); ("kind", JString (kind d));
           ("name", JString (name d)); ("file", JString (file d));
           ("line", JNumber (ofZ (line d)));
           ("col", JNumber (ofZ (col d)))].

Lemma JSON_parse_toJson d :
  JSON_parse (toJson d)
  = if allWritable (kind d) && allWritable (name d) && allWritable (file d)
    then Some (readBack d)
    else None.
Proof.
  unfold JSON_parse.
  assert (Hlen : exists n, String.length (toJson d) = S (S (S (S n)))).
  { eexists. reflexivity. }
  destruct Hlen as [n ->].
  replace (2 * S (S (S (S n))) + 1)
    with (S (S (S (S (S (S (S (S (S (2 * n)))))))))) by lia.
  change (toJson d)
    with (String "{"
            (String QUOTE
               (escapeJson "found"
                +:+ String QUOTE
                      (String ":"
                         ("true"
                          +:+ String ","
       (String QUOTE
          (escapeJson "kind"
           +:+ String QUOTE
                 (String ":"
                    (String QUOTE
                       (escapeJson (kind d)
                        +:+ String QUOTE
                              (String ","
       (String QUOTE
          (escapeJson "name"
           +:+ String QUOTE
                 (String ":"
                    (String QUOTE
                       (escapeJson (name d)
                        +:+ String QUOTE
                              (String ","
       (String QUOTE
          (escapeJson "file"
           +:+ String QUOTE
                 (String ":"
                    (String QUOTE
                       (escapeJson (file d)
                        +:+ String QUOTE
                              (String ","
       (String QUOTE
          (escapeJson "line"
           +:+ String QUOTE
                 (String ":"
                    (intToString (line d)
                     +:+ String ","
       (String QUOTE
          (escapeJson "col"
           +:+ String QUOTE
                 (String ":"
                    (intToString (col d) +:+ String "}" ""))))))))))))))))))))))))))))))).
  rewrite parseValue_object.
  rewrite member_true by reflexivity.
  rewrite member_string by reflexivity.
  destruct (allWritable (kind d)); [|reflexivity].
  rewrite member_string by reflexivity.
  destruct (allWritable (name d)); [|reflexivity].
  rewrite member_string by reflexivity.
  destruct (allWritable (file d)); [|reflexivity].
  rewrite member_int by (try reflexivity; left; reflexivity).
  change (Ascii.eqb "," ",") with true. cbv iota.
  rewrite member_int by (try reflexivity; right; reflexivity).
  reflexivity.
Qed.

Lemma trim_toJson d : trim (toJson d +:+ NL) = toJson d.
Proof.
  unfold trim.
  change (trimStart (toJson d +:+ NL)) with (toJson d +:+ NL).
  unfold NL. rewrite trimEnd_space by reflexivity.
  unfold toJson. rewrite <- !append_assoc.
  apply trimEnd_kept. reflexivity.
Qed.

(** X24.  The server reads a found result exactly as the tool printed
    it.  When kind, name and file contain no control character other than
    tab, line feed and carriage return, [parseGoToDefOutput] returns the
    object with the six members and their values, and the request
    resolves the trimmed file name and answers the position one less in
    line and column, not below zero.  When one of the three strings
    contains another control character, the printed text is not JSON and
    the answer is empty. *)
Theorem server_reads_what_the_tool_prints env d document tempFile shadowInfo :
  let readable :=
    allWritable (kind d) && allWritable (name d) && allWritable (file d) in
  parseGoToDefOutput (toJson d +:+ NL)
  = (if readable then Some (readBack d) else None)
  /\ locationsOf env (toJson d +:+ NL) document tempFile shadowInfo
     = Some
         (if readable then
            let position :=
              Lsp.Position_create (ofZ (Z.max (line d - 1) 0))
                (ofZ (Z.max (col d - 1) 0)) in
            [Lsp.Location_create
               (resolveDefinitionUri env (Some (trim (file d))) document
                  tempFile (option_map shadowRoot shadowInfo)
                  (option_map workspaceRoot shadowInfo))
               (Lsp.Range_create position position)]
          else []).
Proof.
  intros readable.
  assert (Hparse : parseGoToDefOutput (toJson d +:+ NL)
                   = if readable then Some (readBack d) else None).
  { unfold parseGoToDefOutput. rewrite trim_toJson.
    assert (Hhead : exists r, toJson d = String "{" r)
      by (eexists; reflexivity).
    destruct Hhead as [r Hhead]. rewrite Hhead at 1. rewrite <- Hhead.
    rewrite JSON_parse_toJson. fold readable.
    destruct readable; reflexivity. }
  split; [exact Hparse|].
  unfold locationsOf. rewrite Hparse.
  destruct readable; [|reflexivity].
  unfold readBack, rawFileOf. cbn [member getOwn String.eqb Ascii.eqb Bool.eqb].
  rewrite !zeroBased_integer. reflexivity.
Qed.


(** *** Line and column of an offset *)

Local Open Scope Z_scope.

Fixpoint countLF (s : string) : nat :=
  match s with
  | String c rest => (if Ascii.eqb c "010" then 1 else 0) + countLF rest
  | EmptyString => 0
  end.

(** The offset at which the last line of [s] starts. *)
Definition lineStart (s : string) : nat :=
  match lastIndexOfChar s "010" with
  | Some i => S i
  | None => 0
  end.

Lemma wrapInt_small z : - 2 ^ 31 <= z < 2 ^ 31 -> wrapInt z = z.
Proof.
  intros H. unfold wrapInt. rewrite Z.mod_small; lia.
Qed.

Lemma countLF_length s : (countLF s <= String.length s)%nat.
Proof.
  induction s as [|c s IH]; simpl; [lia|].
  destruct (Ascii.eqb c "010"); lia.
Qed.

Lemma lineColLoop_prefix before after : forall line col,
  1 <= line -> 1 <= col ->
  line + Z.of_nat (String.length before) < 2 ^ 31 ->
  col + Z.of_nat (String.length before) < 2 ^ 31 ->
  lineColLoop (before +:+ after) (String.length before) line col
  = (line + Z.of_nat (countLF before),
     match lastIndexOfChar before "010" with
     | Some i => 1 + Z.of_nat (String.length before - S i)
     | None => col + Z.of_nat (String.length before)
     end).
Proof.
  induction before as [|c before IH]; intros line col Hl Hc Hlb Hcb.
  - rewrite append_nil. simpl. destruct after; f_equal; lia.
  - rewrite append_cons. cbn [String.length lineColLoop lastIndexOfChar countLF].
    cbn [String.length] in Hlb, Hcb.
    destruct (Ascii.eqb c "010") eqn:E.
    + rewrite wrapInt_small by lia. rewrite IH by lia.
      destruct (lastIndexOfChar before "010") as [i|]; f_equal; lia.
    + rewrite wrapInt_small by lia. rewrite IH by lia.
      destruct (lastIndexOfChar before "010") as [i|]; f_equal; lia.
Qed.

Lemma lineColLoop_end text : forall steps line col,
  (String.length text <= steps)%nat ->
  lineColLoop text steps line col
  = lineColLoop text (String.length text) line col.
Proof.
  induction text as [|c text IH]; intros steps line col H.
  - destruct steps; reflexivity.
  - destruct steps as [|steps]; [simpl in H; lia|].
    cbn [String.length lineColLoop]. simpl in H.
    destruct (Ascii.eqb c "010"); apply IH; lia.
Qed.

(** X25.  For a text shorter than [2^31 - 1] characters,
    [lineColFromOffset] at the offset that ends [before] returns one more
    than the number of line feeds in [before] and one more than the
    distance of the offset from the start of its line; an offset behind
    the text counts as its end, and an offset that is not positive gives
    line 1, column 1. *)
Theorem lineColFromOffset_counts_lines_and_columns before after :
  Z.of_nat (String.length (before +:+ after)) < 2 ^ 31 - 1 ->
  let text := before +:+ after in
  lineColFromOffset text (Z.of_nat (String.length before))
  = (1 + Z.of_nat (countLF before),
     1 + Z.of_nat (String.length before - lineStart before))
  /\ (forall offset,
        Z.of_nat (String.length text) <= offset ->
        lineColFromOffset text offset
        = lineColFromOffset text (Z.of_nat (String.length text)))
  /\ (forall offset, offset <= 0 -> lineColFromOffset text offset = (1, 1)).
Proof.
  intros Hlen text. rewrite length_append in Hlen.
  split; [|split].
  - unfold lineColFromOffset, lineStart. rewrite Nat2Z.id.
    subst text. rewrite lineColLoop_prefix by lia.
    destruct (lastIndexOfChar before "010"); f_equal.
    f_equal. lia.
  - intros offset Hoff. unfold lineColFromOffset. rewrite Nat2Z.id.
    apply lineColLoop_end. lia.
  - intros offset Hoff. unfold lineColFromOffset.
    replace (Z.to_nat offset) with O by lia. now destruct text.
Qed.

Lemma lineColFromOffset_witness :
  lineColFromOffset ("class A {}" +:+ NL +:+ "class B {}") 11 = (2, 1).
Proof.
  exact (proj1 (lineColFromOffset_counts_lines_and_columns
                  ("class A {}" +:+ NL) "class B {}" ltac:(vm_compute; reflexivity))).
Defined.

Local Close Scope Z_scope.

End ToolFacts.

(** ** The items of the model *)

Module ModelFacts.
Import JsString JsNumber Json ServerState Completion ModelItems.
Local Open Scope list_scope.

(** The key under which [addCompletion] remembers an item. *)
Definition keyText (item : ModelItem) : option string :=
  option_map
    (fun text => decimalOfZ (kindNumber (kind item)) +:+ ":" +:+ text)
    (ToString (label item)).

(** What every item of the model looks like: the label holds as a
    condition, and the detail goes with the kind. *)
Definition wellFormed (item : ModelItem) : Prop :=
  ToBoolean (Some (label item)) = true
  /\ match kind item with
     | KindClass => detail item = "class"
     | KindField => True
     | KindEnumMember => detail item = "state"
     | KindEvent =>
         detail item = "event"
         /\ exists name, label item = JString name /\ name <> ""
     | KindProperty => detail item = "association"
     | KindKeyword => False
     end.

(** [seen] holds the keys of [items], and no key occurs twice. *)
Definition Consistent (c : Collected) : Prop :=
  exists keys,
    map keyText c.1 = map Some keys
    /\ List.NoDup keys
    /\ (forall k, k ∈ c.2 <-> In k keys)
    /\ Forall wellFormed c.1.

Definition Keeps (m : Statement) : Prop :=
  forall c c', Consistent c -> m c = Some c' -> Consistent c'.

Lemma Keeps_skip : Keeps skip.
Proof. intros c c' H E. inversion E; subst. exact H. Qed.

Lemma Keeps_fail : Keeps (fun _ => None).
Proof. intros c c' H E. discriminate. Qed.

Lemma Keeps_andThen a b : Keeps a -> Keeps b -> Keeps (andThen a b).
Proof.
  intros Ha Hb c c' H E. unfold andThen in E.
  destruct (a c) as [c1|] eqn:E1; [|discriminate].
  eapply Hb; [eapply Ha; eassumption|exact E].
Qed.

Lemma Keeps_forEach l body :
  (forall x, Keeps (body x)) -> Keeps (forEach l body).
Proof.
  intros Hb. induction l as [|x l IH]; simpl.
  - apply Keeps_skip.
  - apply Keeps_andThen; [apply Hb|exact IH].
Qed.

Lemma Keeps_forOf object name body :
  (forall x, Keeps (body x)) -> Keeps (forOf object name body).
Proof.
  intros Hb. unfold forOf.
  destruct (member object name) as [v|]; [|apply Keeps_fail].
  destruct (iterated v) as [l|]; [|apply Keeps_fail].
  now apply Keeps_forEach.
Qed.

Lemma Keeps_addCompletion item :
  wellFormed item -> Keeps (addCompletion item).
Proof.
  intros Hwf [items seen] c' (keys & Hkeys & Hnd & Hseen & Hall) E.
  unfold addCompletion in E. simpl in *.
  destruct (ToString (label item)) as [text|] eqn:Htext; [|discriminate].
  set (key := decimalOfZ (kindNumber (kind item)) +:+ ":" +:+ text) in *.
  destruct (bool_decide (key ∈ seen)) eqn:Hin; inversion E; subst; clear E.
  - exists keys. auto.
  - apply bool_decide_eq_false in Hin.
    exists (keys ++ [key]). simpl. repeat split.
    + rewrite !map_app, Hkeys. simpl. unfold keyText. rewrite Htext.
      reflexivity.
    + apply NoDup_ListNoDup, NoDup_app. repeat split.
      * now apply NoDup_ListNoDup.
      * intros k Hk Hk'. apply list_elem_of_singleton in Hk'. subst k.
        apply Hin, Hseen. now apply list_elem_of_In.
      * apply NoDup_singleton.
    + intros Hk. apply in_or_app. apply elem_of_union in Hk as [Hk|Hk].
      * apply elem_of_singleton in Hk. subst k. right. left. reflexivity.
      * left. now apply Hseen.
    + intros Hk. apply elem_of_union. apply in_app_or in Hk as [Hk|Hk].
      * right. now apply Hseen.
      * destruct Hk as [<-|[]]. left. now apply elem_of_singleton.
    + apply List.Forall_app. split; [exact Hall|]. constructor; [exact Hwf|constructor].
Qed.

Lemma truthy_holds v x : truthy v = Some x -> ToBoolean (Some x) = true.
Proof.
  unfold truthy. destruct v as [y|]; [|discriminate].
  destruct (ToBoolean (Some y)) eqn:E; [|discriminate].
  intros H. inversion H; subst. exact E.
Qed.

Ltac keeps_step :=
  match goal with
  | |- Keeps skip => apply Keeps_skip
  | |- Keeps (fun _ => None) => apply Keeps_fail
  | |- Keeps (andThen _ _) => apply Keeps_andThen
  | |- Keeps (forOf _ _ _) => apply Keeps_forOf; intros ?
  | |- Keeps (addCompletion _) => apply Keeps_addCompletion
  | |- Keeps (match ?x with _ => _ end) => destruct x eqn:?
  end.

Lemma Keeps_attributeStatement className attr :
  Keeps (attributeStatement className attr).
Proof.
  unfold attributeStatement. repeat keeps_step.
  split; [eapply truthy_holds; eassumption|exact I].
Qed.

Lemma Keeps_stateStatement state : Keeps (stateStatement state).
Proof.
  unfold stateStatement. repeat keeps_step.
  split; [eapply truthy_holds; eassumption|reflexivity].
Qed.

Lemma Keeps_labelStatement label : Keeps (labelStatement label).
Proof.
  unfold labelStatement. repeat keeps_step.
  split; [reflexivity|]. split; [reflexivity|].
  eexists. split; [reflexivity|discriminate].
Qed.

Lemma Keeps_classStatement umpleClass : Keeps (classStatement umpleClass).
Proof.
  unfold classStatement, stateMachineStatement, transitionStatement.
  repeat keeps_step;
    try apply Keeps_attributeStatement; try apply Keeps_stateStatement;
    try apply Keeps_labelStatement.
  split; [eapply truthy_holds; eassumption|reflexivity].
Qed.

Lemma Keeps_associationStatement assoc : Keeps (associationStatement assoc).
Proof.
  unfold associationStatement. repeat keeps_step.
  split; [eapply truthy_holds; eassumption|reflexivity].
Qed.

Lemma Consistent_empty : Consistent ([], ∅).
Proof.
  exists []. repeat split; try constructor.
  - intros H. now apply elem_of_empty in H.
  - intros [].
Qed.

(** *** Every name of the model is offered *)

(** The text of the key of a kind and a label. *)
Definition keyFor (k : CompletionItemKind) (text : string) : string :=
  decimalOfZ (kindNumber k) +:+ ":" +:+ text.

Lemma keyFor_inj k1 t1 k2 t2 :
  keyFor k1 t1 = keyFor k2 t2 -> k1 = k2 /\ t1 = t2.
Proof.
  unfold keyFor. intros H.
  destruct k1, k2; cbv in H; inversion H; auto.
Qed.

(** [seen] only grows. *)
Definition Grows (m : Statement) : Prop :=
  forall c c' k, m c = Some c' -> k ∈ c.2 -> k ∈ c'.2.

(** Where [m] ends, [key] is in [seen]. *)
Definition Offers (key : string) (m : Statement) : Prop :=
  forall c c', m c = Some c' -> key ∈ c'.2.

Lemma Grows_skip : Grows skip.
Proof. intros c c' k E H. inversion E; subst. exact H. Qed.

Lemma Grows_fail : Grows (fun _ => None).
Proof. intros c c' k E. discriminate. Qed.

Lemma Grows_andThen a b : Grows a -> Grows b -> Grows (andThen a b).
Proof.
  intros Ha Hb c c' k E H. unfold andThen in E.
  destruct (a c) as [c1|] eqn:E1; [|discriminate].
  eapply Hb; [exact E|]. eapply Ha; eassumption.
Qed.

Lemma Grows_forEach l body :
  (forall x, Grows (body x)) -> Grows (forEach l body).
Proof.
  intros Hb. induction l as [|x l IH]; simpl.
  - apply Grows_skip.
  - apply Grows_andThen; [apply Hb|exact IH].
Qed.

Lemma Grows_forOf object name body :
  (forall x, Grows (body x)) -> Grows (forOf object name body).
Proof.
  intros Hb. unfold forOf.
  destruct (member object name) as [v|]; [|apply Grows_fail].
  destruct (iterated v) as [l|]; [|apply Grows_fail].
  now apply Grows_forEach.
Qed.

Lemma Grows_addCompletion item : Grows (addCompletion item).
Proof.
  intros [items seen] c' k E H. unfold addCompletion in E. simpl in *.
  destruct (ToString (label item)) as [text|]; [|discriminate].
  destruct (bool_decide _); inversion E; subst; simpl; [exact H|].
  apply elem_of_union. now right.
Qed.

Ltac grows_step :=
  match goal with
  | |- Grows skip => apply Grows_skip
  | |- Grows (fun _ => None) => apply Grows_fail
  | |- Grows (andThen _ _) => apply Grows_andThen
  | |- Grows (forOf _ _ _) => apply Grows_forOf; intros ?
  | |- Grows (addCompletion _) => apply Grows_addCompletion
  | |- Grows (match ?x with _ => _ end) => destruct x
  end.

Lemma Grows_classStatement umpleClass : Grows (classStatement umpleClass).
Proof.
  unfold classStatement, stateMachineStatement, transitionStatement,
    attributeStatement, stateStatement, labelStatement.
  repeat grows_step.
Qed.

Lemma Grows_associationStatement assoc : Grows (associationStatement assoc).
Proof. unfold associationStatement. repeat grows_step. Qed.

Lemma Offers_addCompletion item text :
  ToString (label item) = Some text ->
  Offers (keyFor (kind item) text) (addCompletion item).
Proof.
  intros Htext [items seen] c' E. unfold addCompletion in E. simpl in *.
  rewrite Htext in E. fold (keyFor (kind item) text) in E.
  destruct (bool_decide _) eqn:Hin; inversion E; subst; simpl.
  - now apply bool_decide_eq_true in Hin.
  - apply elem_of_union. left. now apply elem_of_singleton.
Qed.

Lemma Offers_first key a b : Offers key a -> Grows b -> Offers key (andThen a b).
Proof.
  intros Ha Hb c c' E. unfold andThen in E.
  destruct (a c) as [c1|] eqn:E1; [|discriminate].
  eapply Hb; [exact E|]. eapply Ha. exact E1.
Qed.

Lemma Offers_second key a b : Offers key b -> Offers key (andThen a b).
Proof.
  intros Hb c c' E. unfold andThen in E.
  destruct (a c) as [c1|]; [|discriminate]. eapply Hb. exact E.
Qed.

Lemma Offers_forEach key l body x :
  In x l -> Offers key (body x) -> (forall y, Grows (body y)) ->
  Offers key (forEach l body).
Proof.
  intros Hin Hx Hg. induction l as [|y l IH]; [contradiction|]. simpl.
  destruct Hin as [->|Hin].
  - apply Offers_first; [exact Hx|now apply Grows_forEach].
  - apply Offers_second. now apply IH.
Qed.

(** The elements of the array under a name. *)
Definition elementsOf (object : json) (name : string) : list json :=
  match member object name with
  | Some (Some (JArray elements)) => elements
  | _ => []
  end.

Lemma Offers_forOf key object name body x :
  In x (elementsOf object name) -> Offers key (body x) ->
  (forall y, Grows (body y)) ->
  Offers key (forOf object name body).
Proof.
  unfold elementsOf, forOf. intros Hin Hx Hg.
  destruct (member object name) as [[v|]|]; try contradiction.
  destruct v; try contradiction. simpl.
  eapply Offers_forEach; eassumption.
Qed.

(** The name of an element of the model, read as a label. *)
Definition named (object : json) (text : string) : Prop :=
  exists name,
    member object "name" = Some (Some name)
    /\ ToBoolean (Some name) = true
    /\ ToString name = Some text.

Lemma named_truthy object name :
  member object "name" = Some (Some name) ->
  ToBoolean (Some name) = true ->
  truthy (Some name) = Some name.
Proof. intros _ H. unfold truthy. now rewrite H. Qed.

Lemma Offers_class umpleClass text :
  named umpleClass text ->
  Offers (keyFor KindClass text) (classStatement umpleClass).
Proof.
  intros (name & Hname & Htrue & Htext). unfold classStatement.
  rewrite Hname. cbv zeta. unfold truthy at 1. rewrite Htrue.
  apply Offers_first.
  - exact (Offers_addCompletion
             {| label := name; kind := KindClass; detail := "class" |}
             text Htext).
  - unfold stateMachineStatement, transitionStatement, attributeStatement,
      stateStatement, labelStatement.
    repeat grows_step.
Qed.

Lemma Offers_later umpleClass key :
  Offers key
    (andThen
       (forOf umpleClass "attributes"
          (attributeStatement
             (match member umpleClass "name" with
              | Some name => truthy name
              | None => None
              end)))
       (forOf umpleClass "stateMachines" stateMachineStatement)) ->
  Offers key (classStatement umpleClass).
Proof.
  intros H. unfold classStatement.
  destruct (member umpleClass "name") as [name|]; [|intros c c' E; discriminate].
  cbv zeta. apply Offers_second. exact H.
Qed.

Lemma Grows_attributeStatement className attr :
  Grows (attributeStatement className attr).
Proof. unfold attributeStatement. repeat grows_step. Qed.

Lemma Grows_stateMachineStatement sm : Grows (stateMachineStatement sm).
Proof.
  unfold stateMachineStatement, transitionStatement, stateStatement,
    labelStatement.
  repeat grows_step.
Qed.

Lemma Offers_attribute className attr text :
  named attr text ->
  Offers (keyFor KindField text) (attributeStatement className attr).
Proof.
  intros (name & Hname & Htrue & Htext). unfold attributeStatement.
  rewrite Hname. unfold truthy at 1. rewrite Htrue. cbv zeta.
  match goal with
  | |- Offers _ (match ?d with Some _ => _ | None => _ end) =>
      destruct d as [detail|]; [|intros c c' E; discriminate]
  end.
  exact (Offers_addCompletion
           {| label := name; kind := KindField; detail := detail |}
           text Htext).
Qed.

Lemma Offers_state state text :
  named state text ->
  Offers (keyFor KindEnumMember text) (stateStatement state).
Proof.
  intros (name & Hname & Htrue & Htext). unfold stateStatement.
  rewrite Hname. unfold truthy. rewrite Htrue.
  exact (Offers_addCompletion
           {| label := name; kind := KindEnumMember; detail := "state" |}
           text Htext).
Qed.

Lemma Offers_label label text eventName :
  labelText label = Some (JString text) ->
  extractEventName (Some text) = Some eventName -> eventName <> "" ->
  Offers (keyFor KindEvent eventName) (labelStatement label).
Proof.
  intros Hlabel Hevent Hne. unfold labelStatement, eventNameOf.
  rewrite Hlabel. unfold truthy.
  destruct text as [|c text]; [discriminate Hevent|].
  cbn [ToBoolean String.eqb negb]. rewrite Hevent.
  destruct eventName as [|d eventName]; [contradiction|].
  exact (Offers_addCompletion
           {| label := JString (String d eventName); kind := KindEvent;
              detail := "event" |}
           (String d eventName) eq_refl).
Qed.

Lemma Offers_association assoc name text :
  associationName assoc = Some (Some name) ->
  ToBoolean (Some name) = true -> ToString name = Some text ->
  Offers (keyFor KindProperty text) (associationStatement assoc).
Proof.
  intros Hname Htrue Htext. unfold associationStatement.
  rewrite Hname. unfold truthy. rewrite Htrue.
  exact (Offers_addCompletion
           {| label := name; kind := KindProperty; detail := "association" |}
           text Htext).
Qed.

(** An item of the given kind whose label reads [text]. *)
Definition offered (items : list ModelItem) (k : CompletionItemKind)
    (text : string) : Prop :=
  exists item,
    In item items /\ kind item = k /\ ToString (label item) = Some text.

Lemma Consistent_offered items seen k text :
  Consistent (items, seen) -> keyFor k text ∈ seen -> offered items k text.
Proof.
  intros (keys & Hkeys & _ & Hseen & _) Hin. simpl in *.
  apply Hseen in Hin. apply (in_map Some) in Hin. rewrite <- Hkeys in Hin.
  apply in_map_iff in Hin as (item & Hkey & Hitem).
  exists item. split; [exact Hitem|].
  unfold keyText in Hkey.
  destruct (ToString (label item)) as [t|]; [|discriminate].
  simpl in Hkey. inversion Hkey as [Heq].
  apply keyFor_inj in Heq as [-> ->]. auto.
Qed.

(** X26.  When [buildModelCompletions] returns, no two of its items
    have the same key (kind and label as text), every label holds as a
    condition, and the detail goes with the kind.  Every name the model
    holds is offered: each class, each attribute of a class, each state
    of a state machine and each association with a name that holds as a
    condition has an item of its kind with that label, and so has each
    event name that [extractEventName] finds in the label of a
    transition. *)
Theorem model_items_are_the_names_of_the_model modelJson items :
  buildModelCompletions modelJson = Some items ->
  (List.NoDup (map keyText items)
   /\ Forall (fun item => keyText item <> None) items
   /\ Forall wellFormed items)
  /\ (forall umpleClass,
        In umpleClass (elementsOf modelJson "umpleClasses") ->
        (forall text,
           named umpleClass text -> offered items KindClass text)
        /\ (forall attr text,
              In attr (elementsOf umpleClass "attributes") ->
              named attr text -> offered items KindField text)
        /\ (forall sm state text,
              In sm (elementsOf umpleClass "stateMachines") ->
              In state (elementsOf sm "states") ->
              named state text -> offered items KindEnumMember text)
        /\ (forall sm transition label text eventName,
              In sm (elementsOf umpleClass "stateMachines") ->
              In transition (elementsOf sm "transitions") ->
              In label (elementsOf transition "labels") ->
              labelText label = Some (JString text) ->
              extractEventName (Some text) = Some eventName ->
              eventName <> "" ->
              offered items KindEvent eventName))
  /\ (forall assoc name text,
        In assoc (elementsOf modelJson "umpleAssociations") ->
        associationName assoc = Some (Some name) ->
        ToBoolean (Some name) = true -> ToString name = Some text ->
        offered items KindProperty text).
Proof.
  unfold buildModelCompletions. intros H.
  destruct (andThen _ _ _) as [[items' seen]|] eqn:E; [|discriminate].
  inversion H; subst items'; clear H.
  assert (Hc : Consistent (items, seen)).
  { eapply (Keeps_andThen _ _
              (Keeps_forOf _ _ _ Keeps_classStatement)
              (Keeps_forOf _ _ _ Keeps_associationStatement));
      [apply Consistent_empty|exact E]. }
  assert (Hclass : forall umpleClass key,
             In umpleClass (elementsOf modelJson "umpleClasses") ->
             Offers key (classStatement umpleClass) -> key ∈ seen).
  { intros umpleClass key Hin Hoff.
    refine (Offers_first key _ _ _ _ _ _ E).
    - eapply Offers_forOf; [exact Hin|exact Hoff|].
      apply Grows_classStatement.
    - apply Grows_forOf. apply Grows_associationStatement. }
  split; [|split].
  - destruct Hc as (keys & Hkeys & Hnd & _ & Hall). simpl in *.
    split; [|split; [|exact Hall]].
    + rewrite Hkeys.
      apply List.NoDup_map_inv with (f := fun o => default "" o).
      rewrite List.map_map. simpl. now rewrite List.map_id.
    + apply List.Forall_forall. intros item Hin Hnone.
      apply (in_map keyText) in Hin. rewrite Hkeys, Hnone in Hin.
      apply in_map_iff in Hin as (k & Hk & _). discriminate.
  - intros umpleClass Hin. split; [|split; [|split]].
    + intros text Hnamed. apply (Consistent_offered _ seen _ _ Hc).
      apply (Hclass umpleClass _ Hin). now apply Offers_class.
    + intros attr text Hattr Hnamed.
      apply (Consistent_offered _ seen _ _ Hc).
      apply (Hclass umpleClass _ Hin). apply Offers_later.
      apply Offers_first; [|apply Grows_forOf, Grows_stateMachineStatement].
      eapply Offers_forOf; [exact Hattr|now apply Offers_attribute|].
      apply Grows_attributeStatement.
    + intros sm state text Hsm Hstate Hnamed.
      apply (Consistent_offered _ seen _ _ Hc).
      apply (Hclass umpleClass _ Hin). apply Offers_later.
      apply Offers_second.
      eapply Offers_forOf; [exact Hsm| |apply Grows_stateMachineStatement].
      unfold stateMachineStatement. apply Offers_first.
      * eapply Offers_forOf; [exact Hstate|now apply Offers_state|].
        intros y. unfold stateStatement. repeat grows_step.
      * unfold transitionStatement, labelStatement. repeat grows_step.
    + intros sm transition label text eventName Hsm Htr Hlabel Htext Hevent Hne.
      apply (Consistent_offered _ seen _ _ Hc).
      apply (Hclass umpleClass _ Hin). apply Offers_later.
      apply Offers_second.
      eapply Offers_forOf; [exact Hsm| |apply Grows_stateMachineStatement].
      unfold stateMachineStatement. apply Offers_second.
      eapply Offers_forOf; [exact Htr| |].
      * unfold transitionStatement.
        eapply Offers_forOf; [exact Hlabel| |].
        -- eapply Offers_label; eassumption.
        -- intros y. unfold labelStatement. repeat grows_step.
      * intros y. unfold transitionStatement, labelStatement.
        repeat grows_step.
  - intros assoc name text Hin Hname Htrue Htext.
    apply (Consistent_offered _ seen _ _ Hc).
    refine (Offers_second _ _ _ _ _ _ E).
    eapply Offers_forOf; [exact Hin| |apply Grows_associationStatement].
    eapply Offers_association; eassumption.
Qed.

(** A model with two classes of the same name, an attribute, a state, a
    transition and an association without a name. *)
Definition sampleModel : json :=
  JObject
    [("umpleClasses",
      JArray
        [JObject
           [("name", JString "A");
            ("attributes",
             JArray [JObject [("name", JString "x");
                              ("type", JString "Integer")]]);
            ("stateMachines",
             JArray
               [JObject
                  [("name", JString "sm");
                   ("states", JArray [JObject [("name", JString "Open")]]);
                   ("transitions",
                    JArray
                      [JObject
                         [("labels",
                           JArray
                             [JObject
                                [("attrs",
                                  JObject
                                    [("text",
                                      JObject
                                        [("text",
                                          JString "close [ok] / act()")])])]])]])]])];
         JObject [("name", JString "A")]]);
     ("umpleAssociations",
      JArray [JObject [("classOneId", JString "A");
                       ("classTwoId", JString "B")]])].

Definition sampleItems : list ModelItem :=
  [{| label := JString "A"; kind := KindClass; detail := "class" |};
   {| label := JString "x"; kind := KindField;
      detail := "Integer attribute in A" |};
   {| label := JString "Open"; kind := KindEnumMember; detail := "state" |};
   {| label := JString "close"; kind := KindEvent; detail := "event" |};
   {| label := JString "A__B"; kind := KindProperty;
      detail := "association" |}].

Lemma model_items_witness :
  List.NoDup (map keyText sampleItems)
  /\ Forall (fun item => keyText item <> None) sampleItems
  /\ Forall wellFormed sampleItems.
Proof.
  apply (model_items_are_the_names_of_the_model sampleModel sampleItems).
  vm_compute. reflexivity.
Defined.

End ModelFacts.

(** ** The walk over the workspace *)

Module WalkFacts.
Import JsString TextDocuments Platform ServerState Server Reasoning.
Local Open Scope list_scope.

(** The directories the walk below [root] enters: [root], and the
    sub-directories of such a directory whose name is not skipped. *)
Inductive Visited (root : string) : string -> Prop :=
| Visited_root : Visited root root
| Visited_child dir name :
    Visited root dir ->
    existsb (String.eqb name) SKIP_DIRS = false ->
    Visited root (Path.join dir name).

(** A file with the extension [.ump] in a directory the walk enters. *)
Definition UmpleFile (root path : string) : Prop :=
  exists dir name,
    Visited root dir /\ path = Path.join dir name
    /\ endsWith name ".ump" = true.

(** What mirroring the workspace may do. *)
Definition mirrors (env : Env) (workspaceRoot shadowRoot : string)
    (e : Event) : Prop :=
  match e with
  | Readdir dir => Visited workspaceRoot dir
  | Fs (Mkdir dir) =>
      exists path,
        UmpleFile workspaceRoot path
        /\ dir = Path.dirname
                   (Path.join shadowRoot
                      (Path.relative (cwd env) workspaceRoot path))
  | Fs (Symlink path target) | Fs (CopyFile path target) =>
      UmpleFile workspaceRoot path
      /\ target = Path.join shadowRoot
                    (Path.relative (cwd env) workspaceRoot path)
  | _ => False
  end.






Section Walk.

Variable env : Env.
Variables workspaceRoot shadowRoot : string.

Let P := mirrors env workspaceRoot shadowRoot.



End Walk.


End WalkFacts.

(** ** A validation that is answered *)

Module AnswerFacts.
Import JsString TextDocuments Demux Diagnostics Platform ServerState Server.
Import ValidationFacts.
Local Open Scope list_scope.

(** What [parseUmpleDiagnostics] writes to the log. *)
Definition successLog (out : Output) (diagnostics : list Lsp.Diagnostic)
    : list Event :=
  match diagnostics with
  | [] => if includes (stdout out) "Success"
          then [ConsoleInfo "Umple compile succeeded."]
          else []
  | _ :: _ => []
  end.

(** X28.  A validation that the service answers.  When the jar exists,
    the temporary file can be written and removed, and the first exchange
    ends with a reply, the validation returns, and after the temporary
    file was chosen it does exactly this: it writes the file, sends
    [-generate nothing] with its path once, logs success if the reply
    has no diagnostics and its output contains [Success], removes the
    file, and publishes for the URI of the document the diagnostics
    parsed from the error block of the reply. *)
Theorem answered_validation_publishes_the_parsed_diagnostics env document s
    jarPath t s1 raw :
  truthyPath (umpleSyncJarPath (config s)) = Some jarPath ->
  existsSync env (now s) jarPath = true ->
  writeTempUmpleFile env document "diag" (record (ExistsSync jarPath) s)
  = (Returned t, s1) ->
  let w := WriteFile (filePath t) (normalizedText document) in
  let commandLine := "-generate nothing " +:+ filePath t in
  fs env (now s1) w = None ->
  socket env (exchanges (record (Fs w) s1)) commandLine = SocketEnd raw ->
  (forall n, fs env n (cleanupOp t) = None) ->
  let out := splitUmpleSyncOutput raw in
  let diagnostics := parseUmpleJsonDiagnostics (stderr out) document in
  fst (validateTextDocument env document s) = Returned tt
  /\ trace (snd (validateTextDocument env document s))
     = trace s1
       ++ [Fs w;
           Connect (umpleSyncHost (config s1)) (umpleSyncPort (config s1))
             commandLine]
       ++ successLog out diagnostics
       ++ [Fs (cleanupOp t); SendDiagnostics (uri document) diagnostics].
Proof.
  intros Hjar Hexists Htemp w commandLine Hwrite Hsocket Hclean out diagnostics.
  assert (Hresolve : resolveJarPath env s
                     = (Returned (Some jarPath), record (ExistsSync jarPath) s)).
  { unfold resolveJarPath, bind, get, callExistsSync. cbv zeta.
    rewrite Hjar. cbv beta iota. rewrite Hexists. reflexivity. }
  assert (Hw : callFs env w s1 = (Returned tt, record (Fs w) s1)).
  { unfold callFs. now rewrite Hwrite. }
  set (s2 := record (Fs w) s1) in *.
  assert (Hsend : sendUmpleSyncCommand env jarPath commandLine s2
                  = (Returned out,
                     record (Connect (umpleSyncHost (config s2))
                               (umpleSyncPort (config s2)) commandLine) s2)).
  { unfold sendUmpleSyncCommand, tryCatch, connectAndSend.
    now rewrite Hsocket. }
  set (s3 := record (Connect _ _ _) s2) in Hsend.
  assert (Hparse : parseUmpleDiagnostics (stderr out) (stdout out) document s3
                   = (Returned diagnostics,
                      fold_left (fun st e => record e st)
                        (successLog out diagnostics) s3)).
  { unfold parseUmpleDiagnostics, successLog, bind, emit, ret.
    fold diagnostics. destruct diagnostics; [|reflexivity].
    destruct (includes (stdout out) "Success"); reflexivity. }
  set (s4 := fold_left _ _ s3) in Hparse.
  assert (Hrun : runUmpleSyncAndParseDiagnostics env jarPath document
                   (record (ExistsSync jarPath) s)
                 = (Returned diagnostics, record (Fs (cleanupOp t)) s4)).
  { unfold runUmpleSyncAndParseDiagnostics.
    rewrite (bind_returned _ _ _ _ _ Htemp). cbv beta.
    fold w. fold commandLine.
    rewrite (bind_returned _ _ _ _ _ Hw). unfold tryFinally.
    rewrite (bind_returned _ _ _ _ _ Hsend), Hparse.
    unfold cleanup, callFs. now rewrite Hclean. }
  unfold validateTextDocument.
  rewrite (bind_returned _ _ _ _ _ Hresolve). cbv beta iota.
  rewrite (bind_returned _ _ _ _ _ Hrun). unfold emit. simpl.
  split; [reflexivity|].
  assert (Htrace : trace s4 = trace s3 ++ successLog out diagnostics).
  { subst s4. generalize (successLog out diagnostics) s3.
    induction l as [|e l IH]; intros st; simpl.
    - now rewrite app_nil_r.
    - rewrite IH. simpl. now rewrite <- app_assoc. }
  rewrite Htrace. subst s3 s2. simpl. rewrite <- !app_assoc. reflexivity.
Qed.

Lemma answered_validation_witness :
  fst (validateTextDocument Replies.complaining Examples.classBuffer
         (initialState Samples.sampleConfig))
  = Returned tt
  /\ trace (snd (validateTextDocument Replies.complaining Examples.classBuffer
                   (initialState Samples.sampleConfig)))
     = [ExistsSync "/opt/umple/umplesync.jar"]
       ++ [Fs (WriteFile "/project/.umple-lsp-diag-4242-1700000000000.ump"
                 (normalizedText Examples.classBuffer));
           Connect "localhost" 5555
             "-generate nothing /project/.umple-lsp-diag-4242-1700000000000.ump"]
       ++ []
       ++ [Fs (Rm "/project/.umple-lsp-diag-4242-1700000000000.ump" false);
           SendDiagnostics "file:///project/model.ump"
             [{| Lsp.severity := Lsp.Error;
                 Lsp.range :=
                   Lsp.Range_create
                     (Lsp.Position_create (JsNumber.Finite 2 0)
                        (JsNumber.Finite 4 0))
                     (Lsp.Position_create (JsNumber.Finite 2 0)
                        (JsNumber.Finite 13 0));
                 Lsp.message := "E12: bad";
                 Lsp.source := "umple" |}]].
Proof.
  exact (answered_validation_publishes_the_parsed_diagnostics
           Replies.complaining Examples.classBuffer
           (initialState Samples.sampleConfig) "/opt/umple/umplesync.jar"
           _ _ _ eq_refl eq_refl eq_refl eq_refl eq_refl (fun _ => eq_refl)).
Defined.

End AnswerFacts.

(** ** The test for being inside a root *)

Module InsideFacts.
Import JsString TextDocuments Platform ServerState Server.
Import Path ContextFacts DefinitionFacts PathFacts.
Local Open Scope list_scope.

(** The names that lead from the directory [ws] to [ps], when [ps] is
    that directory or below it. *)
Fixpoint below (ws ps : list string) : option (list string) :=
  match ws, ps with
  | [], _ => Some ps
  | w :: ws', p :: ps' => if String.eqb w p then below ws' ps' else None
  | _ :: _, [] => None
  end.

Lemma stripCommon_below ws : forall ps,
  match below ws ps with
  | Some rs => stripCommon ws ps = ([], rs)
  | None => exists u up down, stripCommon ws ps = (u :: up, down)
  end.
Proof.
  induction ws as [|w ws IH]; intros ps; simpl.
  - now destruct ps.
  - destruct ps as [|p ps]; [eexists _, _, _; reflexivity|].
    destruct (String.eqb w p); [apply IH|].
    eexists _, _, _; reflexivity.
Qed.

Lemma below_app ws ps rs : below ws ps = Some rs -> ps = ws ++ rs.
Proof.
  revert ps. induction ws as [|w ws IH]; intros ps H; simpl in *.
  - now inversion H.
  - destruct ps as [|p ps]; [discriminate|].
    destruct (String.eqb w p) eqn:E; [|discriminate].
    apply String.eqb_eq in E. subst p. f_equal. now apply IH.
Qed.

Lemma below_refl ws : below ws ws = Some [].
Proof.
  induction ws as [|w ws IH]; simpl; [reflexivity|].
  now rewrite String.eqb_refl.
Qed.

Lemma prefix_cons a p b s :
  String.prefix (String a p) (String b s)
  = if ascii_dec a b then String.prefix p s else false.
Proof. reflexivity. Qed.

Lemma prefix_empty s : String.prefix "" s = true.
Proof. now destruct s. Qed.

Lemma startsWithDotDot_name r rs :
  isName r ->
  startsWithDotDot (joinSegments (r :: rs)) = String.prefix ".." r.
Proof.
  intros (Hr & Hdot & _ & _). unfold startsWithDotDot.
  destruct rs as [|r' rs]; [reflexivity|].
  change (joinSegments (r :: r' :: rs))
    with (r +:+ "/" +:+ joinSegments (r' :: rs)).
  destruct r as [|c [|d r]]; [contradiction| |].
  - rewrite append_cons, append_nil, !prefix_cons.
    destruct (ascii_dec "." c) as [<-|Hc]; [contradiction|reflexivity].
  - rewrite !append_cons, !prefix_cons.
    destruct (ascii_dec "." c); [|reflexivity].
    destruct (ascii_dec "." d); [|reflexivity].
    now rewrite !prefix_empty.
Qed.

Lemma startsWithDotDot_up up down :
  startsWithDotDot
    (joinSegments (".." :: map (fun _ : string => "..") up ++ down))
  = true.
Proof.
  unfold startsWithDotDot.
  destruct (map (fun _ : string => "..") up ++ down) as [|x l];
    [reflexivity|].
  change (joinSegments (".." :: x :: l))
    with (String "." (String "." ("/" +:+ joinSegments (x :: l)))).
  reflexivity.
Qed.

(** X29.  For normalized absolute paths, [isPathInside] only looks at
    names: a path is inside a root when it is the root, or when it is
    below the root and the first name below the root does not start with
    two dots; every other path is outside.  So a file or directory of
    the root whose name starts with two dots counts as outside. *)
Theorem isPathInside_is_a_test_on_names env ws ps :
  Forall isName ws -> Forall isName ps ->
  isPathInside env (absolute ps) (absolute ws)
  = match below ws ps with
    | Some [] => true
    | Some (r :: _) => negb (String.prefix ".." r)
    | None => false
    end.
Proof.
  intros Hws Hps. unfold isPathInside, relative.
  destruct (String.eqb (absolute ws) (absolute ps)) eqn:E.
  - apply String.eqb_eq in E.
    pose proof (resolveSegments_absolute (cwd env) ws Hws) as H1.
    rewrite E, resolveSegments_absolute in H1 by assumption. subst ps.
    now rewrite below_refl.
  - rewrite !resolveSegments_absolute by assumption.
    pose proof (stripCommon_below ws ps) as H.
    destruct (below ws ps) as [rs|] eqn:Hb.
    + rewrite H. simpl map. rewrite app_nil_l.
      apply below_app in Hb. subst ps.
      destruct rs as [|r rs].
      * rewrite app_nil_r, String.eqb_refl in E. discriminate.
      * apply List.Forall_app in Hps as [_ Hrs]. inversion Hrs; subst.
        rewrite isAbsolute_names, startsWithDotDot_name by assumption.
        apply andb_true_r.
    + destruct H as (u & up & down & ->). cbn [map app].
      now rewrite startsWithDotDot_up.
Qed.

Lemma isPathInside_witness :
  isPathInside Samples.stalling "/project/..notes/a.ump" "/project" = false.
Proof.
  refine (isPathInside_is_a_test_on_names Samples.stalling ["project"]
            ["project"; "..notes"; "a.ump"] _ _);
    repeat first [apply List.Forall_cons | apply List.Forall_nil | split];
    first [discriminate | reflexivity].
Defined.

End InsideFacts.

(** ** The overlay of the open buffers *)

Module OverlayFacts.
Import JsString TextDocuments Platform ServerState Server Reasoning.
Local Open Scope list_scope.

(** Every file that is written was removed just before. *)
Inductive Guarded : list Event -> Prop :=
| Guarded_nil : Guarded []
| Guarded_write path text rest :
    Guarded rest ->
    Guarded (Fs (Rm path false) :: Fs (WriteFile path text) :: rest)
| Guarded_other e rest :
    match e with Fs (WriteFile _ _) => False | _ => True end ->
    Guarded rest -> Guarded (e :: rest).

(** What the overlay may do for the buffers [docs]. *)
Definition overlays (env : Env) (workspaceRoot shadowRoot : string)
    (docs : list TextDocument) (e : Event) : Prop :=
  match e with
  | Fs (Mkdir _) | Fs (Rm _ false) => True
  | Fs (WriteFile path text) =>
      exists doc docPath,
        In doc docs
        /\ getDocumentFilePath env doc = Some docPath
        /\ isPathInside env docPath workspaceRoot = true
        /\ path = Path.join shadowRoot
                    (Path.relative (cwd env) workspaceRoot docPath)
        /\ text = normalizedText doc
  | _ => False
  end.

Lemma Guarded_app a b : Guarded a -> Guarded b -> Guarded (a ++ b).
Proof.
  intros Ha Hb. induction Ha; simpl; [exact Hb| |].
  - now apply Guarded_write.
  - now apply Guarded_other.
Qed.

(** The events of the overlay of one buffer. *)
Lemma overlayDocument_events env workspaceRoot shadowRoot doc s :
  exists events,
    trace (snd (overlayDocument env workspaceRoot shadowRoot doc s))
    = trace s ++ events
    /\ Guarded events
    /\ Forall (overlays env workspaceRoot shadowRoot [doc]) events.
Proof.
  unfold overlayDocument.
  destruct (getDocumentFilePath env doc) as [docPath|] eqn:Hpath;
    [|exists []; simpl; rewrite app_nil_r; repeat constructor].
  destruct docPath as [|c docPath];
    [exists []; simpl; rewrite app_nil_r; repeat constructor|].
  cbn [truthyPath].
  destruct (isPathInside env (String c docPath) workspaceRoot) eqn:Hin;
    [|exists []; simpl; rewrite app_nil_r; repeat constructor].
  cbv zeta.
  set (target := Path.join shadowRoot
                   (Path.relative (cwd env) workspaceRoot (String c docPath))).
  assert (Hwrite : overlays env workspaceRoot shadowRoot [doc]
                     (Fs (WriteFile target (normalizedText doc)))).
  { exists doc, (String c docPath). repeat split; auto. now left. }
  unfold bind, callFs.
  destruct (fs env (now s) (Mkdir (Path.dirname target))).
  { exists [Fs (Mkdir (Path.dirname target))]. simpl.
    repeat constructor. }
  set (s1 := record (Fs (Mkdir (Path.dirname target))) s).
  destruct (fs env (now s1) (Rm target false)).
  { exists [Fs (Mkdir (Path.dirname target)); Fs (Rm target false)].
    subst s1. simpl. rewrite <- app_assoc. repeat constructor. }
  set (s2 := record (Fs (Rm target false)) s1).
  exists [Fs (Mkdir (Path.dirname target)); Fs (Rm target false);
          Fs (WriteFile target (normalizedText doc))].
  split; [|split].
  - destruct (fs env (now s2) (WriteFile target (normalizedText doc)));
      subst s2 s1; simpl; rewrite <- !app_assoc; reflexivity.
  - apply Guarded_other; [exact I|]. apply Guarded_write. constructor.
  - repeat constructor. exact Hwrite.
Qed.

Lemma overlays_more env workspaceRoot shadowRoot docs docs' e :
  (forall doc, In doc docs -> In doc docs') ->
  overlays env workspaceRoot shadowRoot docs e ->
  overlays env workspaceRoot shadowRoot docs' e.
Proof.
  intros Hsub. destruct e; try exact (fun H => H).
  destruct op; try exact (fun H => H).
  intros (doc & docPath & Hin & H). exists doc, docPath. split; auto.
Qed.

Lemma forEach_overlay env workspaceRoot shadowRoot docs : forall s,
  exists events,
    trace (snd (forEach docs (overlayDocument env workspaceRoot shadowRoot) s))
    = trace s ++ events
    /\ Guarded events
    /\ Forall (overlays env workspaceRoot shadowRoot docs) events.
Proof.
  induction docs as [|doc docs IH]; intros s; simpl.
  - exists []. rewrite app_nil_r. repeat constructor.
  - destruct (overlayDocument_events env workspaceRoot shadowRoot doc s)
      as (e1 & T1 & G1 & F1).
    assert (F1' : Forall (overlays env workspaceRoot shadowRoot (doc :: docs))
                    e1).
    { eapply List.Forall_impl; [|exact F1]. intros e.
      apply overlays_more. intros d [<-|[]]. now left. }
    unfold bind.
    destruct (overlayDocument env workspaceRoot shadowRoot doc s)
      as [[u|err] s1]; simpl in T1.
    + destruct (IH s1) as (e2 & T2 & G2 & F2).
      exists (e1 ++ e2). rewrite T2, T1, app_assoc.
      split; [reflexivity|]. split; [now apply Guarded_app|].
      apply List.Forall_app. split; [exact F1'|].
      eapply List.Forall_impl; [|exact F2]. intros e.
      apply overlays_more. intros d Hd. now right.
    + exists e1. auto.
Qed.

(** X30.  The overlay of the open buffers only creates directories,
    removes files and writes files; every file it writes it has removed
    in the call just before, so that a link to the file in the workspace
    is never written through; and what it writes is the normalized text
    of an open buffer inside the workspace root, at the path of that
    buffer relative to the workspace root below the shadow root. *)
Theorem overlay_never_writes_through_a_link env workspaceRoot shadowRoot s :
  exists events,
    trace (snd (overlayOpenDocuments env workspaceRoot shadowRoot s))
    = trace s ++ events
    /\ Guarded events
    /\ Forall
         (overlays env workspaceRoot shadowRoot (map_values (documents s)))
         events.
Proof.
  unfold overlayOpenDocuments, bind, get.
  apply forEach_overlay.
Qed.

End OverlayFacts.
